(** * Event notification subsystem of [index.js]

    A shallow embedding of the publisher / subscriber / event-log code of
    [src/index.js] and of its request handlers /register and /login,
    together with the parts of the JavaScript platform the code composes
    ([JSON.stringify], [JSON.parse], [Buffer.from], [Buffer#toString],
    [Date#toISOString]).

    Conventions.
    - A JavaScript string is the list of its UTF-16 code units, each a [Z]
      in [0, 65536).  A [Buffer] is the list of its bytes, each a [Z] in
      [0, 256).
    - A Number is an IEEE binary64 value: [NaN], one of the two infinities,
      an integer of the safe range ([Int z]), or any other finite value
      ([Bin m e], standing for m * 2^e with m and e the significand and the
      exponent of the format).  Reading a decimal rounds it to the nearest
      such value, ties to even.  Negative zero is identified with zero.
    - Module-level mutable state ([let channel]), the console, the calls made
      on the broker client and the file system are fields of [World];
      functions of the program are state transformers that may throw. *)

From Stdlib Require Import ZArith List Lia Bool String Ascii.
Import ListNotations.
Open Scope Z_scope.

(* ===================================================================== *)
(** ** JavaScript strings *)
(* ===================================================================== *)

Definition jsstring := list Z.

(** A string literal of the source, as code units. *)
Fixpoint str (s : string) : jsstring :=
  match s with
  | EmptyString => []
  | String a r => Z.of_N (N_of_ascii a) :: str r
  end.

Definition code_unit (c : Z) : Prop := 0 <= c < 65536.
Definition is_leading_surrogate (c : Z) : bool := (55296 <=? c) && (c <=? 56319).
Definition is_trailing_surrogate (c : Z) : bool := (56320 <=? c) && (c <=? 57343).

Fixpoint jsstring_eqb (a b : jsstring) : bool :=
  match a, b with
  | [], [] => true
  | x :: a', y :: b' => (x =? y) && jsstring_eqb a' b'
  | _, _ => false
  end.

(** [Array.prototype.join] on already-converted strings. *)
Fixpoint join (sep : jsstring) (parts : list jsstring) : jsstring :=
  match parts with
  | [] => []
  | [p] => p
  | p :: rest => p ++ sep ++ join sep rest
  end.

(** Decimal digits of a non-negative integer, most significant first.
    [fuel] bounds the number of digits; the bit size of the number is always
    enough. *)
Fixpoint digits_aux (fuel : nat) (n : Z) (acc : jsstring) : jsstring :=
  match fuel with
  | O => acc
  | S f => if n <? 10 then (48 + n) :: acc
           else digits_aux f (n / 10) ((48 + n mod 10) :: acc)
  end.

Definition digits (n : Z) : jsstring :=
  digits_aux (S (Z.to_nat (Z.log2 n))) n [].

(** The last [width] decimal digits of [n], zero padded. *)
Fixpoint digits_fixed (width : nat) (n : Z) : jsstring :=
  match width with
  | O => []
  | S w => digits_fixed w (n / 10) ++ [48 + n mod 10]
  end.

(* ===================================================================== *)
(** ** Values *)
(* ===================================================================== *)

Inductive Number :=
| NaN
| Infinity
| NegInfinity
| Int (z : Z)
| Bin (m e : Z).

#[warnings="-register-all"]
Inductive JSValue :=
| JUndefined
| JNull
| JBool (b : bool)
| JNumber (n : Number)
| JString (s : jsstring)
| JArray (elems : list JSValue)
| JObject (props : list (jsstring * JSValue)).

Definition Object := list (jsstring * JSValue).

Definition max_safe_integer : Z := 9007199254740991.
Definition safe_integer (z : Z) : Prop := - max_safe_integer <= z <= max_safe_integer.
Definition safe_integerb (z : Z) : bool :=
  (- max_safe_integer <=? z) && (z <=? max_safe_integer).

(** *** binary64

    The value of a positive ratio num/den in the format: the significand
    has 53 bits, or fewer at the least exponent -1074 (subnormal values); a
    ratio exactly between two values goes to the one with the even
    significand; one that rounds beyond the largest exponent, 971, is an
    infinity. *)

Definition round_half_even (num den : Z) : Z :=
  let q := num / den in
  let r := num mod den in
  if 2 * r <? den then q
  else if den <? 2 * r then q + 1
  else if Z.even q then q else q + 1.

(** The integer l with 2^l <= num/den < 2^(l+1). *)
Definition floor_log2 (num den : Z) : Z :=
  let l := Z.log2 num - Z.log2 den in
  if (if 0 <=? l then den * 2 ^ l <=? num else den <=? num * 2 ^ (- l)) then l else l - 1.

Definition nearest_binary64 (num den : Z) : option (Z * Z) :=
  let e := Z.max (floor_log2 num den - 52) (-1074) in
  let m := if 0 <=? e then round_half_even num (den * 2 ^ e)
           else round_half_even (num * 2 ^ (- e)) den in
  let '(m, e) := if m =? 2 ^ 53 then (2 ^ 52, e + 1) else (m, e) in
  if 971 <? e then None else Some (m, e).

(** The Number of significand [m] and exponent [e]: an [Int] when its value
    is an integer of the safe range. *)
Definition Number_of_binary64 (neg : bool) (m e : Z) : Number :=
  let signed (z : Z) := if neg then - z else z in
  if m =? 0 then Int 0
  else if 0 <=? e then (if e =? 0 then Int (signed m) else Bin (signed m) e)
  else if m mod 2 ^ (- e) =? 0 then Int (signed (m / 2 ^ (- e)))
  else Bin (signed m) e.

Definition Number_of_ratio (neg : bool) (num den : Z) : Number :=
  match nearest_binary64 num den with
  | Some (m, e) => Number_of_binary64 neg m e
  | None => if neg then NegInfinity else Infinity
  end.

(** The Number a decimal m * 10^e denotes (StringToNumber on a decimal
    literal). *)
Definition Number_of_decimal (m e : Z) : Number :=
  if m =? 0 then Int 0
  else Number_of_ratio (m <? 0) (Z.abs m * 10 ^ Z.max e 0) (10 ^ Z.max (- e) 0).

(** The same Number (not [===]: a NaN is the same as itself here). *)
Definition Number_same (a b : Number) : bool :=
  match a, b with
  | NaN, NaN | Infinity, Infinity | NegInfinity, NegInfinity => true
  | Int x, Int y => x =? y
  | Bin m e, Bin m' e' => (m =? m') && (e =? e')
  | _, _ => false
  end.

(** *** Number::toString (radix 10)

    ECMA-262, 6.1.6.1.20: for a positive finite x, let n, k and s be integers
    with k >= 1, 10^(k-1) <= s < 10^k, such that s * 10^(n-k) reads as x and
    k is as small as possible; of several such s, the one nearest to x.  The
    digits of s are then laid out according to n and k.  For a safe integer
    these digits are its decimal expansion. *)

Fixpoint strip_trailing_zeros (fuel : nat) (m e : Z) : Z * Z :=
  match fuel with
  | O => (m, e)
  | S f => if (m mod 10 =? 0) && negb (m =? 0)
           then strip_trailing_zeros f (m / 10) (e + 1)
           else (m, e)
  end.

(** The n with 10^(n-1) <= num/den < 10^n. *)
Definition decimal_position (num den : Z) : Z :=
  if den <=? num then Z.of_nat (List.length (digits (num / den)))
  else 1 - Z.of_nat (List.length (digits ((den + num - 1) / num - 1))).

(** The two decimals of [k] digits next to num/den, as pairs (s, n), the
    nearer one first, the even one first when they are as near. *)
Definition candidates (num den n k : Z) : list (Z * Z) :=
  let '(a, b) := if n <=? k then (num * 10 ^ (k - n), den) else (num, den * 10 ^ (n - k)) in
  let lo := a / b in
  let r := a mod b in
  let hi := lo + 1 in
  let place (s : Z) := if s =? 10 ^ k then (10 ^ (k - 1), n + 1) else (s, n) in
  if (2 * r <? b) || ((2 * r =? b) && Z.even lo)
  then [place lo; place hi] else [place hi; place lo].

(** Whether the digits [s] with the decimal point after the [n]-th read as
    [x]. *)
Definition reads_as (x : Number) (c : Z * Z) : bool :=
  let '(s, n) := c in
  (0 <? s) && Number_same (Number_of_decimal s (n - Z.of_nat (List.length (digits s)))) x.

(** The digits of the exact value of m * 2^e, which is a decimal. *)
Definition exact_decimal (m e : Z) : Z * Z :=
  let '(s, d) := if 0 <=? e then (m * 2 ^ e, 0) else (m * 5 ^ (- e), e) in
  let '(s', d') := strip_trailing_zeros (S (Z.to_nat (Z.log2 s))) s d in
  (s', Z.of_nat (List.length (digits s')) + d').

(** The first [k] of [ks] with a candidate that reads as [x]. *)
Fixpoint shortest (ks : list Z) (x : Number) (num den n : Z) (otherwise : Z * Z) : Z * Z :=
  match ks with
  | [] => otherwise
  | k :: rest =>
      match find (reads_as x) (candidates num den n k) with
      | Some c => c
      | None => shortest rest x num den n otherwise
      end
  end.

(** The digits s and the position n of a positive m * 2^e.  Seventeen
    digits are enough for every binary64 value; the exact decimal stands
    behind them. *)
Definition Number_digits (m e : Z) : Z * Z :=
  let '(num, den) := if 0 <=? e then (m * 2 ^ e, 1) else (m, 2 ^ (- e)) in
  shortest [1; 2; 3; 4; 5; 6; 7; 8; 9; 10; 11; 12; 13; 14; 15; 16; 17]
    (Bin m e) num den (decimal_position num den) (exact_decimal m e).

Definition exponent_part (x : Z) : jsstring :=
  str "e" ++ (if x <? 0 then str "-" else str "+") ++ digits (Z.abs x).

Definition layout_decimal (s : jsstring) (n : Z) : jsstring :=
  let k := Z.of_nat (List.length s) in
  if (k <=? n) && (n <=? 21) then
    s ++ repeat 48 (Z.to_nat (n - k))
  else if (0 <? n) && (n <=? 21) then
    firstn (Z.to_nat n) s ++ str "." ++ skipn (Z.to_nat n) s
  else if (-6 <? n) && (n <=? 0) then
    str "0." ++ repeat 48 (Z.to_nat (- n)) ++ s
  else if k =? 1 then
    s ++ exponent_part (n - 1)
  else
    firstn 1 s ++ str "." ++ skipn 1 s ++ exponent_part (n - 1).

Definition Number_toString (x : Number) : jsstring :=
  match x with
  | NaN => str "NaN"
  | Infinity => str "Infinity"
  | NegInfinity => str "-Infinity"
  | Int z => if z <? 0 then str "-" ++ digits (- z) else digits z
  | Bin m e =>
      let '(s, n) := Number_digits (Z.abs m) e in
      (if m <? 0 then str "-" else []) ++ layout_decimal (digits s) n
  end.

Definition Number_isFinite (x : Number) : bool :=
  match x with
  | NaN | Infinity | NegInfinity => false
  | _ => true
  end.

(* ===================================================================== *)
(** ** JSON *)
(* ===================================================================== *)

Module JSON.

Definition hex_digit (d : Z) : Z := if d <? 10 then 48 + d else 87 + d.

(** UnicodeEscape: backslash, u, four lowercase hexadecimal digits. *)
Definition UnicodeEscape (c : Z) : jsstring :=
  [92; 117; hex_digit (c / 4096 mod 16); hex_digit (c / 256 mod 16);
   hex_digit (c / 16 mod 16); hex_digit (c mod 16)].

(** One code unit that is not part of a surrogate pair. *)
Definition quote_unit (c : Z) : jsstring :=
  if c =? 8 then str "\b"
  else if c =? 9 then str "\t"
  else if c =? 10 then str "\n"
  else if c =? 12 then str "\f"
  else if c =? 13 then str "\r"
  else if c =? 34 then [92; 34]
  else if c =? 92 then [92; 92]
  else if (c <? 32) || is_leading_surrogate c || is_trailing_surrogate c
  then UnicodeEscape c
  else [c].

(** The loop of QuoteJSONString over the code points of the string: a
    leading surrogate followed by a trailing one is one code point and is
    copied; any other surrogate is alone and is escaped. *)
Fixpoint quote_chars (s : jsstring) : jsstring :=
  match s with
  | [] => []
  | c :: rest =>
      if is_leading_surrogate c then
        match rest with
        | d :: rest' =>
            if is_trailing_surrogate d then c :: d :: quote_chars rest'
            else quote_unit c ++ quote_chars rest
        | [] => quote_unit c
        end
      else quote_unit c ++ quote_chars rest
  end.

Definition QuoteJSONString (s : jsstring) : jsstring :=
  [34] ++ quote_chars s ++ [34].

(** SerializeJSONProperty, without replacer and with an empty gap.
    [None] is the result [undefined]. *)
Fixpoint SerializeJSONProperty (v : JSValue) : option jsstring :=
  match v with
  | JUndefined => None
  | JNull => Some (str "null")
  | JBool true => Some (str "true")
  | JBool false => Some (str "false")
  | JNumber n => Some (if Number_isFinite n then Number_toString n else str "null")
  | JString s => Some (QuoteJSONString s)
  | JArray elems =>
      Some (str "[" ++
            join (str ",")
              (map (fun x => match SerializeJSONProperty x with
                             | Some t => t
                             | None => str "null"
                             end) elems) ++
            str "]")
  | JObject props =>
      Some (str "{" ++
            join (str ",")
              ((fix members (ps : list (jsstring * JSValue)) : list jsstring :=
                  match ps with
                  | [] => []
                  | (k, x) :: r =>
                      match SerializeJSONProperty x with
                      | Some t => (QuoteJSONString k ++ str ":" ++ t) :: members r
                      | None => members r
                      end
                  end) props) ++
            str "}")
  end.

Definition stringify (v : JSValue) : option jsstring := SerializeJSONProperty v.

(** *** JSON.parse

    The JSON grammar of ECMA-404 as ECMA-262 24.5.1 reads it: white space
    is tab, line feed, carriage return and space; a string may hold any code
    unit except the quote, the backslash and U+0000..U+001F; objects are
    built with CreateDataProperty, so a repeated key keeps its first place
    and takes the last value. *)

Inductive Res (A : Type) : Type :=
| Parsed (a : A) (rest : jsstring)
| Invalid
| OutOfFuel.
Arguments Parsed {A} a rest.
Arguments Invalid {A}.
Arguments OutOfFuel {A}.

Definition is_ws (c : Z) : bool :=
  (c =? 9) || (c =? 10) || (c =? 13) || (c =? 32).

Fixpoint skip_ws (s : jsstring) : jsstring :=
  match s with
  | c :: r => if is_ws c then skip_ws r else s
  | [] => []
  end.

Definition is_digit (c : Z) : bool := (48 <=? c) && (c <=? 57).

Definition hex_value (c : Z) : option Z :=
  if is_digit c then Some (c - 48)
  else if (97 <=? c) && (c <=? 102) then Some (c - 87)
  else if (65 <=? c) && (c <=? 70) then Some (c - 55)
  else None.

Definition hex4 (h3 h2 h1 h0 : Z) : option Z :=
  match hex_value h3, hex_value h2, hex_value h1, hex_value h0 with
  | Some a, Some b, Some c, Some d => Some (a * 4096 + b * 256 + c * 16 + d)
  | _, _, _, _ => None
  end.

(** The character a single-character escape stands for. *)
Definition unescape (e : Z) : option Z :=
  if e =? 34 then Some 34
  else if e =? 92 then Some 92
  else if e =? 47 then Some 47
  else if e =? 98 then Some 8
  else if e =? 102 then Some 12
  else if e =? 110 then Some 10
  else if e =? 114 then Some 13
  else if e =? 116 then Some 9
  else None.

Definition cons_chars (c : Z) (r : option (jsstring * jsstring)) : option (jsstring * jsstring) :=
  match r with
  | Some (cs, rest) => Some (c :: cs, rest)
  | None => None
  end.

(** The characters of a string literal after its opening quote, up to and
    including the closing quote. *)
Fixpoint parse_string_chars (s : jsstring) : option (jsstring * jsstring) :=
  match s with
  | [] => None
  | c :: r =>
      if c =? 34 then Some ([], r)
      else if c =? 92 then
        match r with
        | e :: r1 =>
            if e =? 117 then
              match r1 with
              | h3 :: h2 :: h1 :: h0 :: r2 =>
                  match hex4 h3 h2 h1 h0 with
                  | Some u => cons_chars u (parse_string_chars r2)
                  | None => None
                  end
              | _ => None
              end
            else
              match unescape e with
              | Some u => cons_chars u (parse_string_chars r1)
              | None => None
              end
        | [] => None
        end
      else if c <? 32 then None
      else cons_chars c (parse_string_chars r)
  end.

(** The longest prefix of decimal digits, as digit values. *)
Fixpoint span_digits (s : jsstring) : list Z * jsstring :=
  match s with
  | c :: r => if is_digit c
              then let '(ds, rest) := span_digits r in ((c - 48) :: ds, rest)
              else ([], s)
  | [] => ([], [])
  end.

Definition digits_value (ds : list Z) : Z :=
  fold_left (fun a d => 10 * a + d) ds 0.

(** JSONNumber: an optional minus, an integer part without a superfluous
    leading zero, an optional fraction, an optional exponent. *)
Definition parse_sign (s : jsstring) : bool * jsstring :=
  match s with
  | c :: r => if c =? 45 then (true, r) else (false, s)
  | [] => (false, s)
  end.

Definition parse_int_part (s : jsstring) : option (list Z * jsstring) :=
  match s with
  | c :: r => if c =? 48 then Some ([0], r)
              else if is_digit c then Some (span_digits s)
              else None
  | [] => None
  end.

Definition parse_fraction (s : jsstring) : option (list Z * jsstring) :=
  match s with
  | c :: r => if c =? 46
              then match span_digits r with
                   | ([], _) => None
                   | (fds, r') => Some (fds, r')
                   end
              else Some ([], s)
  | [] => Some ([], s)
  end.

Definition parse_exponent (s : jsstring) : option (Z * jsstring) :=
  match s with
  | c :: r =>
      if (c =? 101) || (c =? 69) then
        let '(eneg, r1) := match r with
                           | g :: r' => if g =? 45 then (true, r')
                                        else if g =? 43 then (false, r')
                                        else (false, r)
                           | [] => (false, r)
                           end in
        match span_digits r1 with
        | ([], _) => None
        | (eds, r2) => Some ((if eneg then - digits_value eds else digits_value eds), r2)
        end
      else Some (0, s)
  | [] => Some (0, s)
  end.

Definition parse_number (s : jsstring) : option (Number * jsstring) :=
  let '(neg, s1) := parse_sign s in
  match parse_int_part s1 with
  | None => None
  | Some (ids, s2) =>
      match parse_fraction s2 with
      | None => None
      | Some (fds, s3) =>
          match parse_exponent s3 with
          | None => None
          | Some (ex, s4) =>
              let m := digits_value (ids ++ fds) in
              Some (Number_of_decimal (if neg then - m else m)
                                      (ex - Z.of_nat (List.length fds)), s4)
          end
      end
  end.

(** An array index is a canonical numeric string below 2^32 - 1.  Own
    property keys are enumerated array indices first, in ascending order,
    then the other keys in order of creation. *)
Definition array_index (k : jsstring) : option Z :=
  match k with
  | [] => None
  | c :: r =>
      if forallb is_digit k && ((c =? 48) && (match r with [] => true | _ => false end)
                                || negb (c =? 48))
      then let v := digits_value (map (fun d => d - 48) k) in
           if v <? 4294967295 then Some v else None
      else None
  end.

Definition key_before (k k' : jsstring) : bool :=
  match array_index k, array_index k' with
  | Some i, Some j => i <? j
  | Some _, None => true
  | None, _ => false
  end.

Fixpoint CreateDataProperty (o : Object) (k : jsstring) (v : JSValue) : Object :=
  match o with
  | [] => [(k, v)]
  | (k', v') :: r =>
      if jsstring_eqb k k' then (k', v) :: r
      else if key_before k k' then (k, v) :: (k', v') :: r
      else (k', v') :: CreateDataProperty r k v
  end.

Definition starts_with (lit s : jsstring) : option jsstring :=
  if jsstring_eqb (firstn (List.length lit) s) lit
  then Some (skipn (List.length lit) s) else None.

(** Recursive descent; every call spends one unit of [fuel]. *)
Fixpoint parse_value (fuel : nat) (s : jsstring) : Res JSValue :=
  match fuel with
  | O => OutOfFuel
  | S f =>
      match skip_ws s with
      | [] => Invalid
      | c :: r =>
          if c =? 123 then
            match skip_ws r with
            | d :: r' => if d =? 125 then Parsed (JObject []) r'
                         else parse_members f (d :: r') []
            | [] => Invalid
            end
          else if c =? 91 then
            match skip_ws r with
            | d :: r' => if d =? 93 then Parsed (JArray []) r'
                         else parse_elements f (d :: r') []
            | [] => Invalid
            end
          else if c =? 34 then
            match parse_string_chars r with
            | Some (cs, rest) => Parsed (JString cs) rest
            | None => Invalid
            end
          else
            match starts_with (str "true") (c :: r),
                  starts_with (str "false") (c :: r),
                  starts_with (str "null") (c :: r) with
            | Some rest, _, _ => Parsed (JBool true) rest
            | _, Some rest, _ => Parsed (JBool false) rest
            | _, _, Some rest => Parsed JNull rest
            | _, _, _ =>
                match parse_number (c :: r) with
                | Some (n, rest) => Parsed (JNumber n) rest
                | None => Invalid
                end
            end
      end
  end
with parse_members (fuel : nat) (s : jsstring) (acc : Object) : Res JSValue :=
  match fuel with
  | O => OutOfFuel
  | S f =>
      match skip_ws s with
      | c :: r =>
          if c =? 34 then
            match parse_string_chars r with
            | Some (k, r1) =>
                match skip_ws r1 with
                | colon :: r2 =>
                    if colon =? 58 then
                      match parse_value f r2 with
                      | Parsed v r3 =>
                          match skip_ws r3 with
                          | d :: r4 =>
                              if d =? 44 then parse_members f r4 (CreateDataProperty acc k v)
                              else if d =? 125 then Parsed (JObject (CreateDataProperty acc k v)) r4
                              else Invalid
                          | [] => Invalid
                          end
                      | Invalid => Invalid
                      | OutOfFuel => OutOfFuel
                      end
                    else Invalid
                | [] => Invalid
                end
            | None => Invalid
            end
          else Invalid
      | [] => Invalid
      end
  end
with parse_elements (fuel : nat) (s : jsstring) (acc : list JSValue) : Res JSValue :=
  match fuel with
  | O => OutOfFuel
  | S f =>
      match parse_value f s with
      | Parsed v r1 =>
          match skip_ws r1 with
          | d :: r2 =>
              if d =? 44 then parse_elements f r2 (acc ++ [v])
              else if d =? 93 then Parsed (JArray (acc ++ [v])) r2
              else Invalid
          | [] => Invalid
          end
      | Invalid => Invalid
      | OutOfFuel => OutOfFuel
      end
  end.

(** [JSON.parse text] without a reviver: the value, or [None] for the
    SyntaxError it throws.  Twice the length of the text is fuel enough for
    any text (see [parse_never_out_of_fuel]). *)
Definition parse (text : jsstring) : option JSValue :=
  match parse_value (S (2 * List.length text)) text with
  | Parsed v rest => match skip_ws rest with
                     | [] => Some v
                     | _ :: _ => None
                     end
  | Invalid => None
  | OutOfFuel => None
  end.

End JSON.

(* ===================================================================== *)
(** ** Buffers: UTF-8 *)
(* ===================================================================== *)

Module Buffer.

Definition replacement : list Z := [239; 191; 189].

Definition utf8_of_code_point (cp : Z) : list Z :=
  if cp <? 128 then [cp]
  else if cp <? 2048 then [192 + cp / 64; 128 + cp mod 64]
  else if cp <? 65536 then
    [224 + cp / 4096; 128 + cp / 64 mod 64; 128 + cp mod 64]
  else
    [240 + cp / 262144; 128 + cp / 4096 mod 64; 128 + cp / 64 mod 64;
     128 + cp mod 64].

(** [Buffer.from(string)]: the UTF-8 encoding of the string; a surrogate
    that is not part of a pair is written as U+FFFD. *)
Fixpoint from (s : jsstring) : list Z :=
  match s with
  | [] => []
  | c :: rest =>
      if is_leading_surrogate c then
        match rest with
        | d :: rest' =>
            if is_trailing_surrogate d
            then utf8_of_code_point (65536 + (c - 55296) * 1024 + (d - 56320))
                   ++ from rest'
            else replacement ++ from rest
        | [] => replacement
        end
      else if is_trailing_surrogate c then replacement ++ from rest
      else utf8_of_code_point c ++ from rest
  end.

Definition units_of_code_point (cp : Z) : jsstring :=
  if cp <? 65536 then [cp]
  else [55296 + (cp - 65536) / 1024; 56320 + (cp - 65536) mod 1024].

Definition is_continuation (b : Z) : bool := (128 <=? b) && (b <=? 191).

(** Bounds on the second byte of a three- and four-byte sequence, which
    exclude overlong forms, surrogates and code points above U+10FFFF. *)
Definition second_lower (b0 : Z) : Z :=
  if b0 =? 224 then 160 else if b0 =? 240 then 144 else 128.
Definition second_upper (b0 : Z) : Z :=
  if b0 =? 237 then 159 else if b0 =? 244 then 143 else 191.

(** [buf.toString()]: UTF-8 decoding; every maximal ill-formed part
    becomes one U+FFFD and decoding resumes at the offending byte. *)
Fixpoint toString (bs : list Z) : jsstring :=
  match bs with
  | [] => []
  | b0 :: r0 =>
      if b0 <? 128 then b0 :: toString r0
      else if (194 <=? b0) && (b0 <=? 223) then
        match r0 with
        | b1 :: r1 =>
            if is_continuation b1
            then units_of_code_point ((b0 - 192) * 64 + (b1 - 128)) ++ toString r1
            else 65533 :: toString r0
        | [] => [65533]
        end
      else if (224 <=? b0) && (b0 <=? 239) then
        match r0 with
        | b1 :: r1 =>
            if (second_lower b0 <=? b1) && (b1 <=? second_upper b0) then
              match r1 with
              | b2 :: r2 =>
                  if is_continuation b2
                  then units_of_code_point
                         ((b0 - 224) * 4096 + (b1 - 128) * 64 + (b2 - 128))
                         ++ toString r2
                  else 65533 :: toString r1
              | [] => [65533]
              end
            else 65533 :: toString r0
        | [] => [65533]
        end
      else if (240 <=? b0) && (b0 <=? 244) then
        match r0 with
        | b1 :: r1 =>
            if (second_lower b0 <=? b1) && (b1 <=? second_upper b0) then
              match r1 with
              | b2 :: r2 =>
                  if is_continuation b2 then
                    match r2 with
                    | b3 :: r3 =>
                        if is_continuation b3
                        then units_of_code_point
                               ((b0 - 240) * 262144 + (b1 - 128) * 4096
                                + (b2 - 128) * 64 + (b3 - 128))
                               ++ toString r3
                        else 65533 :: toString r2
                    | [] => [65533]
                    end
                  else 65533 :: toString r1
              | [] => [65533]
              end
            else 65533 :: toString r0
        | [] => [65533]
        end
      else 65533 :: toString r0
  end.

End Buffer.

(* ===================================================================== *)
(** ** Dates *)
(* ===================================================================== *)

Module Date.

Definition msPerDay : Z := 86400000.

(** Year, month (1..12) and day of the month (1..31) of a day number
    counted from 1970-01-01, in the proleptic Gregorian calendar. *)
Definition civil_from_days (day : Z) : Z * Z * Z :=
  let z := day + 719468 in
  let era := z / 146097 in
  let doe := z - era * 146097 in
  let yoe := (doe - doe / 1460 + doe / 36524 - doe / 146096) / 365 in
  let doy := doe - (365 * yoe + yoe / 4 - yoe / 100) in
  let mp := (5 * doy + 2) / 153 in
  let d := doy - (153 * mp + 2) / 5 + 1 in
  let m := if mp <? 10 then mp + 3 else mp - 9 in
  (yoe + era * 400 + (if m <=? 2 then 1 else 0), m, d).

(** [new Date(t).toISOString()] for a time value [t] in milliseconds since
    the epoch: YYYY-MM-DDTHH:mm:ss.sssZ, the year with a sign and six digits
    outside 0..9999. *)
Definition toISOString (t : Z) : jsstring :=
  let '(y, m, d) := civil_from_days (t / msPerDay) in
  let ms := t mod msPerDay in
  (if (0 <=? y) && (y <=? 9999) then digits_fixed 4 y
   else (if y <? 0 then str "-" else str "+") ++ digits_fixed 6 (Z.abs y))
  ++ str "-" ++ digits_fixed 2 m ++ str "-" ++ digits_fixed 2 d
  ++ str "T" ++ digits_fixed 2 (ms / 3600000)
  ++ str ":" ++ digits_fixed 2 (ms / 60000 mod 60)
  ++ str ":" ++ digits_fixed 2 (ms / 1000 mod 60)
  ++ str "." ++ digits_fixed 3 (ms mod 1000) ++ str "Z".

End Date.

(* ===================================================================== *)
(** ** The world the program runs in *)
(* ===================================================================== *)

Record Error := mkError {
  name : jsstring;
  message : jsstring;
  stack : jsstring
}.

(** The error the engine throws on [undefined.member] and [null.member]. *)
Definition TypeError (msg : jsstring) : Error :=
  mkError (str "TypeError") msg (str "TypeError: " ++ msg).

Definition SyntaxError (msg : jsstring) : Error :=
  mkError (str "SyntaxError") msg (str "SyntaxError: " ++ msg).

Definition cannot_read (base member : string) : Error :=
  TypeError (str "Cannot read properties of " ++ str base ++ str " (reading '"
             ++ str member ++ str "')").

Definition Connection := nat.
Definition Channel := nat.

Record ExchangeOptions := { durable : bool }.
Record QueueOptions := { exclusive : bool }.
Record ConsumeOptions := { noAck : bool }.

(** The calls the program makes on the broker client, with their
    arguments. *)
Inductive BrokerOp :=
| Connect (url : option jsstring)
| CreateChannel (conn : Connection)
| AssertExchange (ch : Channel) (exchange_name type : jsstring) (opts : ExchangeOptions)
| AssertQueue (ch : Channel) (queue : jsstring) (opts : QueueOptions)
| BindQueue (ch : Channel) (queue source pattern : jsstring)
| Consume (ch : Channel) (queue : jsstring) (opts : ConsumeOptions)
| Publish (ch : Channel) (exchange_name routingKey : jsstring) (content : list Z).

Inductive Outcome (A : Type) : Type :=
| Return (a : A)
| Throw (e : Error).
Arguments Return {A} a.
Arguments Throw {A} e.

(** The broker client (amqplib) and the broker behind it: what each call
    answers, given the calls made before it.  [Throw] is a rejected promise
    where the call returns one, a synchronous exception otherwise. *)
Record Amqp := {
  connect : list BrokerOp -> option jsstring -> Outcome Connection;
  createChannel_reply : list BrokerOp -> Connection -> Outcome Channel;
  assertExchange : list BrokerOp -> Channel -> jsstring -> jsstring -> ExchangeOptions -> Outcome unit;
  assertQueue : list BrokerOp -> Channel -> jsstring -> QueueOptions -> Outcome jsstring;
  bindQueue : list BrokerOp -> Channel -> jsstring -> jsstring -> jsstring -> Outcome unit;
  publish : list BrokerOp -> Channel -> jsstring -> jsstring -> list Z -> Outcome bool
}.

Inductive Stream := Stdout | Stderr.
Inductive ConsoleArg := Text (s : jsstring) | Err (e : Error).
Record ConsoleLine := { stream : Stream; args : list ConsoleArg }.

(** An HTTP response: status code and JSON body. *)
Record Response := { status : Z; body : JSValue }.

(** An [fs.appendFile] call whose completion callback has not run yet. *)
Record AppendRequest := { req_path : jsstring; req_data : jsstring }.

Record World := mkWorld {
  channel : option Channel;              (* let channel; *)
  history : list BrokerOp;               (* broker calls so far, oldest first *)
  console_out : list ConsoleLine;        (* oldest first *)
  files : list (jsstring * list Z);      (* path, content *)
  fs_pending : list AppendRequest;       (* oldest first *)
  responses : list Response              (* sent by the request handlers *)
}.

Definition M (A : Type) : Type := World -> Outcome A * World.

Definition ret {A} (a : A) : M A := fun w => (Return a, w).
Definition throw {A} (e : Error) : M A := fun w => (Throw e, w).
Definition bind {A B} (c : M A) (k : A -> M B) : M B :=
  fun w => match c w with
           | (Return a, w') => k a w'
           | (Throw e, w') => (Throw e, w')
           end.
Definition try_catch {A} (c : M A) (handler : Error -> M A) : M A :=
  fun w => match c w with
           | (Return a, w') => (Return a, w')
           | (Throw e, w') => handler e w'
           end.

Declare Scope js_scope.
Delimit Scope js_scope with js.
Notation "x <- c ;; k" := (bind c (fun x => k))
  (at level 61, c at next level, right associativity) : js_scope.
Notation "c ;; k" := (bind c (fun _ => k))
  (at level 61, right associativity) : js_scope.
Open Scope js_scope.

Module console.
Definition write (st : Stream) (a : list ConsoleArg) : M unit :=
  fun w => (Return tt,
            mkWorld (channel w) (history w)
                    (console_out w ++ [{| stream := st; args := a |}])
                    (files w) (fs_pending w) (responses w)).
Definition error (a : list ConsoleArg) : M unit := write Stderr a.
Definition log (a : list ConsoleArg) : M unit := write Stdout a.
End console.

Definition set_channel (ch : Channel) : M unit :=
  fun w => (Return tt,
            mkWorld (Some ch) (history w) (console_out w) (files w)
                    (fs_pending w) (responses w)).

(** Evaluating [channel.member]: a TypeError while [channel] is
    [undefined]. *)
Definition channel_member (member : string) : M Channel :=
  fun w => match channel w with
           | Some ch => (Return ch, w)
           | None => (Throw (cannot_read "undefined" member), w)
           end.

(** A call on the broker client: it is recorded, and answers what the
    client answers after the calls before it. *)
Definition broker_call {A} (op : BrokerOp) (reply : list BrokerOp -> Outcome A) : M A :=
  fun w => (reply (history w),
            mkWorld (channel w) (history w ++ [op]) (console_out w) (files w)
                    (fs_pending w) (responses w)).

(** A call whose promise the caller drops: recorded, its answer unseen. *)
Definition broker_call_dropped (op : BrokerOp) : M unit :=
  fun w => (Return tt,
            mkWorld (channel w) (history w ++ [op]) (console_out w) (files w)
                    (fs_pending w) (responses w)).

Definition send_response (r : Response) : M unit :=
  fun w => (Return tt,
            mkWorld (channel w) (history w) (console_out w) (files w)
                    (fs_pending w) (responses w ++ [r])).

Module fs.

Fixpoint read (fsys : list (jsstring * list Z)) (path : jsstring) : option (list Z) :=
  match fsys with
  | [] => None
  | (p, c) :: r => if jsstring_eqb p path then Some c else read r path
  end.

(** Appending creates the file when it does not exist. *)
Fixpoint append (fsys : list (jsstring * list Z)) (path : jsstring) (bytes : list Z)
  : list (jsstring * list Z) :=
  match fsys with
  | [] => [(path, bytes)]
  | (p, c) :: r => if jsstring_eqb p path then (p, c ++ bytes) :: r
                   else (p, c) :: append r path bytes
  end.

(** [fs.appendFile(path, data, callback)] returns at once; the write and
    the callback happen later (see [fs_complete]). *)
Definition appendFile (path data : jsstring) : M unit :=
  fun w => (Return tt,
            mkWorld (channel w) (history w) (console_out w) (files w)
                    (fs_pending w ++ [{| req_path := path; req_data := data |}])
                    (responses w)).

End fs.

(* ===================================================================== *)
(** ** The program *)
(* ===================================================================== *)

Section Program.

Variable amqp : Amqp.
(** [process.env.RABBITMQ_URL]; [None] when the variable is not set. *)
Variable RABBITMQ_URL : option jsstring.
(** The message of the SyntaxError [JSON.parse] throws for a text it
    rejects.  Its wording depends on the engine and on its version
    ("Unexpected token o in JSON at position 1", "Unexpected end of JSON
    input", ...), so it is a parameter of the program. *)
Variable syntax_error_message : jsstring -> jsstring.

Definition exchange : jsstring := str "events".

(** index.js, lines 28-36. *)
Definition createChannel : M unit :=
  try_catch
    (connection <- broker_call (Connect RABBITMQ_URL)
                     (fun h => connect amqp h RABBITMQ_URL) ;;
     ch <- broker_call (CreateChannel connection)
             (fun h => createChannel_reply amqp h connection) ;;
     set_channel ch)
    (fun error =>
       console.error [Text (str "Error connecting to RabbitMQ: "); Err error]).

(** [Buffer.from(eventString)]: a TypeError when the argument is
    [undefined]. *)
Definition Buffer_from (s : option jsstring) : M (list Z) :=
  match s with
  | Some t => ret (Buffer.from t)
  | None => throw (TypeError (str "The first argument must be of type string or an instance of Buffer, ArrayBuffer, or Array or an Array-like Object. Received undefined"))
  end.

(** index.js, lines 39-48.  Neither call is awaited. *)
Definition publishEvent (event : JSValue) : M unit :=
  ch <- channel_member "assertExchange" ;;
  broker_call_dropped (AssertExchange ch exchange (str "fanout") {| durable := false |}) ;;
  let eventString := JSON.stringify event in
  ch' <- channel_member "publish" ;;
  content <- Buffer_from eventString ;;
  _ <- broker_call (Publish ch' exchange (str "") content)
         (fun h => publish amqp h ch' exchange (str "") content) ;;
  ret tt.

(** Reading a property of a request body. *)
Fixpoint get_prop (o : Object) (k : jsstring) : JSValue :=
  match o with
  | [] => JUndefined
  | (k', v) :: r => if jsstring_eqb k' k then v else get_prop r k
  end.

Definition body_prop (b : JSValue) (k : string) : JSValue :=
  match b with
  | JObject o => get_prop o (str k)
  | _ => JUndefined
  end.

(** What [db.query] hands to its callback: an error, or the result of the
    insert with its [insertId]. *)
Inductive QueryReply :=
| QueryError (err : Error)
| QueryResult (insertId : JSValue).

(** index.js, lines 68-85: the callback of the insert. *)
Definition register_inserted (username email : JSValue) (reply : QueryReply) : M unit :=
  match reply with
  | QueryError err =>
      console.error [Text (str "Error registering user: " ++ stack err)] ;;
      send_response {| status := 500;
                       body := JObject [(str "error", JString (str "Internal Server Error"))] |}
  | QueryResult insertId =>
      let event := JObject [(str "eventType", JString (str "userRegistered"));
                            (str "userId", insertId);
                            (str "username", username);
                            (str "email", email)] in
      publishEvent event ;;
      send_response {| status := 200;
                       body := JObject [(str "message", JString (str "User registered successfully"))] |}
  end.

(** index.js, lines 59-86: the handler of POST /register, given what
    [bcrypt.hash] and the database answer. *)
Definition register (req_body : JSValue) (hashed : Outcome jsstring) (reply : QueryReply) : M unit :=
  let username := body_prop req_body "username" in
  let email := body_prop req_body "email" in
  match hashed with
  | Throw e => throw e
  | Return hashedPassword => register_inserted username email reply
  end.

(** [new Date().toISOString()] at clock reading [now], then the template
    literal of lines 230-232; [JSON.stringify] yielding [undefined] prints
    as the word. *)
Definition logEntry (now : Z) (event : JSValue) : jsstring :=
  Date.toISOString now ++ str " - Event: "
  ++ match JSON.stringify event with
     | Some t => t
     | None => str "undefined"
     end
  ++ [10].

(** index.js, lines 227-241, up to the return of [fs.appendFile]. *)
Definition logEventToFile (now : Z) (event : JSValue) : M unit :=
  let logFilePath := str "events.log" in
  fs.appendFile logFilePath (logEntry now event).

(** index.js, lines 234-240: the callback of [fs.appendFile]. *)
Definition appendFile_callback (err : option Error) : M unit :=
  match err with
  | Some e => console.error [Text (str "Error writing to log file: " ++ message e)]
  | None => console.log [Text (str "Event logged successfully")]
  end.

(** What [msg.content] can be: a Buffer, or one of the falsy values. *)
Inductive Content :=
| ContentBuffer (bytes : list Z)
| ContentUndefined
| ContentNull
| ContentFalse
| ContentZero
| ContentNaN
| ContentEmptyString.

Definition ToBoolean (c : Content) : bool :=
  match c with
  | ContentBuffer _ => true
  | _ => false
  end.

Record Message := { content : Content }.

(** [msg.content.toString()], which the callback reaches only with a
    Buffer. *)
Definition content_toString (c : Content) : jsstring :=
  match c with
  | ContentBuffer bytes => Buffer.toString bytes
  | _ => []
  end.

(** [JSON.parse(text)], throwing its SyntaxError. *)
Definition JSON_parse (text : jsstring) : M JSValue :=
  match JSON.parse text with
  | Some v => ret v
  | None => throw (SyntaxError (syntax_error_message text))
  end.

(** index.js, lines 215-221: the callback given to [channel.consume].
    [msg] is [None] for the [null] the client passes when the broker cancels
    the consumer; [now] is the clock reading. *)
Definition on_message (now : Z) (msg : option Message) : M unit :=
  match msg with
  | None => throw (cannot_read "null" "content")
  | Some m =>
      if ToBoolean (content m) then
        event <- JSON_parse (content_toString (content m)) ;;
        logEventToFile now event
      else ret tt
  end.

(** index.js, lines 199-224. *)
Definition subscribeToEvents : M unit :=
  createChannel ;;
  ch <- channel_member "assertExchange" ;;
  broker_call (AssertExchange ch exchange (str "fanout") {| durable := false |})
    (fun h => assertExchange amqp h ch exchange (str "fanout") {| durable := false |}) ;;
  ch <- channel_member "assertQueue" ;;
  queue <- broker_call (AssertQueue ch (str "") {| exclusive := true |})
             (fun h => assertQueue amqp h ch (str "") {| exclusive := true |}) ;;
  ch <- channel_member "bindQueue" ;;
  broker_call (BindQueue ch queue exchange (str ""))
    (fun h => bindQueue amqp h ch queue exchange (str "")) ;;
  console.log [Text (str "Waiting for events. To exit, press CTRL+C")] ;;
  ch <- channel_member "consume" ;;
  broker_call_dropped (Consume ch queue {| noAck := true |}).

(** index.js, lines 244-246. *)
Definition start_subscriber : M unit :=
  try_catch subscribeToEvents
    (fun error =>
       console.error [Text (str "Error setting up event subscriber: "); Err error]).

(** *** The event loop after startup *)

Fixpoint remove_nth {A} (i : nat) (l : list A) : list A :=
  match l, i with
  | [], _ => []
  | _ :: r, O => r
  | x :: r, S j => x :: remove_nth j r
  end.

(** How a pending [fs.appendFile] ends.  [Written]: the data, UTF-8
    encoded, is at the end of the file and the callback gets no error.
    [Failed e progress]: the callback gets the error [e]; with [progress =
    None] the file could not be opened and the file system is as it was;
    with [progress = Some n] the file was opened (and created if it did not
    exist) and the first [n] bytes of the data were written before the
    failure - none, some, or all of them when it is the close that fails. *)
Inductive Completion :=
| Written
| Failed (e : Error) (progress : option nat).

(** What the callback of a completed append is given. *)
Definition callback_error (c : Completion) : option Error :=
  match c with
  | Written => None
  | Failed e _ => Some e
  end.

(** The bytes of [data] that reached the file, when it was opened. *)
Definition bytes_written (c : Completion) (data : list Z) : option (list Z) :=
  match c with
  | Written => Some data
  | Failed _ (Some n) => Some (firstn n data)
  | Failed _ None => None
  end.

(** Completion of the [i]-th pending [fs.appendFile]: the file system
    changes as [c] says, then the callback runs.  Requests may complete in
    any order. *)
Definition fs_complete (i : nat) (c : Completion) : M unit :=
  fun w =>
    match nth_error (fs_pending w) i with
    | None => (Return tt, w)
    | Some req =>
        appendFile_callback (callback_error c)
          (mkWorld (channel w) (history w) (console_out w)
                   (match bytes_written c (Buffer.from (req_data req)) with
                    | Some bytes => fs.append (files w) (req_path req) bytes
                    | None => files w
                    end)
                   (remove_nth i (fs_pending w)) (responses w))
    end.

Inductive Step :=
| Deliver (now : Z) (msg : option Message)
| FsComplete (i : nat) (c : Completion).

Definition step (s : Step) : M unit :=
  match s with
  | Deliver now msg => on_message now msg
  | FsComplete i c => fs_complete i c
  end.

(** A run of the event loop; an exception no callback catches ends it. *)
Fixpoint run (steps : list Step) : M unit :=
  match steps with
  | [] => ret tt
  | s :: rest => step s ;; run rest
  end.

End Program.

(* ===================================================================== *)
(** ** The program: authentication *)
(* ===================================================================== *)

(** bcrypt and jsonwebtoken: what the promise of [bcrypt.compare(data,
    hash)] settles to, and what [jwt.sign(payload, secret, options)] returns
    or throws. *)
Record Auth := {
  bcrypt_compare : JSValue -> JSValue -> Outcome bool;
  jwt_sign : JSValue -> jsstring -> JSValue -> Outcome jsstring
}.

(** What [db.query] hands to the callback of the select: an error, or the
    rows found. *)
Inductive SelectReply :=
| SelectError (err : Error)
| SelectRows (results : list Object).

(** The result of a call into a library, or of awaiting its promise. *)
Definition external {A} (o : Outcome A) : M A := fun w => (o, w).

Definition invalid_credentials : Response :=
  {| status := 401;
     body := JObject [(str "error", JString (str "Invalid credentials"))] |}.

Definition internal_server_error : Response :=
  {| status := 500;
     body := JObject [(str "error", JString (str "Internal Server Error"))] |}.

Section Login.

Variable auth : Auth.

(** The payload, the secret and the options of line 109-113. *)
Definition token_payload (user : Object) : JSValue :=
  JObject [(str "userId", get_prop user (str "id"));
           (str "username", get_prop user (str "username"))].

Definition token_secret : jsstring := str "your-secret-key".

Definition token_options : JSValue := JObject [(str "expiresIn", JString (str "1h"))].

(** index.js, lines 94-121: the callback of the select. *)
Definition login_selected (password : JSValue) (reply : SelectReply) : M unit :=
  match reply with
  | SelectError err =>
      console.error [Text (str "Error querying user: " ++ stack err)] ;;
      send_response internal_server_error
  | SelectRows results =>
      match results with
      | [] => send_response invalid_credentials
      | user :: _ =>
          isPasswordValid <-
            external (bcrypt_compare auth password (get_prop user (str "password"))) ;;
          if isPasswordValid then
            token <- external (jwt_sign auth (token_payload user) token_secret
                                 token_options) ;;
            send_response {| status := 200;
                             body := JObject [(str "token", JString token)] |}
          else send_response invalid_credentials
      end
  end.

(** index.js, lines 89-122: the handler of POST /login, given what the
    database answers. *)
Definition login (req_body : JSValue) (reply : SelectReply) : M unit :=
  let email := body_prop req_body "email" in
  let password := body_prop req_body "password" in
  login_selected password reply.

End Login.

Definition init : World := mkWorld None [] [] [] [] [].

(** The event of the end-to-end scenario of the specification. *)
Definition ev_demo_props : Object :=
  [(str "eventType", JString (str "userRegistered"));
   (str "userId", JNumber (Int 7));
   (str "username", JString (str "ana"));
   (str "email", JString (str "a@x.io"))].

Definition ev_demo : JSValue := JObject ev_demo_props.

Definition refused : Error :=
  mkError (str "Error") (str "connect ECONNREFUSED 127.0.0.1:5672")
          (str "Error: connect ECONNREFUSED 127.0.0.1:5672").

Definition broker_down : Amqp :=
  {| connect := fun _ _ => Throw refused;
     createChannel_reply := fun _ c => Return c;
     assertExchange := fun _ _ _ _ _ => Return tt;
     assertQueue := fun h _ _ _ => Return (str "amq.gen-" ++ digits (Z.of_nat (List.length h)));
     bindQueue := fun _ _ _ _ _ => Return tt;
     publish := fun _ _ _ _ _ => Return true |}.

Definition broker_up : Amqp :=
  {| connect := fun h _ => Return (List.length h);
     createChannel_reply := fun h _ => Return (List.length h);
     assertExchange := fun _ _ _ _ _ => Return tt;
     assertQueue := fun h _ _ _ => Return (str "amq.gen-" ++ digits (Z.of_nat (List.length h)));
     bindQueue := fun _ _ _ _ _ => Return tt;
     publish := fun _ _ _ _ _ => Return true |}.

(* ===================================================================== *)
(** ** Vocabulary of the statements *)
(* ===================================================================== *)

Definition connecting_error (e : Error) : ConsoleLine :=
  {| stream := Stderr;
     args := [Text (str "Error connecting to RabbitMQ: "); Err e] |}.

Definition setup_error (e : Error) : ConsoleLine :=
  {| stream := Stderr;
     args := [Text (str "Error setting up event subscriber: "); Err e] |}.

(** C5 as the specification words it: with a channel in place,
    [createChannel] keeps it and makes no call on the broker client. *)
Definition reuses_channel (amqp : Amqp) (url : option jsstring) (w : World) : Prop :=
  forall ch, channel w = Some ch ->
    channel (snd (createChannel amqp url w)) = Some ch
    /\ history (snd (createChannel amqp url w)) = history w.

(** The declaration of the exchange, and the calls of a subscriber startup
    on connection [c], channel [ch] and queue [q]. *)
Definition declare_exchange (ch : Channel) : BrokerOp :=
  AssertExchange ch (str "events") (str "fanout") {| durable := false |}.

Definition startup_calls (url : option jsstring) (c : Connection) (ch : Channel)
  (q : jsstring) : list BrokerOp :=
  [Connect url; CreateChannel c; declare_exchange ch;
   AssertQueue ch (str "") {| exclusive := true |};
   BindQueue ch q (str "events") (str "");
   Consume ch q {| noAck := true |}].

(** The broker answers every call of a startup begun after the calls [h]. *)
Definition broker_accepts (amqp : Amqp) (url : option jsstring) (h : list BrokerOp)
  (c : Connection) (ch : Channel) (q : jsstring) : Prop :=
  connect amqp h url = Return c
  /\ createChannel_reply amqp (h ++ [Connect url]) c = Return ch
  /\ assertExchange amqp (h ++ [Connect url; CreateChannel c]) ch
       (str "events") (str "fanout") {| durable := false |} = Return tt
  /\ assertQueue amqp (h ++ [Connect url; CreateChannel c; declare_exchange ch]) ch
       (str "") {| exclusive := true |} = Return q
  /\ bindQueue amqp (h ++ [Connect url; CreateChannel c; declare_exchange ch;
                           AssertQueue ch (str "") {| exclusive := true |}]) ch
       q (str "events") (str "") = Return tt.

(** The exchange declarations among broker calls: name, type, options. *)
Fixpoint declared (h : list BrokerOp) : list (jsstring * jsstring * ExchangeOptions) :=
  match h with
  | [] => []
  | AssertExchange _ n t o :: r => (n, t, o) :: declared r
  | _ :: r => declared r
  end.

Definition log_path : jsstring := str "events.log".

(** The content of the event log; a missing file has none. *)
Definition log_content (w : World) : list Z :=
  match fs.read (files w) log_path with
  | Some c => c
  | None => []
  end.

(** C6 as the specification words it: an append either completes the write
    of its record, or the failure is reported to the caller of
    [logEventToFile], by that call or by the completion of its write
    throwing. *)
Definition append_written_or_reported (now : Z) (event : JSValue)
  (c : Completion) (w : World) : Prop :=
  let '(o1, w1) := logEventToFile now event w in
  let '(o2, w2) := fs_complete (List.length (fs_pending w)) c w1 in
  log_content w2 = log_content w ++ Buffer.from (logEntry now event)
  \/ (exists e, o1 = Throw e) \/ (exists e, o2 = Throw e).

(** A string or a buffer without a line feed. *)
Definition no_lf (s : list Z) : Prop := Forall (fun c => c <> 10) s.

(** One line ended by a line feed, the only one in it. *)
Definition single_line (r : list Z) : Prop :=
  exists line, r = line ++ [10] /\ no_lf line.

(** A delivery: the clock reading at which the callback runs, and the body
    of the message. *)
Definition Delivery : Type := Z * list Z.

(** The steps of deliveries [ds], each followed by the successful completion
    of the append it asked for. *)
Fixpoint deliveries (ds : list Delivery) : list Step :=
  match ds with
  | [] => []
  | (now, bytes) :: r =>
      Deliver now (Some {| content := ContentBuffer bytes |})
      :: FsComplete 0 Written :: deliveries r
  end.

(** ECMA-262, 21.4.1: the day number of the first day of a year, leap
    years, the days of a month, and the day number of a date. *)
Definition DayFromYear (y : Z) : Z :=
  365 * (y - 1970) + (y - 1969) / 4 - (y - 1901) / 100 + (y - 1601) / 400.

Definition InLeapYear (y : Z) : bool :=
  ((y mod 4 =? 0) && negb (y mod 100 =? 0)) || (y mod 400 =? 0).

Definition DaysInMonth (y m : Z) : Z :=
  if m =? 2 then (if InLeapYear y then 29 else 28)
  else if (m =? 4) || (m =? 6) || (m =? 9) || (m =? 11) then 30
  else 31.

(** Days of the year before month [m] (1..12). *)
Fixpoint days_before (y : Z) (months : nat) : Z :=
  match months with
  | O => 0
  | S k => days_before y k + DaysInMonth y (Z.of_nat (S k))
  end.

(** The day number of the day [d] of month [m] of year [y]. *)
Definition MakeDay (y m d : Z) : Z :=
  DayFromYear y + days_before y (Z.to_nat (m - 1)) + d - 1.

(** Reading [n] decimal digits, and one given character. *)
Fixpoint take_digits (n : nat) (acc : Z) (s : jsstring) : option (Z * jsstring) :=
  match n with
  | O => Some (acc, s)
  | S n' =>
      match s with
      | c :: r => if JSON.is_digit c then take_digits n' (10 * acc + (c - 48)) r else None
      | [] => None
      end
  end.

Definition expect (c : Z) (s : jsstring) : option jsstring :=
  match s with
  | d :: r => if d =? c then Some r else None
  | [] => None
  end.

Definition then_digits {A} (n : nat) (s : option jsstring)
  (k : Z -> jsstring -> option A) : option A :=
  match s with
  | Some s' => match take_digits n 0 s' with
               | Some (v, r) => k v r
               | None => None
               end
  | None => None
  end.

(** The time value of a timestamp in the complete form of the Date Time
    String Format, YYYY-MM-DDTHH:mm:ss.sssZ, the year with a sign and six
    digits in the expanded form; [None] for any other text. *)
Definition read_timestamp (s : jsstring) : option Z :=
  let '(sign, width, s0) :=
    match s with
    | c :: r => if c =? 43 then (1, 6%nat, r)
                else if c =? 45 then (-1, 6%nat, r)
                else (1, 4%nat, s)
    | [] => (1, 4%nat, s)
    end in
  then_digits width (Some s0) (fun year s1 =>
  then_digits 2 (expect 45 s1) (fun month s2 =>
  then_digits 2 (expect 45 s2) (fun day s3 =>
  then_digits 2 (expect 84 s3) (fun hour s4 =>
  then_digits 2 (expect 58 s4) (fun minute s5 =>
  then_digits 2 (expect 58 s5) (fun second s6 =>
  then_digits 3 (expect 46 s6) (fun ms s7 =>
    match expect 90 s7 with
    | Some [] =>
        let y := sign * year in
        if (1 <=? month) && (month <=? 12) && (1 <=? day) && (day <=? DaysInMonth y month)
           && (hour <=? 23) && (minute <=? 59) && (second <=? 59)
           && negb ((sign =? -1) && (year =? 0))
        then Some (MakeDay y month day * Date.msPerDay
                   + hour * 3600000 + minute * 60000 + second * 1000 + ms)
        else None
    | _ => None
    end))))))).

(** The time values of a Date. *)
Definition time_value (t : Z) : Prop := - 8640000000000000 <= t <= 8640000000000000.

(** [P] on the [fuel] integers from [z] on. *)
Fixpoint all_from (fuel : nat) (z : Z) (P : Z -> bool) : bool :=
  match fuel with
  | O => true
  | S f => P z && all_from f (z + 1) P
  end.

(** On day [doe] of the era that begins on 0000-03-01, the date
    [Date.civil_from_days] gives is a date of the calendar and its day
    number is that day. *)
Definition civil_agrees (doe : Z) : bool :=
  let '(y, m, d) := Date.civil_from_days (doe - 719468) in
  (0 <=? y) && (y <=? 400) && (1 <=? m) && (m <=? 12) && (1 <=? d)
  && (d <=? DaysInMonth y m)
  && (MakeDay y m d =? doe - 719468).

(** The bytes the log gains for an event decoded at [now]. *)
Definition record (now : Z) (event : JSValue) : list Z :=
  Buffer.from (logEntry now event).

Fixpoint records (ds : list Delivery) (events : list JSValue) : list (list Z) :=
  match ds, events with
  | (now, _) :: r, ev :: evs => record now ev :: records r evs
  | _, _ => []
  end.

(** A pending append of a log record. *)
Definition log_request (req : AppendRequest) : Prop :=
  req_path req = log_path /\ exists now event, req_data req = logEntry now event.

(** Whether step [s], taken in world [w], is the completion without error
    of a pending append; and the errors of the step, if it is the failure
    of one. *)
Definition completes (s : Step) (w : World) : nat :=
  match s with
  | FsComplete i Written => match nth_error (fs_pending w) i with
                            | Some _ => 1
                            | None => 0
                            end
  | _ => 0
  end.

Definition fails (s : Step) (w : World) : list Error :=
  match s with
  | FsComplete i (Failed e _) => match nth_error (fs_pending w) i with
                                 | Some _ => [e]
                                 | None => []
                                 end
  | _ => []
  end.

Section Runs.

Variable syntax_error_message : jsstring -> jsstring.

(** How many steps of a run complete an append without error, and the
    errors of those that fail one, in order. *)
Fixpoint completions (steps : list Step) (w : World) : nat :=
  match steps with
  | [] => 0
  | s :: rest =>
      match step syntax_error_message s w with
      | (Return _, w1) => completes s w + completions rest w1
      | (Throw _, _) => completes s w
      end
  end.

Fixpoint failures (steps : list Step) (w : World) : list Error :=
  match steps with
  | [] => []
  | s :: rest =>
      match step syntax_error_message s w with
      | (Return _, w1) => fails s w ++ failures rest w1
      | (Throw _, _) => fails s w
      end
  end.

End Runs.

(** What a completion adds to the log for a record [r]: the whole record,
    or the first [n] bytes of it when the write failed. *)
Definition piece (p : list Z * option nat) : list Z :=
  match p with
  | (r, None) => r
  | (r, Some n) => firstn n r
  end.

Definition whole (p : list Z * option nat) : bool :=
  match snd p with
  | None => true
  | Some _ => false
  end.

(** The bytes the publisher sends for the registration event of user 7. *)
Definition demo_bytes : list Z :=
  match JSON.stringify ev_demo with
  | Some t => Buffer.from t
  | None => []
  end.

(** What the publisher puts on the wire for an event (lines 44-47), and
    what the consume callback makes of a body (line 217). *)
Definition encode (event : JSValue) : option (list Z) :=
  match JSON.stringify event with
  | Some t => Some (Buffer.from t)
  | None => None
  end.

Definition decode (bytes : list Z) : option JSValue :=
  JSON.parse (Buffer.toString bytes).

(** Well-formed UTF-16: every surrogate is half of a pair. *)
Fixpoint well_formed (s : jsstring) : Prop :=
  match s with
  | [] => True
  | c :: rest =>
      if is_leading_surrogate c then
        match rest with
        | d :: rest' => is_trailing_surrogate d = true /\ well_formed rest'
        | [] => False
        end
      else is_trailing_surrogate c = false /\ code_unit c /\ well_formed rest
  end.

(** The own keys of an object come each once and in enumeration order:
    no later key equals an earlier one or is enumerated before it. *)
Fixpoint own_keys_ordered (o : Object) : bool :=
  match o with
  | [] => true
  | (k, _) :: r =>
      forallb (fun kv => negb (jsstring_eqb (fst kv) k)
                         && negb (JSON.key_before (fst kv) k)) r
      && own_keys_ordered r
  end.

(** *** binary64 without fractions *)

(** 2^k <= num/den, and num/den = m * 2^e, without fractions. *)
Definition above_pow2 (k num den : Z) : Prop :=
  den * 2 ^ Z.max k 0 <= num * 2 ^ Z.max (- k) 0.

Definition exact_ratio (m e num den : Z) : Prop :=
  num * 2 ^ Z.max (- e) 0 = m * den * 2 ^ Z.max e 0.

(** The significand and the exponent of a value of the format, and of one
    that is no integer of the safe range. *)
Definition normalized (m e : Z) : Prop :=
  (2 ^ 52 <= m < 2 ^ 53 /\ -1074 <= e <= 971) \/ (0 < m < 2 ^ 52 /\ e = -1074).

Definition canonical (m e : Z) : Prop :=
  normalized m e /\ (0 < e \/ (e < 0 /\ m mod 2 ^ (- e) <> 0)).

(** The Numbers of the model that are binary64 values: the integers of the
    safe range as [Int], any other finite value as [Bin m e] with a
    significand of 53 bits and an exponent from -1074 to 971, or of fewer
    bits at the exponent -1074, and a value that is no such integer. *)
Definition binary64 (x : Number) : bool :=
  match x with
  | NaN | Infinity | NegInfinity => true
  | Int z => safe_integerb z
  | Bin m e =>
      (((2 ^ 52 <=? Z.abs m) && (Z.abs m <? 2 ^ 53) && (-1074 <=? e) && (e <=? 971))
       || ((0 <? Z.abs m) && (Z.abs m <? 2 ^ 52) && (e =? -1074)))
      && ((0 <? e) || ((e <? 0) && negb (Z.abs m mod 2 ^ (- e) =? 0)))
  end.

(** A field of an event as the specification has it, a string or a number;
    what such a field is received as, [null] for a number that is not
    finite; and a field that is a string or an integer of the safe range. *)
Definition event_field (v : JSValue) : Prop :=
  match v with
  | JString s => Forall code_unit s
  | JNumber x => binary64 x = true
  | _ => False
  end.

Definition received (v : JSValue) : JSValue :=
  match v with
  | JNumber x => if Number_isFinite x then v else JNull
  | _ => v
  end.

Definition received_record (E : Object) : Object :=
  map (fun kv => (fst kv, received (snd kv))) E.

Definition finite_fields (E : Object) : bool :=
  forallb (fun kv => match snd kv with
                     | JNumber x => Number_isFinite x
                     | _ => true
                     end) E.

Definition finite_field (v : JSValue) : Prop :=
  match v with
  | JString s => Forall code_unit s
  | JNumber (Int z) => safe_integer z
  | _ => False
  end.

(** A flat record: an object whose fields all satisfy [field]. *)
Definition flat_record (field : JSValue -> Prop) (E : Object) : Prop :=
  own_keys_ordered E = true
  /\ Forall (fun kv => Forall code_unit (fst kv) /\ field (snd kv)) E.

(** A code unit that is no surrogate. *)
Definition non_surrogate (c : Z) : Prop := 0 <= c < 55296 \/ 57344 <= c < 65536.

(** What follows a field in the encoding of a record: a comma or the
    closing brace. *)
Definition after_field (tail : jsstring) : Prop :=
  exists t0 r, tail = t0 :: r /\ (t0 = 44 \/ t0 = 125).

(** Where the digits of a numeral end: at the end of the text or before a
    character that is no digit. *)
Definition stops (rest : jsstring) : Prop :=
  match rest with
  | [] => True
  | t0 :: _ => JSON.is_digit t0 = false
  end.

Definition with_sign (neg : bool) (z : Z) : Z := if neg then - z else z.

(** The parts of a JSON numeral [text] followed by [tail] - integer part,
    fraction, exponent - denote the decimal s * 10^E, with either sign. *)
Definition reads_parts (text : jsstring) (s E : Z) (tail : jsstring) : Prop :=
  exists ids s2 fds s3 ex,
    JSON.parse_int_part (text ++ tail) = Some (ids, s2)
    /\ JSON.parse_fraction s2 = Some (fds, s3)
    /\ JSON.parse_exponent s3 = Some (ex, tail)
    /\ (exists c0 r, text ++ tail = c0 :: r /\ 48 <= c0 <= 57)
    /\ forall neg,
         Number_of_decimal (with_sign neg (JSON.digits_value (ids ++ fds)))
                           (ex - Z.of_nat (List.length fds))
         = Number_of_decimal (with_sign neg s) E.

Definition ascii_unit (c : Z) : Prop := 0 <= c < 128.

(** The text of a field, of a member and of a whole record. *)
Definition field_text (v : JSValue) : jsstring :=
  match JSON.SerializeJSONProperty v with
  | Some t => t
  | None => []
  end.

Definition member_text (kv : jsstring * JSValue) : jsstring :=
  JSON.QuoteJSONString (fst kv) ++ str ":" ++ field_text (snd kv).

Definition record_text (E : Object) : jsstring :=
  str "{" ++ join (str ",") (map member_text E) ++ str "}".

(** C2 as the specification words it: decoding the encoded event gives the
    event back. *)
Definition round_trips (E : Object) : Prop :=
  exists bytes, encode (JObject E) = Some bytes /\ decode bytes = Some (JObject E).

(** JSON text written with apostrophes where it has quotes. *)
Definition json_text (s : string) : jsstring :=
  map (fun c => if c =? 39 then 34 else c) (str s).

Definition write_error_line (e : Error) : ConsoleLine :=
  {| stream := Stderr;
     args := [Text (str "Error writing to log file: " ++ message e)] |}.

Definition logged_line : ConsoleLine :=
  {| stream := Stdout; args := [Text (str "Event logged successfully")] |}.

Definition disk_full : Error :=
  mkError (str "Error") (str "ENOSPC: no space left on device, write")
          (str "Error: ENOSPC: no space left on device, write").

(** A wording of the SyntaxError, for examples. *)
Definition wording_demo (text : jsstring) : jsstring :=
  str "Unexpected token in JSON: " ++ text.

(** An Event of the specification: a record with a string [eventType]. *)
Definition is_event (v : JSValue) : bool :=
  match v with
  | JObject props => match get_prop props (str "eventType") with
                     | JString _ => true
                     | _ => false
                     end
  | _ => false
  end.

(** C9 as the specification words it: a delivery whose body is not the
    encoding of an Event makes the callback throw, however the engine words
    its errors. *)
Definition rejects_what_is_no_event : Prop :=
  forall syntax_error_message now bytes w,
    match decode bytes with
    | Some v => is_event v = false
    | None => True
    end ->
    exists e,
      fst (on_message syntax_error_message now
             (Some {| content := ContentBuffer bytes |}) w) = Throw e.

(* ===================================================================== *)
(** ** Vocabulary of the further statements *)
(* ===================================================================== *)

(** The event the /register handler builds (lines 74-79). *)
Definition registration_event (insertId username email : JSValue) : Object :=
  [(str "eventType", JString (str "userRegistered"));
   (str "userId", insertId);
   (str "username", username);
   (str "email", email)].

(** A request body whose [username] is the numeral 1e400, as bytes on the
    wire and as [express.json()] hands it to the handler. *)
Definition register_overflow_text : jsstring :=
  json_text "{'username':1e400,'email':'a@x.io','password':'p'}".

Definition register_overflow : JSValue :=
  match JSON.parse register_overflow_text with
  | Some v => v
  | None => JUndefined
  end.

(** An event with numbers of every kind: a safe integer, a fraction, an
    integer beyond the safe range, a number written with an exponent, a
    negative one, and one that is not finite. *)
Definition ev_numbers : Object :=
  [(str "eventType", JString (str "scored"));
   (str "userId", JNumber (Int 7));
   (str "score", JNumber (Number_of_decimal 25 (-1)));
   (str "total", JNumber (Number_of_decimal 9007199254740992 0));
   (str "rate", JNumber (Number_of_decimal (-1) (-7)));
   (str "limit", JNumber Infinity)].

Definition registered_response : Response :=
  {| status := 200;
     body := JObject [(str "message", JString (str "User registered successfully"))] |}.

Definition waiting_line : ConsoleLine :=
  {| stream := Stdout;
     args := [Text (str "Waiting for events. To exit, press CTRL+C")] |}.

Definition is_consume (op : BrokerOp) : bool :=
  match op with
  | Consume _ _ _ => true
  | _ => false
  end.

(** The append [logEventToFile] asks for. *)
Definition log_request_for (now : Z) (event : JSValue) : AppendRequest :=
  {| req_path := str "events.log"; req_data := logEntry now event |}.

Definition is_defined (v : JSValue) : bool :=
  match v with
  | JUndefined => false
  | _ => true
  end.

(** A field that is missing ([undefined]) or a string or a safe integer. *)
Definition optional_field (v : JSValue) : Prop :=
  v = JUndefined \/ finite_field v.

Definition token_response (token : jsstring) : Response :=
  {| status := 200; body := JObject [(str "token", JString token)] |}.

Definition is_stdout (l : ConsoleLine) : bool :=
  match stream l with
  | Stdout => true
  | Stderr => false
  end.

(** The properties of an object that [JSON.stringify] writes. *)
Definition defined_props (E : Object) : Object :=
  filter (fun kv => is_defined (snd kv)) E.

(** What one step of the loop prints. *)
Definition step_lines (s : Step) (w : World) : list ConsoleLine :=
  match s with
  | Deliver _ _ => []
  | FsComplete i c =>
      match nth_error (fs_pending w) i, c with
      | Some _, Written => [logged_line]
      | Some _, Failed e _ => [write_error_line e]
      | None, _ => []
      end
  end.

Definition code_unitb (c : Z) : bool := (0 <=? c) && (c <? 65536).

(** The values [JSON.parse] gives back as they were: null, booleans, safe
    integers, strings, and arrays and objects of such values, the objects
    with their keys in enumeration order. *)
Fixpoint representable (v : JSValue) : bool :=
  match v with
  | JUndefined => false
  | JNull => true
  | JBool _ => true
  | JNumber (Int z) => safe_integerb z
  | JNumber _ => false
  | JString s => forallb code_unitb s
  | JArray elems => forallb representable elems
  | JObject props =>
      own_keys_ordered props
      && (fix all (ps : list (jsstring * JSValue)) : bool :=
            match ps with
            | [] => true
            | (k, x) :: r => forallb code_unitb k && representable x && all r
            end) props
  end.

(** What may follow a value in a JSON text: nothing, a comma, or a closing
    bracket or brace. *)
Definition value_end (tail : jsstring) : Prop :=
  match tail with
  | [] => True
  | t0 :: _ => t0 = 44 \/ t0 = 93 \/ t0 = 125
  end.

Definition array_text (elems : list JSValue) : jsstring :=
  str "[" ++ join (str ",") (map field_text elems) ++ str "]".

Definition value_start (c : Z) : Prop :=
  JSON.is_ws c = false /\ c <> 93 /\ c <> 125.

(** What the round trip of a value says, for the induction: the parser
    reads the text of [v] back, whatever ends the value. *)
Definition reads_back (v : JSValue) : Prop :=
  forall tail fuel,
    value_end tail ->
    (2 * List.length (field_text v) < fuel)%nat ->
    JSON.parse_value fuel (field_text v ++ tail) = JSON.Parsed v tail.

(** A stand-in for bcrypt and jsonwebtoken, for examples: the hash of a
    password is the password after "hashed:", and every token is the same. *)
Definition auth_demo : Auth :=
  {| bcrypt_compare := fun data hash =>
       match data, hash with
       | JString d, JString h => Return (jsstring_eqb (str "hashed:" ++ d) h)
       | _, _ => Throw (mkError (str "Error") (str "data and hash arguments required")
                                (str "Error: data and hash arguments required"))
       end;
     jwt_sign := fun _ _ _ => Return (str "header.payload.signature") |}.

(** A row of the table [user], and request bodies: a login with a wrong
    password, a registration without [email]. *)
Definition user_ana : Object :=
  [(str "id", JNumber (Int 7));
   (str "username", JString (str "ana"));
   (str "email", JString (str "a@x.io"));
   (str "password", JString (str "hashed:secret"))].

Definition login_guess : JSValue :=
  JObject [(str "email", JString (str "a@x.io")); (str "password", JString (str "guess"))].

Definition register_no_email : JSValue :=
  JObject [(str "username", JString (str "ana")); (str "password", JString (str "secret"))].

(** An event with an array and an object inside. *)
Definition ev_nested : JSValue :=
  JObject [(str "eventType", JString (str "gameOver"));
           (str "scores", JArray [JNumber (Int 12); JNumber (Int (-3)); JNull]);
           (str "player", JObject [(str "id", JNumber (Int 7)); (str "guest", JBool false)])].

(* ===================================================================== *)
(** * Properties *)
(* ===================================================================== *)

(** ** The platform functions on examples *)

Example toISOString_epoch : Date.toISOString 0 = str "1970-01-01T00:00:00.000Z".
Proof. reflexivity. Qed.

Example toISOString_2023 :
  Date.toISOString 1700000000000 = str "2023-11-14T22:13:20.000Z".
Proof. reflexivity. Qed.

Example toISOString_leap_day :
  Date.toISOString 1709251199999 = str "2024-02-29T23:59:59.999Z".
Proof. reflexivity. Qed.

Example toISOString_before_epoch :
  Date.toISOString (-1) = str "1969-12-31T23:59:59.999Z".
Proof. reflexivity. Qed.

(** U+00E9, U+20AC, U+1F600 as a surrogate pair, then a lone surrogate. *)
Example from_example :
  Buffer.from [233; 8364; 55357; 56832; 55357]
  = [195; 169; 226; 130; 172; 240; 159; 152; 128; 239; 191; 189].
Proof. reflexivity. Qed.

(** An overlong form, a truncated sequence and an encoded surrogate each
    decode to U+FFFD, one for every maximal ill-formed part. *)
Example toString_ill_formed :
  Buffer.toString [224; 128; 65; 240; 159; 152; 237; 160; 128; 66]
  = [65533; 65533; 65; 65533; 65533; 65533; 65533; 66].
Proof. reflexivity. Qed.

Example stringify_example :
  JSON.stringify (JArray [JNumber (Int (-12)); JNumber NaN; JUndefined;
                          JString [34; 10; 233; 55357];
                          JObject [(str "a", JUndefined); (str "b", JBool true)]])
  = Some (json_text "[-12,null,null,'\'\n" ++ [233] ++ json_text "\ud83d',{'b':true}]").
Proof. reflexivity. Qed.

Example Number_of_decimal_examples :
  map (fun d => Number_of_decimal (fst d) (snd d))
      [(15, -1); (1, -1); (9007199254740993, 0); (5, -324); (2, -324); (1, 400);
       (-1, 400); (1000, -3); (17976931348623157, 292)]
  = [Bin 6755399441055744 (-52); Bin 7205759403792794 (-56); Bin 4503599627370496 1;
     Bin 1 (-1074); Int 0; Infinity; NegInfinity; Int 1; Bin 9007199254740991 971].
Proof. vm_compute. reflexivity. Qed.

(** Numbers read by [JSON.parse] and written again by [JSON.stringify]. *)
Example Number_toString_examples :
  map (fun text => match JSON.parse (str text) with
                   | Some v => JSON.stringify v
                   | None => None
                   end)
      ["0"; "-120"; "1.50"; "1e21"; "0.0000012345"; "0.0000001"; "-25e30"; "0.1";
       "0.30000000000000004"; "9007199254740993"; "123456789012345678901";
       "5e-324"; "1.7976931348623157e308"; "4.35"; "1e400"; "100e-2"]%string
  = map (fun text => Some (str text))
      ["0"; "-120"; "1.5"; "1e+21"; "0.0000012345"; "1e-7"; "-2.5e+31"; "0.1";
       "0.30000000000000004"; "9007199254740992"; "123456789012345680000";
       "5e-324"; "1.7976931348623157e+308"; "4.35"; "null"; "1"]%string.
Proof. vm_compute. reflexivity. Qed.

(** Rounding to the nearest value of the format, ties to even, at the
    edges of the format, and the shortest digits that read back. *)
Example Number_rounding_examples :
  map (fun text => match JSON.parse (str text) with
                   | Some v => JSON.stringify v
                   | None => None
                   end)
      ["9007199254740995"; "9223372036854775808"; "72057594037927945";
       "4503599627370496.5"; "4503599627370497.5"; "1234567890123456789012";
       "1e23"; "123456789.12345678"; "1.0000000000000002"; "4.9e-324";
       "2.4703282292062327e-324"; "2.4703282292062328e-324"; "1.5e-323";
       "2.2250738585072014e-308"; "1.7976931348623158e308";
       "1.7976931348623159e308"; "1e-400"; "-0.0"; "1E5"]%string
  = map (fun text => Some (str text))
      ["9007199254740996"; "9223372036854776000"; "72057594037927950";
       "4503599627370496"; "4503599627370498"; "1.2345678901234568e+21";
       "1e+23"; "123456789.12345678"; "1.0000000000000002"; "5e-324";
       "0"; "5e-324"; "1.5e-323";
       "2.2250738585072014e-308"; "1.7976931348623157e+308";
       "null"; "0"; "0"; "100000"]%string.
Proof. vm_compute. reflexivity. Qed.

Example parse_example :
  JSON.parse (json_text " { 'b' : [1, 2.5, -0, 1e400, true, null, {}], '1': 'xA\n', 'b': 3 } ")
  = Some (JObject [(str "1", JString [120; 65; 10]); (str "b", JNumber (Int 3))]).
Proof. vm_compute. reflexivity. Qed.

Example parse_rejects :
  map JSON.parse [str "01"; str "1e"; str "[1,]"; str ""; str "{oops"; str "-";
                  str "1."; str ".5"; str "+1"; str "[1 2]"; str "nul"; str "1 2"]
  = repeat None 12.
Proof. vm_compute. reflexivity. Qed.

(** The log line of the end-to-end scenario of the specification. *)
Example logEntry_example :
  logEntry 1700000000000 ev_demo
  = json_text "2023-11-14T22:13:20.000Z - Event: {'eventType':'userRegistered','userId':7,'username':'ana','email':'a@x.io'}"
    ++ [10].
Proof. vm_compute. reflexivity. Qed.

(** ** The connection manager *)

Section ConnectionManager.

Variable amqp : Amqp.
Variable url : option jsstring.

Lemma createChannel_connect_fails w e :
  connect amqp (history w) url = Throw e ->
  createChannel amqp url w =
    (Return tt,
     mkWorld (channel w) (history w ++ [Connect url])
             (console_out w ++ [connecting_error e])
             (files w) (fs_pending w) (responses w)).
Proof.
  intros H. unfold createChannel, try_catch, bind, broker_call.
  rewrite H. reflexivity.
Qed.

Lemma createChannel_succeeds w c ch :
  connect amqp (history w) url = Return c ->
  createChannel_reply amqp (history w ++ [Connect url]) c = Return ch ->
  createChannel amqp url w =
    (Return tt,
     mkWorld (Some ch) ((history w ++ [Connect url]) ++ [CreateChannel c])
             (console_out w) (files w) (fs_pending w) (responses w)).
Proof.
  intros H1 H2. unfold createChannel, try_catch, bind, broker_call.
  rewrite H1. cbn [history]. rewrite H2. reflexivity.
Qed.

Lemma start_subscriber_returns w : fst (start_subscriber amqp url w) = Return tt.
Proof.
  unfold start_subscriber, try_catch.
  destruct (subscribeToEvents amqp url w) as [[[]|e] w']; reflexivity.
Qed.

Lemma start_subscriber_connect_fails w e :
  channel w = None ->
  connect amqp (history w) url = Throw e ->
  start_subscriber amqp url w =
    (Return tt,
     mkWorld None (history w ++ [Connect url])
             (console_out w ++ [connecting_error e;
                                setup_error (cannot_read "undefined" "assertExchange")])
             (files w) (fs_pending w) (responses w)).
Proof.
  intros Hc H. unfold start_subscriber, try_catch, subscribeToEvents.
  unfold bind at 1. rewrite (createChannel_connect_fails w e H).
  unfold bind, channel_member. cbn [channel]. rewrite Hc.
  unfold console.error, console.write. cbn. now rewrite <- app_assoc.
Qed.

(** C7. When the connection attempt fails, [createChannel] logs the error,
    leaves [channel] unset, has made exactly one connection attempt and
    returns normally.  The subscriber startup that called it returns
    normally too, with [channel] still unset and that one attempt its only
    call on the broker client: nothing retries or reconnects. *)
Theorem createChannel_failure_is_logged_and_survived w e :
  channel w = None ->
  connect amqp (history w) url = Throw e ->
  let w' := snd (createChannel amqp url w) in
  let w'' := snd (start_subscriber amqp url w) in
  fst (createChannel amqp url w) = Return tt
  /\ channel w' = None
  /\ console_out w' = console_out w ++ [connecting_error e]
  /\ history w' = history w ++ [Connect url]
  /\ fst (start_subscriber amqp url w) = Return tt
  /\ channel w'' = None
  /\ history w'' = history w ++ [Connect url].
Proof.
  intros Hc H. cbv zeta.
  rewrite (createChannel_connect_fails w e H).
  rewrite (start_subscriber_connect_fails w e Hc H). cbn.
  repeat split; auto.
Qed.

(** C5, as the code has it.  [createChannel] never looks at [channel]:
    every call starts with a new connection attempt; when the attempt and
    the channel creation succeed, [channel] is the new channel, whatever it
    was before. *)
Theorem createChannel_always_connects_anew w c ch :
  connect amqp (history w) url = Return c ->
  createChannel_reply amqp (history w ++ [Connect url]) c = Return ch ->
  channel (snd (createChannel amqp url w)) = Some ch
  /\ history (snd (createChannel amqp url w))
     = history w ++ [Connect url; CreateChannel c].
Proof.
  intros H1 H2. rewrite (createChannel_succeeds w c ch H1 H2). cbn.
  split; [reflexivity | now rewrite <- app_assoc].
Qed.

End ConnectionManager.

Lemma createChannel_failure_witness :
  (channel init = None /\ connect broker_down (history init) None = Throw refused)
  /\ let w' := snd (createChannel broker_down None init) in
     let w'' := snd (start_subscriber broker_down None init) in
     fst (createChannel broker_down None init) = Return tt
     /\ channel w' = None
     /\ console_out w' = console_out init ++ [connecting_error refused]
     /\ history w' = history init ++ [Connect None]
     /\ fst (start_subscriber broker_down None init) = Return tt
     /\ channel w'' = None
     /\ history w'' = history init ++ [Connect None].
Proof.
  split; [split; reflexivity|].
  apply (createChannel_failure_is_logged_and_survived broker_down None init refused);
    reflexivity.
Defined.

(** In the world a first, successful [createChannel] leaves, a second call
    does not keep the channel. *)
Lemma createChannel_second_call_replaces_channel :
  let w1 := snd (createChannel broker_up None init) in
  channel w1 = Some 1%nat
  /\ ~ reuses_channel broker_up None w1.
Proof.
  cbv zeta. split; [reflexivity|].
  intros H. destruct (H 1%nat eq_refl) as [H1 _].
  vm_compute in H1. discriminate H1.
Qed.

Lemma createChannel_always_connects_anew_witness :
  let w1 := snd (createChannel broker_up None init) in
  (connect broker_up (history w1) None = Return 2%nat
   /\ createChannel_reply broker_up (history w1 ++ [Connect None]) 2%nat = Return 3%nat)
  /\ channel (snd (createChannel broker_up None w1)) = Some 3%nat
  /\ history (snd (createChannel broker_up None w1))
     = history w1 ++ [Connect None; CreateChannel 2%nat].
Proof.
  cbv zeta. split; [split; reflexivity|].
  apply (createChannel_always_connects_anew broker_up None
           (snd (createChannel broker_up None init)) 2%nat 3%nat); reflexivity.
Defined.

(** ** The publisher *)

Section Publisher.

Variable amqp : Amqp.

Lemma publishEvent_without_channel event w :
  channel w = None ->
  publishEvent amqp event w = (Throw (cannot_read "undefined" "assertExchange"), w).
Proof.
  intros H. unfold publishEvent, bind, channel_member. rewrite H. reflexivity.
Qed.

(** C1, on the code.  With [channel] unset, the callback of a successful
    insert ends in the TypeError of [channel.assertExchange]: the exception
    leaves the callback and the handler, no response has been sent and
    nothing has been logged. *)
Theorem register_without_channel_sends_nothing req_body hashedPassword insertId w :
  channel w = None ->
  register amqp req_body (Return hashedPassword) (QueryResult insertId) w
  = (Throw (cannot_read "undefined" "assertExchange"), w).
Proof.
  intros H. unfold register, register_inserted, bind.
  rewrite (publishEvent_without_channel _ w H). reflexivity.
Qed.

(** With a channel in place and a broker that takes the message, the same
    callback publishes and then answers 200. *)
Lemma register_with_channel_responds req_body hashedPassword insertId w ch ok :
  channel w = Some ch ->
  (forall h content, publish amqp h ch (str "events") (str "") content = Return ok) ->
  fst (register amqp req_body (Return hashedPassword) (QueryResult insertId) w) = Return tt
  /\ responses (snd (register amqp req_body (Return hashedPassword) (QueryResult insertId) w))
     = responses w
       ++ [{| status := 200;
              body := JObject [(str "message",
                                JString (str "User registered successfully"))] |}].
Proof.
  intros H P. unfold register, register_inserted, publishEvent, bind, channel_member,
    broker_call_dropped, Buffer_from, broker_call, ret, send_response.
  rewrite H. cbn [channel]. rewrite H.
  cbn [JSON.stringify JSON.SerializeJSONProperty]. unfold exchange. rewrite P.
  split; reflexivity.
Qed.

Lemma publishEvent_history event w ch :
  channel w = Some ch ->
  history (snd (publishEvent amqp event w))
  = history w ++ declare_exchange ch
      :: match JSON.stringify event with
         | Some t => [Publish ch (str "events") (str "") (Buffer.from t)]
         | None => []
         end.
Proof.
  intros H. unfold publishEvent, bind, channel_member, broker_call_dropped,
    Buffer_from, broker_call, ret, throw.
  rewrite H. cbn [channel]. rewrite H.
  destruct (JSON.stringify event) as [t|]; [|reflexivity].
  cbn [history].
  destruct (publish amqp _ ch exchange (str "") (Buffer.from t));
    cbn; now rewrite <- app_assoc.
Qed.

End Publisher.

Lemma register_without_channel_witness :
  channel (snd (start_subscriber broker_down None init)) = None
  /\ register broker_down ev_demo (Return (str "$2b$10$hash")) (QueryResult (JNumber (Int 7)))
       (snd (start_subscriber broker_down None init))
     = (Throw (cannot_read "undefined" "assertExchange"),
        snd (start_subscriber broker_down None init)).
Proof.
  split; [reflexivity|].
  apply (register_without_channel_sends_nothing broker_down ev_demo
           (str "$2b$10$hash") (JNumber (Int 7))); reflexivity.
Defined.

(** ** The subscriber startup *)

Section Subscriber.

Variable amqp : Amqp.
Variable url : option jsstring.

Lemma subscribeToEvents_accepted w c ch q :
  broker_accepts amqp url (history w) c ch q ->
  subscribeToEvents amqp url w =
    (Return tt,
     mkWorld (Some ch) (history w ++ startup_calls url c ch q)
             (console_out w ++
                [{| stream := Stdout;
                    args := [Text (str "Waiting for events. To exit, press CTRL+C")] |}])
             (files w) (fs_pending w) (responses w)).
Proof.
  intros (H1 & H2 & H3 & H4 & H5).
  unfold subscribeToEvents.
  unfold bind at 1. rewrite (createChannel_succeeds amqp url w c ch H1 H2).
  unfold bind, channel_member, broker_call, broker_call_dropped, console.log,
    console.write, exchange.
  cbn [channel history console_out files fs_pending responses].
  unfold declare_exchange in H4, H5.
  rewrite <- ?app_assoc. cbn [app].
  rewrite H3, H4, H5. rewrite <- ?app_assoc. reflexivity.
Qed.

(** C3. When the broker answers every call, the startup makes exactly these
    calls, in this order: connect and create a channel, declare the
    exchange, declare a queue with the empty name and [exclusive: true],
    bind the queue the broker named to the exchange with the empty routing
    key, consume from it with [noAck: true]. *)
Theorem subscriber_startup_order w c ch q :
  broker_accepts amqp url (history w) c ch q ->
  fst (subscribeToEvents amqp url w) = Return tt
  /\ history (snd (subscribeToEvents amqp url w))
     = history w ++
       [Connect url; CreateChannel c;
        AssertExchange ch (str "events") (str "fanout") {| durable := false |};
        AssertQueue ch (str "") {| exclusive := true |};
        BindQueue ch q (str "events") (str "");
        Consume ch q {| noAck := true |}].
Proof.
  intros H. rewrite (subscribeToEvents_accepted w c ch q H). split; reflexivity.
Qed.

End Subscriber.

Lemma subscriber_startup_order_witness :
  broker_accepts broker_up None (history init) 0%nat 1%nat (str "amq.gen-3")
  /\ fst (subscribeToEvents broker_up None init) = Return tt
  /\ history (snd (subscribeToEvents broker_up None init))
     = history init ++
       [Connect None; CreateChannel 0%nat;
        AssertExchange 1%nat (str "events") (str "fanout") {| durable := false |};
        AssertQueue 1%nat (str "") {| exclusive := true |};
        BindQueue 1%nat (str "amq.gen-3") (str "events") (str "");
        Consume 1%nat (str "amq.gen-3") {| noAck := true |}].
Proof.
  split; [repeat split; reflexivity|].
  apply (subscriber_startup_order broker_up None init 0%nat 1%nat (str "amq.gen-3")).
  repeat split; reflexivity.
Defined.

(** ** The exchange declarations *)

Lemma declared_app h1 h2 : declared (h1 ++ h2) = declared h1 ++ declared h2.
Proof.
  induction h1 as [|op h1 IH]; [reflexivity|].
  destruct op; cbn; rewrite ?IH; reflexivity.
Qed.

Section Declarations.

Variable amqp : Amqp.
Variable url : option jsstring.

Lemma publishEvent_declares event w ch :
  channel w = Some ch ->
  declared (history (snd (publishEvent amqp event w)))
  = declared (history w) ++ [(str "events", str "fanout", {| durable := false |})].
Proof.
  intros H. rewrite (publishEvent_history amqp event w ch H).
  rewrite !declared_app. destruct (JSON.stringify event); reflexivity.
Qed.

Lemma subscribeToEvents_declares w c ch :
  connect amqp (history w) url = Return c ->
  createChannel_reply amqp (history w ++ [Connect url]) c = Return ch ->
  declared (history (snd (subscribeToEvents amqp url w)))
  = declared (history w) ++ [(str "events", str "fanout", {| durable := false |})].
Proof.
  intros H1 H2. unfold subscribeToEvents.
  unfold bind at 1. rewrite (createChannel_succeeds amqp url w c ch H1 H2).
  unfold bind, channel_member, broker_call, broker_call_dropped, console.log,
    console.write, exchange.
  cbn [channel history console_out files fs_pending responses].
  destruct (assertExchange amqp _ ch _ _ _) as [[]|e1];
    [destruct (assertQueue amqp _ ch _ _) as [q|e2];
     [destruct (bindQueue amqp _ ch q _ _) as [[]|e3]|]|];
    cbn [snd history]; rewrite !declared_app; cbn;
    rewrite <- ?app_assoc; rewrite ?app_nil_r; reflexivity.
Qed.

(** C8. The publisher and the subscriber declare the exchange with the same
    three parameters, the constants "events", "fanout" and [durable: false]:
    whatever the event, the environment and the state, each adds exactly
    this one declaration to those made before. *)
Theorem exchange_declarations_agree event w1 ch1 w2 c ch2 :
  channel w1 = Some ch1 ->
  connect amqp (history w2) url = Return c ->
  createChannel_reply amqp (history w2 ++ [Connect url]) c = Return ch2 ->
  declared (history (snd (publishEvent amqp event w1)))
  = declared (history w1) ++ [(str "events", str "fanout", {| durable := false |})]
  /\ declared (history (snd (subscribeToEvents amqp url w2)))
     = declared (history w2) ++ [(str "events", str "fanout", {| durable := false |})].
Proof.
  intros H H1 H2. split.
  - exact (publishEvent_declares event w1 ch1 H).
  - exact (subscribeToEvents_declares w2 c ch2 H1 H2).
Qed.

End Declarations.

Lemma exchange_declarations_agree_witness :
  let w1 := snd (start_subscriber broker_up None init) in
  (channel w1 = Some 1%nat
   /\ connect broker_up (history init) None = Return 0%nat
   /\ createChannel_reply broker_up (history init ++ [Connect None]) 0%nat = Return 1%nat)
  /\ declared (history (snd (publishEvent broker_up ev_demo w1)))
     = declared (history w1) ++ [(str "events", str "fanout", {| durable := false |})]
  /\ declared (history (snd (subscribeToEvents broker_up None init)))
     = declared (history init) ++ [(str "events", str "fanout", {| durable := false |})].
Proof.
  cbv zeta. split; [repeat split; reflexivity|].
  apply (exchange_declarations_agree broker_up None ev_demo
           (snd (start_subscriber broker_up None init)) 1%nat init 0%nat 1%nat);
    reflexivity.
Defined.

(** ** The delivery callback *)

Section FalsyContent.

Variable syntax_error_message : jsstring -> jsstring.

(** C10. A delivery whose [content] is falsy leaves the world as it was and
    returns normally: nothing is decoded, no append is asked for, and the
    run goes on with the next step. *)
Theorem falsy_content_is_ignored now m later w :
  ToBoolean (content m) = false ->
  on_message syntax_error_message now (Some m) w = (Return tt, w)
  /\ run syntax_error_message (Deliver now (Some m) :: later) w
     = run syntax_error_message later w.
Proof.
  intros H.
  assert (E : on_message syntax_error_message now (Some m) w = (Return tt, w)).
  { unfold on_message. rewrite H. reflexivity. }
  split; [exact E|].
  cbn [run step]. unfold bind. rewrite E. reflexivity.
Qed.

End FalsyContent.

Lemma falsy_content_witness :
  ToBoolean (content {| content := ContentUndefined |}) = false
  /\ on_message wording_demo 0 (Some {| content := ContentUndefined |}) init = (Return tt, init)
  /\ run wording_demo [Deliver 0 (Some {| content := ContentUndefined |})] init
     = run wording_demo [] init.
Proof.
  split; [reflexivity|].
  apply (falsy_content_is_ignored wording_demo 0 {| content := ContentUndefined |} [] init).
  reflexivity.
Defined.

(** ** The event log: failures *)

(** An append at the start of the world whose write fails for lack of
    space after ten bytes: the log holds the beginning of the record and
    nothing is thrown. *)
Lemma failed_append_is_not_reported :
  ~ append_written_or_reported 0 ev_demo (Failed disk_full (Some 10%nat)) init.
Proof.
  unfold append_written_or_reported. vm_compute.
  intros [H | [[e H] | [e H]]]; discriminate H.
Qed.

(** C6, as the code has it.  [logEventToFile] returns normally as soon as
    the append is queued, before any write.  When the write completes, the
    file has gained the record and success is logged; when it fails, the
    failure is logged with [console.error] and whatever part of the record
    was written stays in the file; in both cases the completion returns
    normally: no failure reaches the caller. *)
Theorem append_failure_is_only_logged now event c w :
  let request := {| req_path := str "events.log"; req_data := logEntry now event |} in
  let w1 := snd (logEventToFile now event w) in
  let w2 := snd (fs_complete (List.length (fs_pending w)) c w1) in
  logEventToFile now event w
    = (Return tt,
       mkWorld (channel w) (history w) (console_out w) (files w)
               (fs_pending w ++ [request]) (responses w))
  /\ fst (fs_complete (List.length (fs_pending w)) c w1) = Return tt
  /\ fs_pending w2 = fs_pending w
  /\ match c with
     | Written =>
         files w2 = fs.append (files w) (str "events.log") (Buffer.from (logEntry now event))
         /\ console_out w2 = console_out w ++ [logged_line]
     | Failed e None =>
         files w2 = files w
         /\ console_out w2 = console_out w ++ [write_error_line e]
     | Failed e (Some n) =>
         files w2 = fs.append (files w) (str "events.log")
                      (firstn n (Buffer.from (logEntry now event)))
         /\ console_out w2 = console_out w ++ [write_error_line e]
     end.
Proof.
  cbv zeta. split; [reflexivity|].
  unfold logEventToFile, fs.appendFile, fs_complete. cbn [snd fs_pending].
  assert (N : nth_error (fs_pending w ++
                [{| req_path := str "events.log"; req_data := logEntry now event |}])
                (List.length (fs_pending w))
              = Some {| req_path := str "events.log"; req_data := logEntry now event |}).
  { rewrite nth_error_app2 by lia. now rewrite Nat.sub_diag. }
  rewrite N.
  assert (R : forall (A : Type) (l : list A) x, remove_nth (List.length l) (l ++ [x]) = l).
  { intros A l x. induction l as [|y l IH]; cbn; [reflexivity | now rewrite IH]. }
  rewrite R.
  destruct c as [|e [n|]]; cbn; repeat split; reflexivity.
Qed.

(** ** Strings without line feeds *)

Lemma list_ind2 {A} (P : list A -> Prop) :
  P [] -> (forall x, P [x]) ->
  (forall x y l, P l -> P (y :: l) -> P (x :: y :: l)) ->
  forall l, P l.
Proof.
  intros H0 H1 H2 l.
  assert (H : P l /\ forall x, P (x :: l)); [|tauto].
  induction l as [|y l [IHl IHc]]; split; auto.
Qed.

Lemma no_lf_app a b : no_lf a -> no_lf b -> no_lf (a ++ b).
Proof. unfold no_lf. intros. apply Forall_app. auto. Qed.

Lemma no_lf_cons c s : c <> 10 -> no_lf s -> no_lf (c :: s).
Proof. unfold no_lf. auto. Qed.

Lemma no_lf_nil : no_lf [].
Proof. constructor. Qed.

Create HintDb nolf.
#[local] Hint Resolve no_lf_app no_lf_cons no_lf_nil : nolf.

Lemma no_lf_str_digits_fixed w n : no_lf (digits_fixed w n).
Proof.
  revert n. induction w as [|w IH]; intros n; cbn [digits_fixed]; auto with nolf.
  apply no_lf_app; [apply IH|].
  apply no_lf_cons; [|constructor].
  assert (0 <= n mod 10 < 10) by (apply Z.mod_pos_bound; lia). lia.
Qed.

Lemma digits_aux_range fuel n acc :
  0 <= n ->
  Forall (fun c => 48 <= c <= 57) acc ->
  Forall (fun c => 48 <= c <= 57) (digits_aux fuel n acc).
Proof.
  revert n acc. induction fuel as [|f IH]; intros n acc Hn Hacc; cbn [digits_aux]; [assumption|].
  destruct (Z.ltb_spec n 10).
  - constructor; [lia | assumption].
  - apply IH.
    + apply Z.div_pos; lia.
    + constructor; [|assumption]. assert (0 <= n mod 10 < 10) by (apply Z.mod_pos_bound; lia). lia.
Qed.

Lemma digits_range n : 0 <= n -> Forall (fun c => 48 <= c <= 57) (digits n).
Proof. intros H. apply digits_aux_range; [assumption | constructor]. Qed.

Lemma no_lf_digits n : 0 <= n -> no_lf (digits n).
Proof.
  intros H. unfold no_lf. eapply Forall_impl; [|apply digits_range; assumption].
  cbv beta. intros; lia.
Qed.

Lemma no_lf_literal (s : string) :
  forallb (fun c => negb (c =? 10)) (str s) = true -> no_lf (str s).
Proof.
  intros H. unfold no_lf. apply Forall_forall. intros c Hc.
  rewrite forallb_forall in H. specialize (H c Hc).
  destruct (Z.eqb_spec c 10); [discriminate | assumption].
Qed.

Lemma no_lf_toISOString t : no_lf (Date.toISOString t).
Proof.
  unfold Date.toISOString. destruct (Date.civil_from_days _) as [[y m] d].
  destruct (_ && _); destruct (y <? 0);
    repeat (match goal with |- no_lf (_ ++ _) => apply no_lf_app end);
    solve [apply no_lf_str_digits_fixed | apply no_lf_literal; reflexivity].
Qed.

Ltac split_no_lf :=
  repeat match goal with
         | |- no_lf (_ ++ _) => apply no_lf_app
         | |- no_lf (_ :: _) => apply no_lf_cons
         | |- no_lf [] => apply no_lf_nil
         | |- no_lf (str _) => apply no_lf_literal; reflexivity
         end.

Lemma hex_digit_not_lf d : 0 <= d < 16 -> JSON.hex_digit d <> 10.
Proof. unfold JSON.hex_digit. destruct (d <? 10); lia. Qed.

Lemma no_lf_UnicodeEscape c : no_lf (JSON.UnicodeEscape c).
Proof.
  unfold JSON.UnicodeEscape. split_no_lf; try lia;
    apply hex_digit_not_lf; apply Z.mod_pos_bound; lia.
Qed.

Lemma no_lf_quote_unit c : no_lf (JSON.quote_unit c).
Proof.
  unfold JSON.quote_unit.
  repeat match goal with
         | |- context [if ?x =? ?y then _ else _] => destruct (Z.eqb_spec x y)
         end; split_no_lf; try lia.
  destruct (_ || _); [apply no_lf_UnicodeEscape|]. split_no_lf. assumption.
Qed.

Lemma no_lf_quote_chars s : no_lf (JSON.quote_chars s).
Proof.
  induction s as [|c|c d s IH1 IH2] using list_ind2.
  - constructor.
  - cbn. destruct (is_leading_surrogate c); rewrite ?app_nil_r; apply no_lf_quote_unit.
  - cbn [JSON.quote_chars].
    destruct (is_leading_surrogate c) eqn:Hc.
    + destruct (is_trailing_surrogate d) eqn:Hd.
      * unfold is_leading_surrogate in Hc. unfold is_trailing_surrogate in Hd.
        split_no_lf; try lia; assumption.
      * apply no_lf_app; [apply no_lf_quote_unit | exact IH2].
    + apply no_lf_app; [apply no_lf_quote_unit | exact IH2].
Qed.

Lemma no_lf_QuoteJSONString s : no_lf (JSON.QuoteJSONString s).
Proof.
  unfold JSON.QuoteJSONString. split_no_lf; try lia. apply no_lf_quote_chars.
Qed.

Lemma no_lf_repeat c n : c <> 10 -> no_lf (repeat c n).
Proof. intros H. induction n; cbn; auto with nolf. Qed.

Lemma no_lf_firstn n s : no_lf s -> no_lf (firstn n s).
Proof.
  unfold no_lf. rewrite !Forall_forall. intros H x Hx. apply H.
  rewrite <- (firstn_skipn n s). apply in_or_app. now left.
Qed.

Lemma no_lf_skipn n s : no_lf s -> no_lf (skipn n s).
Proof.
  unfold no_lf. rewrite !Forall_forall. intros H x Hx. apply H.
  rewrite <- (firstn_skipn n s). apply in_or_app. now right.
Qed.

Lemma strip_trailing_zeros_nonneg fuel m e :
  0 <= m -> 0 <= fst (strip_trailing_zeros fuel m e).
Proof.
  revert m e. induction fuel as [|f IH]; intros m e H; cbn [strip_trailing_zeros];
    [assumption|].
  destruct (_ && _); [|assumption].
  apply IH. apply Z.div_pos; lia.
Qed.

Lemma no_lf_exponent_part x : no_lf (exponent_part x).
Proof.
  unfold exponent_part. destruct (x <? 0); split_no_lf; apply no_lf_digits; lia.
Qed.

Lemma no_lf_layout_decimal s n : no_lf s -> no_lf (layout_decimal s n).
Proof.
  intros H. unfold layout_decimal.
  repeat match goal with
         | |- no_lf (if ?b then _ else _) => destruct b
         end; split_no_lf;
    auto using no_lf_repeat, no_lf_firstn, no_lf_skipn, no_lf_exponent_part;
    try (apply no_lf_repeat; lia).
Qed.

Lemma shortest_cases ks x num den n otherwise :
  shortest ks x num den n otherwise = otherwise
  \/ reads_as x (shortest ks x num den n otherwise) = true.
Proof.
  induction ks as [|k ks IH]; cbn [shortest]; [now left|].
  destruct (find (reads_as x) (candidates num den n k)) as [c|] eqn:F; [|exact IH].
  right. now apply find_some in F.
Qed.

Lemma exact_decimal_nonneg m e : 0 <= m -> 0 <= fst (exact_decimal m e).
Proof.
  intros H. unfold exact_decimal.
  assert (P : 0 <= fst (if 0 <=? e then (m * 2 ^ e, 0) else (m * 5 ^ (- e), e))).
  { destruct (0 <=? e); cbn [fst]; apply Z.mul_nonneg_nonneg;
      try exact H; apply Z.pow_nonneg; lia. }
  destruct (if 0 <=? e then _ else _) as [s d]. cbn [fst] in P.
  pose proof (strip_trailing_zeros_nonneg (S (Z.to_nat (Z.log2 s))) s d P) as N.
  destruct (strip_trailing_zeros _ s d) as [s' d']. exact N.
Qed.

Lemma Number_digits_nonneg m e : 0 <= m -> 0 <= fst (Number_digits m e).
Proof.
  intros H. unfold Number_digits.
  destruct (if 0 <=? e then _ else _) as [num den].
  destruct (shortest_cases [1; 2; 3; 4; 5; 6; 7; 8; 9; 10; 11; 12; 13; 14; 15; 16; 17]
              (Bin m e) num den (decimal_position num den) (exact_decimal m e)) as [-> | R].
  - now apply exact_decimal_nonneg.
  - destruct (shortest _ _ _ _ _ _) as [s n]. cbn [reads_as fst] in *.
    apply andb_true_iff in R as [R _]. apply Z.ltb_lt in R. lia.
Qed.

Lemma no_lf_Number_toString x : no_lf (Number_toString x).
Proof.
  destruct x as [| | |z|m e]; cbn [Number_toString]; split_no_lf.
  - destruct (Z.ltb_spec z 0); split_no_lf; apply no_lf_digits; lia.
  - pose proof (Number_digits_nonneg (Z.abs m) e (Z.abs_nonneg m)) as H.
    destruct (Number_digits (Z.abs m) e) as [s n]. cbn [fst] in H.
    apply no_lf_app; [destruct (m <? 0); split_no_lf|].
    apply no_lf_layout_decimal. apply no_lf_digits. assumption.
Qed.

Lemma no_lf_join sep parts :
  no_lf sep -> Forall no_lf parts -> no_lf (join sep parts).
Proof.
  intros Hs H. induction H as [|p parts Hp H IH]; [constructor|].
  cbn [join]. destruct parts as [|q parts]; [assumption|].
  apply no_lf_app; [assumption|]. apply no_lf_app; assumption.
Qed.

(** Induction on values, through arrays and objects. *)
Lemma JSValue_induction (P : JSValue -> Prop) :
  P JUndefined -> P JNull -> (forall b, P (JBool b)) -> (forall n, P (JNumber n)) ->
  (forall s, P (JString s)) ->
  (forall elems, Forall P elems -> P (JArray elems)) ->
  (forall props, Forall (fun kv => P (snd kv)) props -> P (JObject props)) ->
  forall v, P v.
Proof.
  intros Hu Hn Hb Hnum Hs Ha Ho.
  fix IH 1.
  intros [| |b|n|s|elems|props];
    [exact Hu | exact Hn | apply Hb | apply Hnum | apply Hs | | ].
  - apply Ha. induction elems as [|x elems IHe]; constructor; [apply IH | exact IHe].
  - apply Ho. induction props as [|[k x] props IHp]; constructor; [apply IH | exact IHp].
Qed.

(** The encoding of a value never holds a line feed. *)
Lemma no_lf_stringify v t : JSON.stringify v = Some t -> no_lf t.
Proof.
  unfold JSON.stringify. revert t.
  induction v as [| |b|n|s|elems IH|props IH] using JSValue_induction;
    intros t H; cbn [JSON.SerializeJSONProperty] in H.
  - discriminate H.
  - injection H as <-. split_no_lf; lia.
  - destruct b; injection H as <-; split_no_lf; lia.
  - injection H as <-.
    destruct (Number_isFinite n); [apply no_lf_Number_toString | split_no_lf; lia].
  - injection H as <-. apply no_lf_QuoteJSONString.
  - injection H as <-. split_no_lf; try lia. apply no_lf_join; [split_no_lf; lia|].
    induction IH as [|x elems Hx _ IHe]; [constructor|].
    cbn [map]. constructor; [|exact IHe].
    destruct (JSON.SerializeJSONProperty x) as [tx|];
      [now apply Hx | split_no_lf; lia].
  - injection H as <-. split_no_lf; try lia. apply no_lf_join; [split_no_lf; lia|].
    induction IH as [|[k x] props Hx _ IHp]; [constructor|].
    cbn [snd] in Hx.
    destruct (JSON.SerializeJSONProperty x) as [tx|]; [|exact IHp].
    constructor; [|exact IHp].
    split_no_lf; try lia; [apply no_lf_quote_chars | now apply Hx].
Qed.

(** ** UTF-8 encoding and line feeds *)

Ltac div_lia := Z.to_euclidean_division_equations; lia.

Lemma no_lf_utf8_of_code_point cp : cp <> 10 -> no_lf (Buffer.utf8_of_code_point cp).
Proof.
  intros H. unfold Buffer.utf8_of_code_point.
  destruct (Z.ltb_spec cp 128); [split_no_lf; assumption|].
  destruct (Z.ltb_spec cp 2048); [split_no_lf; div_lia|].
  destruct (Z.ltb_spec cp 65536); split_no_lf; div_lia.
Qed.

Lemma from_cons_cons c d s :
  Buffer.from (c :: d :: s)
  = if is_leading_surrogate c then
      if is_trailing_surrogate d
      then Buffer.utf8_of_code_point (65536 + (c - 55296) * 1024 + (d - 56320))
             ++ Buffer.from s
      else Buffer.replacement ++ Buffer.from (d :: s)
    else if is_trailing_surrogate c then Buffer.replacement ++ Buffer.from (d :: s)
    else Buffer.utf8_of_code_point c ++ Buffer.from (d :: s).
Proof. reflexivity. Qed.

Lemma no_lf_from s : no_lf s -> no_lf (Buffer.from s).
Proof.
  induction s as [|c|c d s IH1 IH2] using list_ind2; intros H.
  - constructor.
  - inversion_clear H as [|? ? Hc _]. cbn [Buffer.from]. unfold Buffer.replacement.
    destruct (is_leading_surrogate c); [split_no_lf; lia|].
    destruct (is_trailing_surrogate c); [split_no_lf; lia|].
    rewrite app_nil_r. now apply no_lf_utf8_of_code_point.
  - inversion H as [|? ? Hc H']. subst. inversion H' as [|? ? Hd H'']. subst.
    rewrite from_cons_cons.
    destruct (is_leading_surrogate c) eqn:Lc.
    + destruct (is_trailing_surrogate d) eqn:Td.
      * apply no_lf_app; [|now apply IH1].
        apply no_lf_utf8_of_code_point.
        unfold is_leading_surrogate in Lc. unfold is_trailing_surrogate in Td. lia.
      * apply no_lf_app; [unfold Buffer.replacement; split_no_lf; lia | now apply IH2].
    + destruct (is_trailing_surrogate c).
      * apply no_lf_app; [unfold Buffer.replacement; split_no_lf; lia | now apply IH2].
      * apply no_lf_app; [now apply no_lf_utf8_of_code_point | now apply IH2].
Qed.

(** Encoding distributes over a concatenation that does not separate the
    two halves of a surrogate pair. *)
Lemma from_app s t :
  match t with
  | [] => True
  | d :: _ => is_trailing_surrogate d = false
  end ->
  Buffer.from (s ++ t) = Buffer.from s ++ Buffer.from t.
Proof.
  intros Ht. induction s as [|c|c d s IH1 IH2] using list_ind2.
  - reflexivity.
  - cbn [app Buffer.from].
    destruct (is_leading_surrogate c).
    + destruct t as [|d t]; [reflexivity|]. now rewrite Ht.
    + destruct (is_trailing_surrogate c); rewrite <- ?app_assoc; reflexivity.
  - change ((c :: d :: s) ++ t) with (c :: d :: (s ++ t)).
    rewrite !from_cons_cons.
    change (d :: (s ++ t)) with ((d :: s) ++ t).
    rewrite IH1, IH2.
    destruct (is_leading_surrogate c);
      [destruct (is_trailing_surrogate d)|destruct (is_trailing_surrogate c)];
      now rewrite <- ?app_assoc.
Qed.

Lemma single_line_entry now event : single_line (Buffer.from (logEntry now event)).
Proof.
  unfold logEntry, single_line.
  exists (Buffer.from (Date.toISOString now ++ str " - Event: "
                       ++ match JSON.stringify event with
                          | Some t => t
                          | None => str "undefined"
                          end)).
  split.
  - rewrite !app_assoc. now rewrite from_app.
  - apply no_lf_from. apply no_lf_app; [apply no_lf_toISOString|].
    apply no_lf_app; [apply no_lf_literal; reflexivity|].
    destruct (JSON.stringify event) as [t|] eqn:E;
      [exact (no_lf_stringify event t E) | apply no_lf_literal; reflexivity].
Qed.

Lemma single_line_record now event : single_line (record now event).
Proof. unfold record. apply single_line_entry. Qed.

(** ** The file system *)

Lemma jsstring_eqb_eq a b : jsstring_eqb a b = true <-> a = b.
Proof.
  revert b. induction a as [|x a IH]; intros [|y b]; cbn; split; intros H;
    try reflexivity; try discriminate.
  - apply andb_true_iff in H as [H1 H2]. apply Z.eqb_eq in H1. apply IH in H2.
    now subst.
  - injection H as -> ->. rewrite Z.eqb_refl. now apply IH.
Qed.

Lemma jsstring_eqb_refl a : jsstring_eqb a a = true.
Proof. now apply jsstring_eqb_eq. Qed.

Lemma jsstring_eqb_neq a b : a <> b -> jsstring_eqb a b = false.
Proof.
  intros H. destruct (jsstring_eqb a b) eqn:E; [|reflexivity].
  apply jsstring_eqb_eq in E. contradiction.
Qed.

Lemma read_append_same fsys p bytes :
  fs.read (fs.append fsys p bytes) p
  = Some (match fs.read fsys p with Some c => c | None => [] end ++ bytes).
Proof.
  induction fsys as [|[q c] fsys IH]; cbn.
  - now rewrite jsstring_eqb_refl.
  - destruct (jsstring_eqb q p) eqn:E; cbn; rewrite E; [reflexivity | exact IH].
Qed.

Lemma read_append_other fsys p bytes p' :
  p' <> p -> fs.read (fs.append fsys p bytes) p' = fs.read fsys p'.
Proof.
  intros H. induction fsys as [|[q c] fsys IH]; cbn.
  - rewrite jsstring_eqb_neq; [reflexivity | congruence].
  - destruct (jsstring_eqb q p) eqn:E; cbn.
    + apply jsstring_eqb_eq in E. subst q.
      rewrite jsstring_eqb_neq; [reflexivity | congruence].
    + destruct (jsstring_eqb q p'); [reflexivity | exact IH].
Qed.

(** ** The delivery callback and the log *)

Section Callback.

Variable syntax_error_message : jsstring -> jsstring.

Lemma on_message_decoded now bytes event w :
  JSON.parse (Buffer.toString bytes) = Some event ->
  on_message syntax_error_message now (Some {| content := ContentBuffer bytes |}) w
  = (Return tt,
     mkWorld (channel w) (history w) (console_out w) (files w)
             (fs_pending w ++ [{| req_path := log_path; req_data := logEntry now event |}])
             (responses w)).
Proof.
  intros H. unfold on_message, bind, JSON_parse.
  cbn [content ToBoolean content_toString]. rewrite H. reflexivity.
Qed.

Lemma on_message_rejected now bytes w :
  JSON.parse (Buffer.toString bytes) = None ->
  on_message syntax_error_message now (Some {| content := ContentBuffer bytes |}) w
  = (Throw (SyntaxError (syntax_error_message (Buffer.toString bytes))), w).
Proof.
  intros H. unfold on_message, bind, JSON_parse.
  cbn [content ToBoolean content_toString]. rewrite H. reflexivity.
Qed.

Lemma on_message_files now msg w :
  files (snd (on_message syntax_error_message now msg w)) = files w.
Proof.
  unfold on_message, bind, JSON_parse.
  destruct msg as [[c]|]; [|reflexivity]. cbn [content].
  destruct c as [bytes| | | | | |]; try reflexivity.
  cbn [ToBoolean content_toString].
  destruct (JSON.parse (Buffer.toString bytes)); reflexivity.
Qed.

(** C9, as the code has it.  The decode step is [JSON.parse] and nothing
    else.  A delivery whose body [JSON.parse] rejects makes the callback
    throw the SyntaxError: nothing in the callback catches it, no append has
    been asked for, and the exception ends the run of the loop before any
    later step.  A body that is JSON is accepted whatever it encodes, an
    Event or not: the callback asks for the append of its record, returns
    normally, and the run goes on. *)
Theorem undecodable_delivery_throws now bytes later w :
  let delivery := Deliver now (Some {| content := ContentBuffer bytes |}) in
  match JSON.parse (Buffer.toString bytes) with
  | None =>
      on_message syntax_error_message now (Some {| content := ContentBuffer bytes |}) w
      = (Throw (SyntaxError (syntax_error_message (Buffer.toString bytes))), w)
      /\ run syntax_error_message (delivery :: later) w
         = (Throw (SyntaxError (syntax_error_message (Buffer.toString bytes))), w)
  | Some value =>
      let w' := mkWorld (channel w) (history w) (console_out w) (files w)
                        (fs_pending w ++ [{| req_path := str "events.log";
                                             req_data := logEntry now value |}])
                        (responses w) in
      on_message syntax_error_message now (Some {| content := ContentBuffer bytes |}) w
      = (Return tt, w')
      /\ run syntax_error_message (delivery :: later) w = run syntax_error_message later w'
  end.
Proof.
  cbv zeta. destruct (JSON.parse (Buffer.toString bytes)) as [value|] eqn:H.
  - pose proof (on_message_decoded now bytes value w H) as E.
    split; [exact E|]. cbn [run step]. unfold bind. rewrite E. reflexivity.
  - pose proof (on_message_rejected now bytes w H) as E.
    split; [exact E|]. cbn [run step]. unfold bind. rewrite E. reflexivity.
Qed.

End Callback.

(** The body [42] is JSON and no Event: the callback does not throw, it
    asks for the append of the record of [42]. *)
Lemma non_event_body_is_logged :
  decode (Buffer.from (str "42")) = Some (JNumber (Int 42))
  /\ is_event (JNumber (Int 42)) = false
  /\ on_message wording_demo 0 (Some {| content := ContentBuffer (Buffer.from (str "42")) |})
       init
     = (Return tt,
        mkWorld None [] [] []
                [{| req_path := str "events.log";
                    req_data := str "1970-01-01T00:00:00.000Z - Event: 42" ++ [10] |}] [])
  /\ ~ rejects_what_is_no_event.
Proof.
  split; [reflexivity|]. split; [reflexivity|]. split; [reflexivity|].
  intros H. destruct (H wording_demo 0 (Buffer.from (str "42")) init eq_refl) as [e He].
  discriminate He.
Qed.

Lemma undecodable_delivery_witness :
  JSON.parse (Buffer.toString (Buffer.from (str "{oops"))) = None
  /\ on_message wording_demo 0
       (Some {| content := ContentBuffer (Buffer.from (str "{oops")) |}) init
     = (Throw (SyntaxError (wording_demo (str "{oops"))), init)
  /\ run wording_demo
       [Deliver 0 (Some {| content := ContentBuffer (Buffer.from (str "{oops")) |});
        FsComplete 0 Written] init
     = (Throw (SyntaxError (wording_demo (str "{oops"))), init).
Proof.
  split; [reflexivity|].
  exact (undecodable_delivery_throws wording_demo 0 (Buffer.from (str "{oops"))
           [FsComplete 0 Written] init).
Defined.

(** ** What [JSON.parse] returns *)

Ltac break_match_hyp H :=
  repeat match type of H with
         | context [match ?x with _ => _ end] => destruct x eqn:?; try discriminate H
         end.

Lemma parse_results_defined fuel :
  (forall s v r, JSON.parse_value fuel s = JSON.Parsed v r -> v <> JUndefined)
  /\ (forall s acc v r, JSON.parse_members fuel s acc = JSON.Parsed v r -> v <> JUndefined)
  /\ (forall s acc v r, JSON.parse_elements fuel s acc = JSON.Parsed v r -> v <> JUndefined).
Proof.
  induction fuel as [|f (IHv & IHm & IHe)];
    [repeat split; intros; discriminate|].
  repeat split.
  - intros s v r H. cbn [JSON.parse_value] in H.
    break_match_hyp H;
      try (injection H as <- <-; discriminate);
      eauto.
  - intros s acc v r H. cbn [JSON.parse_members] in H.
    break_match_hyp H;
      try (injection H as <- <-; discriminate);
      eauto.
  - intros s acc v r H. cbn [JSON.parse_elements] in H.
    break_match_hyp H;
      try (injection H as <- <-; discriminate);
      eauto.
Qed.

Lemma parse_defined text v : JSON.parse text = Some v -> v <> JUndefined.
Proof.
  unfold JSON.parse. intros H.
  destruct (JSON.parse_value _ text) as [v' rest| |] eqn:E; try discriminate H.
  destruct (JSON.skip_ws rest); [|discriminate H]. injection H as <-.
  exact (proj1 (parse_results_defined _) _ _ _ E).
Qed.

Lemma stringify_defined v : v <> JUndefined -> exists t, JSON.stringify v = Some t.
Proof.
  intros H. destruct v as [| |[]| | | |]; cbn; eauto. contradiction.
Qed.

(** ** Fuel *)

Lemma skip_ws_length s : (List.length (JSON.skip_ws s) <= List.length s)%nat.
Proof.
  induction s as [|c s IH]; [reflexivity|].
  cbn [JSON.skip_ws]. destruct (JSON.is_ws c); cbn [List.length] in *; lia.
Qed.

Lemma parse_string_chars_bounded n :
  forall s cs rest,
    (List.length s <= n)%nat ->
    JSON.parse_string_chars s = Some (cs, rest) ->
    (List.length rest < List.length s)%nat.
Proof.
  induction n as [|n IH]; intros s cs rest B H.
  { destruct s; [discriminate H | cbn in B; lia]. }
  destruct s as [|c r]; [discriminate H|].
  cbn [JSON.parse_string_chars] in H.
  assert (K : forall u s' cs' rest',
             (List.length s' < List.length (c :: r))%nat ->
             JSON.cons_chars u (JSON.parse_string_chars s') = Some (cs', rest') ->
             (List.length rest' < List.length s')%nat).
  { intros u s' cs' rest' L E.
    destruct (JSON.parse_string_chars s') as [[cs0 rest0]|] eqn:P; [|discriminate E].
    injection E as <- <-. apply (IH s' cs0 rest0); [cbn [List.length] in *; lia | exact P]. }
  destruct (c =? 34).
  { injection H as <- <-. cbn [List.length]. lia. }
  destruct (c =? 92).
  - destruct r as [|e r1]; [discriminate H|].
    destruct (e =? 117).
    + destruct r1 as [|h3 [|h2 [|h1 [|h0 r2]]]]; try discriminate H.
      destruct (JSON.hex4 h3 h2 h1 h0); [|discriminate H].
      apply K in H; cbn [List.length] in *; lia.
    + destruct (JSON.unescape e); [|discriminate H].
      apply K in H; cbn [List.length] in *; lia.
  - destruct (c <? 32); [discriminate H|].
    apply K in H; cbn [List.length] in *; lia.
Qed.

Lemma parse_string_chars_length s cs rest :
  JSON.parse_string_chars s = Some (cs, rest) ->
  (List.length rest < List.length s)%nat.
Proof. apply (parse_string_chars_bounded (List.length s)). lia. Qed.

Lemma span_digits_length s :
  (List.length (snd (JSON.span_digits s)) <= List.length s)%nat.
Proof.
  induction s as [|c s IH]; [reflexivity|].
  cbn [JSON.span_digits]. destruct (JSON.is_digit c); [|reflexivity].
  destruct (JSON.span_digits s) as [ds rest]. cbn [snd List.length] in *. lia.
Qed.

Lemma parse_number_length s n rest :
  JSON.parse_number s = Some (n, rest) -> (List.length rest <= List.length s)%nat.
Proof.
  unfold JSON.parse_number.
  assert (S1 : (List.length (snd (JSON.parse_sign s)) <= List.length s)%nat).
  { unfold JSON.parse_sign. destruct s as [|c r]; [reflexivity|].
    destruct (c =? 45); cbn [snd List.length]; lia. }
  destruct (JSON.parse_sign s) as [neg s1]. cbn [snd] in S1.
  assert (S2 : forall ids s2, JSON.parse_int_part s1 = Some (ids, s2) ->
                              (List.length s2 <= List.length s1)%nat).
  { unfold JSON.parse_int_part. intros ids s2 H. destruct s1 as [|c r]; [discriminate H|].
    destruct (c =? 48).
    - injection H as <- <-. cbn [List.length]. lia.
    - destruct (JSON.is_digit c); [|discriminate H].
      pose proof (span_digits_length (c :: r)) as L.
      remember (JSON.span_digits (c :: r)) as sd eqn:Sp. clear Sp.
      injection H as ->. exact L. }
  destruct (JSON.parse_int_part s1) as [[ids s2]|]; [|discriminate].
  specialize (S2 ids s2 eq_refl).
  assert (S3 : forall fds s3, JSON.parse_fraction s2 = Some (fds, s3) ->
                              (List.length s3 <= List.length s2)%nat).
  { unfold JSON.parse_fraction. intros fds s3 H. destruct s2 as [|c r].
    - injection H as <- <-. reflexivity.
    - destruct (c =? 46).
      + pose proof (span_digits_length r) as L.
        destruct (JSON.span_digits r) as [[|d ds] r']; [discriminate H|].
        injection H as <- <-. cbn [snd List.length] in *. lia.
      + injection H as <- <-. reflexivity. }
  destruct (JSON.parse_fraction s2) as [[fds s3]|]; [|discriminate].
  specialize (S3 fds s3 eq_refl).
  assert (S4 : forall ex s4, JSON.parse_exponent s3 = Some (ex, s4) ->
                             (List.length s4 <= List.length s3)%nat).
  { unfold JSON.parse_exponent. intros ex s4 H. destruct s3 as [|c r].
    - injection H as <- <-. reflexivity.
    - destruct ((c =? 101) || (c =? 69)).
      + assert (E : exists eneg r1,
                   match r with
                   | g :: r' => if g =? 45 then (true, r')
                                else if g =? 43 then (false, r') else (false, r)
                   | [] => (false, r)
                   end = (eneg, r1) /\ (List.length r1 <= List.length r)%nat).
        { destruct r as [|g r']; [eexists _, _; split; [reflexivity | lia]|].
          destruct (g =? 45); [eexists _, _; split; [reflexivity | cbn; lia]|].
          destruct (g =? 43); eexists _, _; (split; [reflexivity | cbn; lia]). }
        destruct E as (eneg & r1 & E & L1).
        change jsstring with (list Z) in *.
        rewrite E in H.
        pose proof (span_digits_length r1) as L.
        destruct (JSON.span_digits r1) as [[|d ds] r2]; [discriminate H|].
        injection H as <- <-. cbn [snd List.length] in *. lia.
      + injection H as <- <-. reflexivity. }
  destruct (JSON.parse_exponent s3) as [[ex s4]|]; [|discriminate].
  specialize (S4 ex s4 eq_refl).
  intros H. injection H as <- <-. lia.
Qed.

Lemma starts_with_length lit s rest :
  JSON.starts_with lit s = Some rest -> (List.length rest <= List.length s)%nat.
Proof.
  unfold JSON.starts_with. destruct (jsstring_eqb _ _); [|discriminate].
  intros H. injection H as <-. rewrite length_skipn. lia.
Qed.

Ltac length_fact IHv IHm IHe :=
  match goal with
  | H : JSON.skip_ws ?s = _ |- _ =>
      let L := fresh "L" in
      pose proof (skip_ws_length s) as L; rewrite H in L; clear H
  | H : JSON.parse_string_chars _ = Some _ |- _ => apply parse_string_chars_length in H
  | H : JSON.parse_number _ = Some _ |- _ => apply parse_number_length in H
  | H : JSON.starts_with _ _ = Some _ |- _ => apply starts_with_length in H
  | H : JSON.parse_value _ _ = JSON.Parsed _ _ |- _ => apply IHv in H
  | H : JSON.parse_members _ _ _ = JSON.Parsed _ _ |- _ => apply IHm in H
  | H : JSON.parse_elements _ _ _ = JSON.Parsed _ _ |- _ => apply IHe in H
  end.

(** What a parser leaves is no longer than what it was given. *)
Lemma parse_rest_length fuel :
  (forall s v r, JSON.parse_value fuel s = JSON.Parsed v r ->
                 (List.length r <= List.length s)%nat)
  /\ (forall s acc v r, JSON.parse_members fuel s acc = JSON.Parsed v r ->
                        (List.length r <= List.length s)%nat)
  /\ (forall s acc v r, JSON.parse_elements fuel s acc = JSON.Parsed v r ->
                        (List.length r <= List.length s)%nat).
Proof.
  induction fuel as [|f (IHv & IHm & IHe)];
    [repeat split; intros; discriminate|].
  repeat split.
  - intros s v r H. cbn [JSON.parse_value] in H.
    break_match_hyp H; try (injection H as <- <-);
      repeat length_fact IHv IHm IHe; cbn [List.length] in *; lia.
  - intros s acc v r H. cbn [JSON.parse_members] in H.
    break_match_hyp H; try (injection H as <- <-);
      repeat length_fact IHv IHm IHe; cbn [List.length] in *; lia.
  - intros s acc v r H. cbn [JSON.parse_elements] in H.
    break_match_hyp H; try (injection H as <- <-);
      repeat length_fact IHv IHm IHe; cbn [List.length] in *; lia.
Qed.

Ltac out_of_fuel IHv IHm IHe :=
  match goal with
  | H : JSON.parse_value _ _ = JSON.OutOfFuel |- _ => exfalso; revert H; apply IHv
  | H : JSON.parse_members _ _ _ = JSON.OutOfFuel |- _ => exfalso; revert H; apply IHm
  | H : JSON.parse_elements _ _ _ = JSON.OutOfFuel |- _ => exfalso; revert H; apply IHe
  end.

Lemma fuel_suffices fuel :
  (forall s, (2 * List.length s < fuel)%nat ->
             JSON.parse_value fuel s <> JSON.OutOfFuel)
  /\ (forall s acc, (2 * List.length s + 2 <= fuel)%nat ->
                    JSON.parse_members fuel s acc <> JSON.OutOfFuel)
  /\ (forall s acc, (2 * List.length s + 2 <= fuel)%nat ->
                    JSON.parse_elements fuel s acc <> JSON.OutOfFuel).
Proof.
  induction fuel as [|f (IHv & IHm & IHe)]; [repeat split; intros; lia|].
  destruct (parse_rest_length f) as (Lv & Lm & Le).
  repeat split.
  - intros s B H. cbn [JSON.parse_value] in H.
    break_match_hyp H; try discriminate H;
      out_of_fuel IHv IHm IHe;
      repeat length_fact Lv Lm Le; cbn [List.length] in *; lia.
  - intros s acc B H. cbn [JSON.parse_members] in H.
    break_match_hyp H; try discriminate H;
      out_of_fuel IHv IHm IHe;
      repeat length_fact Lv Lm Le; cbn [List.length] in *; lia.
  - intros s acc B H. cbn [JSON.parse_elements] in H.
    break_match_hyp H; try discriminate H;
      out_of_fuel IHv IHm IHe;
      repeat length_fact Lv Lm Le; cbn [List.length] in *; lia.
Qed.

(** [JSON.parse] never answers for lack of fuel: [None] is the SyntaxError
    of a text that is not JSON. *)
Lemma parse_never_out_of_fuel text :
  JSON.parse_value (S (2 * List.length text)) text <> JSON.OutOfFuel.
Proof. apply (proj1 (fuel_suffices _)). lia. Qed.

(** ** Comparisons *)

Lemma leb_true x y : x <= y -> (x <=? y) = true.
Proof. intros. now apply Z.leb_le. Qed.

Lemma ltb_false x y : y <= x -> (x <? y) = false.
Proof. intros. now apply Z.ltb_ge. Qed.

Lemma ltb_true x y : x < y -> (x <? y) = true.
Proof. intros. now apply Z.ltb_lt. Qed.

Lemma leb_false x y : y < x -> (x <=? y) = false.
Proof. intros. now apply Z.leb_gt. Qed.

Lemma eqb_false x y : x <> y -> (x =? y) = false.
Proof. intros. now apply Z.eqb_neq. Qed.

(** ** The calendar *)

Lemma all_from_spec fuel : forall z P,
  all_from fuel z P = true -> forall x, z <= x < z + Z.of_nat fuel -> P x = true.
Proof.
  induction fuel as [|f IH]; intros z P H x Hx; [lia|].
  cbn [all_from] in H. apply andb_true_iff in H as [H0 H1].
  destruct (Z.eq_dec x z) as [->|N]; [exact H0|].
  apply (IH (z + 1) P H1). lia.
Qed.

(** The 146097 days of an era, one by one. *)
Lemma civil_agrees_in_an_era :
  all_from (Z.to_nat 146097) 0 civil_agrees = true.
Proof. vm_compute. reflexivity. Qed.

Lemma civil_from_days_era day :
  let era := (day + 719468) / 146097 in
  let doe := (day + 719468) mod 146097 in
  Date.civil_from_days day
  = let '(y, m, d) := Date.civil_from_days (doe - 719468) in (y + era * 400, m, d).
Proof.
  cbv zeta. unfold Date.civil_from_days.
  set (z := day + 719468).
  replace (z mod 146097 - 719468 + 719468) with (z mod 146097) by lia.
  assert (B : 0 <= z mod 146097 < 146097) by (apply Z.mod_pos_bound; lia).
  rewrite (Z.div_small (z mod 146097) 146097) by exact B.
  replace (z mod 146097 - 0 * 146097) with (z mod 146097) by lia.
  replace (z - z / 146097 * 146097) with (z mod 146097)
    by (rewrite Z.mod_eq by lia; lia).
  f_equal. f_equal. lia.
Qed.

Lemma InLeapYear_era y k : InLeapYear (y + k * 400) = InLeapYear y.
Proof.
  unfold InLeapYear.
  replace (y + k * 400) with (y + (k * 100) * 4) at 1 by lia.
  replace (y + k * 400) with (y + (k * 4) * 100) at 1 by lia.
  now rewrite !Z.mod_add by lia.
Qed.

Lemma DaysInMonth_era y k m : DaysInMonth (y + k * 400) m = DaysInMonth y m.
Proof. unfold DaysInMonth. now rewrite InLeapYear_era. Qed.

Lemma days_before_era y k n : days_before (y + k * 400) n = days_before y n.
Proof.
  induction n as [|n IH]; [reflexivity|].
  cbn [days_before]. now rewrite IH, DaysInMonth_era.
Qed.

Lemma DayFromYear_era y k : DayFromYear (y + k * 400) = DayFromYear y + k * 146097.
Proof.
  unfold DayFromYear.
  replace (y + k * 400 - 1969) with (y - 1969 + (k * 100) * 4) by lia.
  replace (y + k * 400 - 1901) with (y - 1901 + (k * 4) * 100) by lia.
  replace (y + k * 400 - 1601) with (y - 1601 + k * 400) by lia.
  rewrite !Z.div_add by lia. lia.
Qed.

Lemma MakeDay_era y k m d : MakeDay (y + k * 400) m d = MakeDay y m d + k * 146097.
Proof. unfold MakeDay. rewrite DayFromYear_era, days_before_era. lia. Qed.

(** [civil_from_days] is the calendar of ECMA-262: the date it gives for a
    day is a date of the calendar, and its day number is that day. *)
Lemma civil_from_days_spec day :
  let '(y, m, d) := Date.civil_from_days day in
  1 <= m <= 12 /\ 1 <= d <= DaysInMonth y m /\ MakeDay y m d = day
  /\ (day + 719468) / 146097 * 400 <= y <= (day + 719468) / 146097 * 400 + 400.
Proof.
  pose proof (civil_from_days_era day) as E. cbv zeta in E. rewrite E. clear E.
  set (era := (day + 719468) / 146097).
  set (doe := (day + 719468) mod 146097).
  assert (B : 0 <= doe < 146097) by (apply Z.mod_pos_bound; lia).
  pose proof (all_from_spec _ _ _ civil_agrees_in_an_era doe) as C.
  rewrite Z2Nat.id in C by lia. specialize (C ltac:(lia)).
  unfold civil_agrees in C.
  destruct (Date.civil_from_days (doe - 719468)) as [[y m] d].
  repeat (apply andb_true_iff in C as [C ?]).
  repeat match goal with H : (_ <=? _) = true |- _ => apply Z.leb_le in H end.
  match goal with H : (_ =? _) = true |- _ => apply Z.eqb_eq in H; rename H into M end.
  rewrite DaysInMonth_era, MakeDay_era, M.
  assert (D : day + 719468 = 146097 * era + doe) by (apply Z.div_mod; lia).
  repeat split; lia.
Qed.

Lemma take_digits_snoc n : forall acc s v r c rest,
  take_digits n acc s = Some (v, r) ->
  r = c :: rest -> JSON.is_digit c = true ->
  take_digits (S n) acc s = Some (10 * v + (c - 48), rest).
Proof.
  induction n as [|n IH]; intros acc s v r c rest H E D.
  - subst r. cbn [take_digits] in *. injection H as -> ->. now rewrite D.
  - destruct s as [|c0 s]; [discriminate H|].
    cbn [take_digits] in H. change (take_digits (S (S n)) acc (c0 :: s))
      with (if JSON.is_digit c0 then take_digits (S n) (10 * acc + (c0 - 48)) s else None).
    destruct (JSON.is_digit c0); [|discriminate H].
    now apply (IH _ _ _ _ _ _ H E).
Qed.

Lemma take_digits_fixed width : forall n rest,
  0 <= n ->
  take_digits width 0 (digits_fixed width n ++ rest)
  = Some (n mod 10 ^ Z.of_nat width, rest).
Proof.
  induction width as [|w IH]; intros n rest Hn.
  - cbn. now rewrite Z.mod_1_r.
  - cbn [digits_fixed]. rewrite <- app_assoc. cbn [app].
    assert (Hq : 0 <= n / 10) by (apply Z.div_pos; lia).
    assert (Hr : 0 <= n mod 10 < 10) by (apply Z.mod_pos_bound; lia).
    rewrite (take_digits_snoc w 0 _ _ _ (48 + n mod 10) rest (IH (n / 10) _ Hq) eq_refl)
      by (unfold JSON.is_digit; rewrite !leb_true by lia; reflexivity).
    f_equal. f_equal.
    rewrite Nat2Z.inj_succ, Z.pow_succ_r by lia.
    assert (P : 0 < 10 ^ Z.of_nat w) by (apply Z.pow_pos_nonneg; lia).
    rewrite (Z.mul_comm 10), Z.rem_mul_r by lia. lia.
Qed.

Lemma then_digits_fixed {A} width n rest (k : Z -> jsstring -> option A) :
  0 <= n < 10 ^ Z.of_nat width ->
  then_digits width (Some (digits_fixed width n ++ rest)) k = k n rest.
Proof.
  intros H. unfold then_digits. rewrite take_digits_fixed by lia.
  now rewrite Z.mod_small by exact H.
Qed.

(** Reading back the timestamp of a time value gives the time value. *)
Lemma read_timestamp_toISOString t :
  time_value t -> read_timestamp (Date.toISOString t) = Some t.
Proof.
  intros T. unfold time_value in T. unfold Date.toISOString.
  pose proof (civil_from_days_spec (t / Date.msPerDay)) as C.
  destruct (Date.civil_from_days (t / Date.msPerDay)) as [[y m] d].
  destruct C as (Hm & Hd & Hday & Hy).
  unfold Date.msPerDay in *.
  set (ms := t mod 86400000).
  assert (Bms : 0 <= ms < 86400000) by (apply Z.mod_pos_bound; lia).
  assert (Bday : -100000000 <= t / 86400000 <= 100000000) by div_lia.
  assert (Bera : -690 <= (t / 86400000 + 719468) / 146097 <= 690) by div_lia.
  assert (By : -999999 <= y <= 999999) by lia.
  assert (Bd : d <= 31).
  { unfold DaysInMonth in Hd.
    destruct (m =? 2); [destruct (InLeapYear y); lia|]. destruct (_ || _); lia. }
  assert (Bh : 0 <= ms / 3600000 <= 23) by div_lia.
  assert (Bmi : 0 <= ms / 60000 mod 60 <= 59) by (pose proof (Z.mod_pos_bound (ms / 60000) 60); lia).
  assert (Bs : 0 <= ms / 1000 mod 60 <= 59) by (pose proof (Z.mod_pos_bound (ms / 1000) 60); lia).
  assert (Bl : 0 <= ms mod 1000 < 1000) by (apply Z.mod_pos_bound; lia).
  assert (V : t / 86400000 * 86400000 + ms / 3600000 * 3600000 + ms / 60000 mod 60 * 60000
              + ms / 1000 mod 60 * 1000 + ms mod 1000 = t) by (subst ms; div_lia).
  change (str "-") with [45]. change (str "+") with [43]. change (str "T") with [84].
  change (str ":") with [58]. change (str ".") with [46]. change (str "Z") with [90].
  assert (Tail : forall (sign : Z) width year,
             0 <= year < 10 ^ Z.of_nat width -> sign * year = y ->
             ((sign =? -1) && (year =? 0)) = false ->
             then_digits width
               (Some (digits_fixed width year ++ [45] ++ digits_fixed 2 m ++ [45]
                      ++ digits_fixed 2 d ++ [84] ++ digits_fixed 2 (ms / 3600000)
                      ++ [58] ++ digits_fixed 2 (ms / 60000 mod 60)
                      ++ [58] ++ digits_fixed 2 (ms / 1000 mod 60)
                      ++ [46] ++ digits_fixed 3 (ms mod 1000) ++ [90]))
               (fun year s1 =>
  then_digits 2 (expect 45 s1) (fun month s2 =>
  then_digits 2 (expect 45 s2) (fun day s3 =>
  then_digits 2 (expect 84 s3) (fun hour s4 =>
  then_digits 2 (expect 58 s4) (fun minute s5 =>
  then_digits 2 (expect 58 s5) (fun second s6 =>
  then_digits 3 (expect 46 s6) (fun ms s7 =>
    match expect 90 s7 with
    | Some [] =>
        let y := sign * year in
        if (1 <=? month) && (month <=? 12) && (1 <=? day) && (day <=? DaysInMonth y month)
           && (hour <=? 23) && (minute <=? 59) && (second <=? 59)
           && negb ((sign =? -1) && (year =? 0))
        then Some (MakeDay y month day * 86400000
                   + hour * 3600000 + minute * 60000 + second * 1000 + ms)
        else None
    | _ => None
    end))))))) = Some t).
  { intros sign width year Hyear Hsign Hzero.
    rewrite then_digits_fixed by exact Hyear. cbn [app expect]. change (45 =? 45) with true.
    cbv iota. rewrite then_digits_fixed by (cbn; lia). cbn [app expect].
    change (45 =? 45) with true. cbv iota.
    rewrite then_digits_fixed by (cbn; lia). cbn [app expect].
    change (84 =? 84) with true. cbv iota.
    rewrite then_digits_fixed by (cbn; lia). cbn [app expect].
    change (58 =? 58) with true. cbv iota.
    rewrite then_digits_fixed by (cbn; lia). cbn [app expect].
    change (58 =? 58) with true. cbv iota.
    rewrite then_digits_fixed by (cbn; lia). cbn [app expect].
    change (46 =? 46) with true. cbv iota.
    rewrite then_digits_fixed by (cbn; lia). cbn [app expect].
    change (90 =? 90) with true. cbv iota. cbv zeta.
    rewrite Hsign, Hzero. rewrite !leb_true by lia. cbn [andb negb].
    rewrite Hday. f_equal. lia. }
  destruct ((0 <=? y) && (y <=? 9999)) eqn:R.
  - apply andb_true_iff in R as [R1 R2]. apply Z.leb_le in R1, R2.
    assert (N : exists c r, digits_fixed 4 y = c :: r /\ 48 <= c <= 57).
    { cbn [digits_fixed app]. eexists _, _. split; [reflexivity|].
      pose proof (Z.mod_pos_bound (y / 10 / 10 / 10) 10). lia. }
    destruct N as (c & r & E & Hc).
    unfold read_timestamp. rewrite <- ?app_assoc. rewrite E. cbn [app].
    rewrite !eqb_false by lia.
    match goal with
    | |- context [Some (c :: r ++ ?x)] => change (c :: r ++ x) with ((c :: r) ++ x)
    end.
    rewrite <- E.
    apply (Tail 1 4%nat y); [cbn; lia | lia | reflexivity].
  - assert (Ry : y < 0 \/ 9999 < y).
    { apply andb_false_iff in R as [R | R]; [apply Z.leb_gt in R | apply Z.leb_gt in R]; lia. }
    destruct (Z.ltb_spec y 0) as [Neg|Pos].
    + unfold read_timestamp. rewrite <- ?app_assoc. cbn [app].
      change (45 =? 43) with false. change (45 =? 45) with true. cbv iota.
      apply (Tail (-1) 6%nat (Z.abs y)); [cbn; lia | lia|].
      rewrite (eqb_false (Z.abs y) 0) by lia. reflexivity.
    + unfold read_timestamp. rewrite <- ?app_assoc. cbn [app].
      change (43 =? 43) with true. cbv iota.
      apply (Tail 1 6%nat (Z.abs y)); [cbn; lia | lia | reflexivity].
Qed.

(** ** The event log: successful deliveries *)

Section EventLog.

Variable syntax_error_message : jsstring -> jsstring.

Lemma deliver_then_complete now bytes event rest w :
  fs_pending w = [] ->
  JSON.parse (Buffer.toString bytes) = Some event ->
  run syntax_error_message
      (Deliver now (Some {| content := ContentBuffer bytes |})
       :: FsComplete 0 Written :: rest) w
  = run syntax_error_message rest
        (mkWorld (channel w) (history w) (console_out w ++ [logged_line])
                 (fs.append (files w) log_path (record now event))
                 [] (responses w)).
Proof.
  intros Hp H. cbn [run step]. unfold bind at 1.
  rewrite (on_message_decoded syntax_error_message now bytes event w H). rewrite Hp.
  unfold bind at 1. reflexivity.
Qed.

Lemma single_line_count r : single_line r -> count_occ Z.eq_dec r 10 = 1%nat.
Proof.
  intros (line & -> & H). rewrite count_occ_app. cbn.
  assert (E : count_occ Z.eq_dec line 10 = 0%nat).
  { apply count_occ_not_In. intros Hin. unfold no_lf in H.
    rewrite Forall_forall in H. now apply (H 10 Hin). }
  rewrite E. reflexivity.
Qed.

Lemma records_single_lines ds events : Forall single_line (records ds events).
Proof.
  revert events.
  induction ds as [|[now bytes] ds IH]; intros [|ev events]; cbn [records];
    constructor; [apply single_line_record | apply IH].
Qed.

Lemma concat_single_lines_count rs :
  Forall single_line rs -> count_occ Z.eq_dec (List.concat rs) 10 = List.length rs.
Proof.
  induction 1 as [|r rs Hr _ IH]; [reflexivity|].
  cbn [List.concat List.length]. rewrite count_occ_app, IH, (single_line_count r Hr).
  reflexivity.
Qed.

Lemma deliveries_run ds events w :
  fs_pending w = [] ->
  Forall2 (fun d event => JSON.parse (Buffer.toString (snd d)) = Some event) ds events ->
  fst (run syntax_error_message (deliveries ds) w) = Return tt
  /\ log_content (snd (run syntax_error_message (deliveries ds) w))
     = log_content w ++ List.concat (records ds events)
  /\ fs_pending (snd (run syntax_error_message (deliveries ds) w)) = []
  /\ forall p, p <> log_path ->
       fs.read (files (snd (run syntax_error_message (deliveries ds) w))) p
       = fs.read (files w) p.
Proof.
  intros Hp H. revert w Hp.
  induction H as [|[now bytes] event ds events Hd _ IH]; intros w Hp.
  - cbn. rewrite app_nil_r. auto.
  - cbn [deliveries records snd] in *.
    rewrite (deliver_then_complete now bytes event (deliveries ds) w Hp Hd).
    match goal with |- context [run _ (deliveries ds) ?w2] => set (w1 := w2) end.
    destruct (IH w1 eq_refl) as (I1 & I2 & I3 & I4).
    repeat split; try assumption.
    + rewrite I2. unfold log_content at 1. subst w1. cbn [files].
      rewrite read_append_same. cbn [List.concat]. fold (log_content w).
      now rewrite <- app_assoc.
    + intros p Hne. rewrite (I4 p Hne). subst w1. cbn [files].
      now apply read_append_other.
Qed.

(** ** The event log: any schedule *)

Lemma remove_nth_Forall {A} (P : A -> Prop) i l :
  Forall P l -> Forall P (remove_nth i l).
Proof.
  intros H. revert i. induction H as [|x l Hx Hl IH]; intros i.
  - destruct i; constructor.
  - destruct i; cbn [remove_nth]; [assumption | constructor; auto].
Qed.

Lemma nth_error_Forall {A} (P : A -> Prop) i l x :
  Forall P l -> nth_error l i = Some x -> P x.
Proof.
  intros H E. rewrite Forall_forall in H. apply H. eapply nth_error_In. exact E.
Qed.

Lemma on_message_effect now msg w :
  Forall log_request (fs_pending w) ->
  Forall log_request (fs_pending (snd (on_message syntax_error_message now msg w)))
  /\ files (snd (on_message syntax_error_message now msg w)) = files w.
Proof.
  intros P. split; [|apply on_message_files].
  destruct msg as [[c]|]; [|exact P].
  destruct c as [bytes| | | | | |]; try exact P.
  destruct (JSON.parse (Buffer.toString bytes)) as [event|] eqn:E.
  - rewrite (on_message_decoded syntax_error_message now bytes event w E).
    cbn [snd fs_pending].
    apply Forall_app. split; [exact P|].
    constructor; [|constructor]. split; [reflexivity|]. exists now, event. reflexivity.
  - rewrite (on_message_rejected syntax_error_message now bytes w E). exact P.
Qed.

(** One step of the loop adds to the log what the append it completes
    wrote, if it completes one - the whole record, or the beginning of it
    when the write failed - and nothing else. *)
Lemma step_effect s w :
  Forall log_request (fs_pending w) ->
  exists ps,
    log_content (snd (step syntax_error_message s w))
    = log_content w ++ List.concat (map piece ps)
    /\ Forall (fun p => single_line (fst p)) ps
    /\ List.length (filter whole ps) = completes s w
    /\ (List.length (filter (fun p => negb (whole p)) ps) <= List.length (fails s w))%nat
    /\ Forall log_request (fs_pending (snd (step syntax_error_message s w)))
    /\ forall p, p <> log_path ->
         fs.read (files (snd (step syntax_error_message s w))) p = fs.read (files w) p.
Proof.
  intros P. destruct s as [now msg|i c]; cbn [step completes fails].
  - destruct (on_message_effect now msg w P) as [P' F].
    exists []. unfold log_content. rewrite F, app_nil_r. cbn. repeat split; auto.
  - unfold fs_complete.
    destruct (nth_error (fs_pending w) i) as [req|] eqn:E.
    + destruct (nth_error_Forall _ _ _ _ P E) as [Hp (now & event & Hd)].
      assert (L : single_line (Buffer.from (req_data req)))
        by (rewrite Hd; apply single_line_entry).
      destruct c as [|e [n|]]; cbn [callback_error bytes_written appendFile_callback].
      * exists [(Buffer.from (req_data req), None)].
        cbn [snd console.log console.write]. unfold log_content. cbn [files fs_pending].
        rewrite Hp, read_append_same. cbn [map piece List.concat]. rewrite app_nil_r.
        repeat split; auto using remove_nth_Forall.
        intros p Hne. now apply read_append_other.
      * exists [(Buffer.from (req_data req), Some n)].
        cbn [snd console.error console.write]. unfold log_content. cbn [files fs_pending].
        rewrite Hp, read_append_same. cbn [map piece List.concat]. rewrite app_nil_r.
        repeat split; auto using remove_nth_Forall.
        intros p Hne. now apply read_append_other.
      * exists []. cbn. rewrite app_nil_r.
        repeat split; auto using remove_nth_Forall.
    + exists []. destruct c as [|e o]; cbn; rewrite app_nil_r; repeat split; auto.
Qed.

(** Under any schedule the log gains what the appends that complete wrote,
    a whole record for each one that completes without error, and no other
    file changes. *)
Lemma run_effect steps : forall w,
  Forall log_request (fs_pending w) ->
  exists ps,
    log_content (snd (run syntax_error_message steps w))
    = log_content w ++ List.concat (map piece ps)
    /\ Forall (fun p => single_line (fst p)) ps
    /\ List.length (filter whole ps) = completions syntax_error_message steps w
    /\ (List.length (filter (fun p => negb (whole p)) ps)
        <= List.length (failures syntax_error_message steps w))%nat
    /\ forall p, p <> log_path ->
         fs.read (files (snd (run syntax_error_message steps w))) p = fs.read (files w) p.
Proof.
  induction steps as [|s steps IH]; intros w P.
  - exists []. cbn. rewrite app_nil_r. auto.
  - destruct (step_effect s w P) as (ps1 & L1 & S1 & N1 & F1 & P1 & O1).
    cbn [run completions failures]. unfold bind.
    destruct (step syntax_error_message s w) as [[[]|e] w1]; cbn [snd] in *.
    + destruct (IH w1 P1) as (ps2 & L2 & S2 & N2 & F2 & O2).
      exists (ps1 ++ ps2).
      rewrite L2, L1, map_app, concat_app, !filter_app, !length_app, N1, N2, app_assoc.
      repeat split; [now apply Forall_app | lia|].
      intros p Hne. now rewrite O2, O1.
    + exists ps1. auto.
Qed.


End EventLog.


(** ** UTF-8: decoding what was encoded *)

Lemma toString_one_byte b rest :
  b < 128 -> Buffer.toString (b :: rest) = b :: Buffer.toString rest.
Proof.
  intros H. cbn [Buffer.toString]. now rewrite ltb_true.
Qed.

Lemma toString_two_bytes b0 b1 rest :
  194 <= b0 <= 223 -> 128 <= b1 <= 191 ->
  Buffer.toString (b0 :: b1 :: rest)
  = Buffer.units_of_code_point ((b0 - 192) * 64 + (b1 - 128)) ++ Buffer.toString rest.
Proof.
  intros H0 H1. cbn [Buffer.toString]. unfold Buffer.is_continuation.
  rewrite (ltb_false b0 128) by lia.
  rewrite (leb_true 194 b0), (leb_true b0 223), (leb_true 128 b1), (leb_true b1 191) by lia.
  reflexivity.
Qed.

Lemma toString_three_bytes b0 b1 b2 rest :
  224 <= b0 <= 239 ->
  Buffer.second_lower b0 <= b1 <= Buffer.second_upper b0 ->
  128 <= b2 <= 191 ->
  Buffer.toString (b0 :: b1 :: b2 :: rest)
  = Buffer.units_of_code_point ((b0 - 224) * 4096 + (b1 - 128) * 64 + (b2 - 128))
    ++ Buffer.toString rest.
Proof.
  intros H0 H1 H2. cbn [Buffer.toString]. unfold Buffer.is_continuation.
  rewrite (ltb_false b0 128) by lia.
  rewrite (leb_false b0 223) by lia. rewrite andb_false_r.
  rewrite (leb_true 224 b0), (leb_true b0 239) by lia.
  rewrite (leb_true _ b1), (leb_true b1 _) by lia.
  rewrite (leb_true 128 b2), (leb_true b2 191) by lia.
  reflexivity.
Qed.

Lemma toString_four_bytes b0 b1 b2 b3 rest :
  240 <= b0 <= 244 ->
  Buffer.second_lower b0 <= b1 <= Buffer.second_upper b0 ->
  128 <= b2 <= 191 -> 128 <= b3 <= 191 ->
  Buffer.toString (b0 :: b1 :: b2 :: b3 :: rest)
  = Buffer.units_of_code_point
      ((b0 - 240) * 262144 + (b1 - 128) * 4096 + (b2 - 128) * 64 + (b3 - 128))
    ++ Buffer.toString rest.
Proof.
  intros H0 H1 H2 H3. cbn [Buffer.toString]. unfold Buffer.is_continuation.
  rewrite (ltb_false b0 128) by lia.
  rewrite (leb_false b0 223) by lia. rewrite andb_false_r.
  rewrite (leb_false b0 239) by lia. rewrite andb_false_r.
  rewrite (leb_true 240 b0), (leb_true b0 244) by lia.
  rewrite (leb_true _ b1), (leb_true b1 _) by lia.
  rewrite (leb_true 128 b2), (leb_true b2 191) by lia.
  rewrite (leb_true 128 b3), (leb_true b3 191) by lia.
  reflexivity.
Qed.

Lemma second_bounds b0 :
  Buffer.second_lower b0 = (if b0 =? 224 then 160 else if b0 =? 240 then 144 else 128)
  /\ Buffer.second_upper b0 = (if b0 =? 237 then 159 else if b0 =? 244 then 143 else 191).
Proof. split; reflexivity. Qed.

Lemma toString_code_point cp rest :
  0 <= cp < 55296 \/ 57344 <= cp < 1114112 ->
  Buffer.toString (Buffer.utf8_of_code_point cp ++ rest)
  = Buffer.units_of_code_point cp ++ Buffer.toString rest.
Proof.
  intros H. unfold Buffer.utf8_of_code_point.
  destruct (Z.ltb_spec cp 128) as [L1|L1].
  { cbn [app]. rewrite toString_one_byte by lia.
    unfold Buffer.units_of_code_point. rewrite ltb_true by lia. reflexivity. }
  destruct (Z.ltb_spec cp 2048) as [L2|L2].
  { cbn [app].
    pose proof (Z.div_mod cp 64 ltac:(lia)) as E.
    pose proof (Z.mod_pos_bound cp 64 ltac:(lia)) as B.
    set (a := cp / 64) in *. set (b := cp mod 64) in *.
    rewrite toString_two_bytes by lia.
    do 2 f_equal. lia. }
  destruct (Z.ltb_spec cp 65536) as [L3|L3].
  { cbn [app].
    pose proof (Z.div_mod cp 64 ltac:(lia)) as E.
    pose proof (Z.mod_pos_bound cp 64 ltac:(lia)) as B.
    pose proof (Z.div_mod (cp / 64) 64 ltac:(lia)) as E'.
    pose proof (Z.mod_pos_bound (cp / 64) 64 ltac:(lia)) as B'.
    assert (D : cp / 64 / 64 = cp / 4096) by (rewrite Z.div_div by lia; reflexivity).
    rewrite D in E'.
    set (c := cp mod 64) in *. set (b := (cp / 64) mod 64) in *.
    set (a := cp / 4096) in *. set (q := cp / 64) in *.
    rewrite toString_three_bytes.
    - do 2 f_equal. lia.
    - lia.
    - destruct (second_bounds (224 + a)) as [-> ->].
      destruct (Z.eqb_spec (224 + a) 224), (Z.eqb_spec (224 + a) 237),
        (Z.eqb_spec (224 + a) 240), (Z.eqb_spec (224 + a) 244); lia.
    - lia. }
  cbn [app].
  pose proof (Z.div_mod cp 64 ltac:(lia)) as E.
  pose proof (Z.mod_pos_bound cp 64 ltac:(lia)) as B.
  pose proof (Z.div_mod (cp / 64) 64 ltac:(lia)) as E'.
  pose proof (Z.mod_pos_bound (cp / 64) 64 ltac:(lia)) as B'.
  pose proof (Z.div_mod (cp / 4096) 64 ltac:(lia)) as E''.
  pose proof (Z.mod_pos_bound (cp / 4096) 64 ltac:(lia)) as B''.
  assert (D : cp / 64 / 64 = cp / 4096) by (rewrite Z.div_div by lia; reflexivity).
  assert (D' : cp / 4096 / 64 = cp / 262144) by (rewrite Z.div_div by lia; reflexivity).
  rewrite D in E'. rewrite D' in E''.
  set (d := cp mod 64) in *. set (c := (cp / 64) mod 64) in *.
  set (b := (cp / 4096) mod 64) in *. set (a := cp / 262144) in *.
  set (q := cp / 64) in *. set (q' := cp / 4096) in *.
  rewrite toString_four_bytes.
  - do 2 f_equal. lia.
  - lia.
  - destruct (second_bounds (240 + a)) as [-> ->].
    destruct (Z.eqb_spec (240 + a) 224), (Z.eqb_spec (240 + a) 237),
      (Z.eqb_spec (240 + a) 240), (Z.eqb_spec (240 + a) 244); lia.
  - lia.
  - lia.
Qed.

Lemma well_formed_cons c rest :
  well_formed (c :: rest)
  = if is_leading_surrogate c then
      match rest with
      | d :: rest' => is_trailing_surrogate d = true /\ well_formed rest'
      | [] => False
      end
    else is_trailing_surrogate c = false /\ code_unit c /\ well_formed rest.
Proof. reflexivity. Qed.

Lemma surrogate_tests c :
  (is_leading_surrogate c = true <-> 55296 <= c <= 56319)
  /\ (is_trailing_surrogate c = true <-> 56320 <= c <= 57343).
Proof.
  unfold is_leading_surrogate, is_trailing_surrogate.
  rewrite !andb_true_iff, !Z.leb_le. tauto.
Qed.

Lemma not_leading c : is_leading_surrogate c = false -> c < 55296 \/ 56319 < c.
Proof.
  intros H. destruct (proj1 (surrogate_tests c)) as [_ T].
  destruct (Z.le_gt_cases 55296 c); destruct (Z.le_gt_cases c 56319); try lia.
  rewrite T in H by lia. discriminate H.
Qed.

Lemma not_trailing c : is_trailing_surrogate c = false -> c < 56320 \/ 57343 < c.
Proof.
  intros H. destruct (proj2 (surrogate_tests c)) as [_ T].
  destruct (Z.le_gt_cases 56320 c); destruct (Z.le_gt_cases c 57343); try lia.
  rewrite T in H by lia. discriminate H.
Qed.

Lemma units_of_pair c d :
  55296 <= c <= 56319 -> 56320 <= d <= 57343 ->
  Buffer.units_of_code_point (65536 + (c - 55296) * 1024 + (d - 56320)) = [c; d].
Proof.
  intros Hc Hd. unfold Buffer.units_of_code_point.
  rewrite ltb_false by lia.
  replace (65536 + (c - 55296) * 1024 + (d - 56320) - 65536)
    with ((d - 56320) + (c - 55296) * 1024) by lia.
  rewrite Z.div_add, Z.mod_add by lia.
  rewrite Z.div_small, Z.mod_small by lia.
  f_equal; [lia | f_equal; lia].
Qed.

(** Well-formed UTF-16 survives the passage through a Buffer. *)
Lemma utf8_round_trip s :
  well_formed s -> Buffer.toString (Buffer.from s) = s.
Proof.
  induction s as [|c|c d s IH1 IH2] using list_ind2; intros W.
  - reflexivity.
  - rewrite well_formed_cons in W. cbn [Buffer.from].
    destruct (is_leading_surrogate c) eqn:L; [contradiction|].
    destruct W as (T & U & _). rewrite T.
    apply not_leading in L. apply not_trailing in T. unfold code_unit in U.
    rewrite toString_code_point by lia.
    unfold Buffer.units_of_code_point. rewrite ltb_true by lia. reflexivity.
  - rewrite well_formed_cons in W. rewrite from_cons_cons.
    destruct (is_leading_surrogate c) eqn:L.
    + destruct W as (T & W). rewrite T.
      apply surrogate_tests in L. apply surrogate_tests in T.
      rewrite toString_code_point by lia.
      rewrite units_of_pair by lia. rewrite (IH1 W). reflexivity.
    + destruct W as (T & U & W). rewrite T.
      apply not_leading in L. apply not_trailing in T. unfold code_unit in U.
      rewrite toString_code_point by lia.
      unfold Buffer.units_of_code_point. rewrite ltb_true by lia.
      rewrite (IH2 W). reflexivity.
Qed.

Lemma well_formed_non_surrogate c rest :
  non_surrogate c -> well_formed rest -> well_formed (c :: rest).
Proof.
  intros H W. rewrite well_formed_cons.
  assert (L : is_leading_surrogate c = false).
  { destruct (is_leading_surrogate c) eqn:E; [|reflexivity].
    apply surrogate_tests in E. unfold non_surrogate in H. lia. }
  assert (T : is_trailing_surrogate c = false).
  { destruct (is_trailing_surrogate c) eqn:E; [|reflexivity].
    apply surrogate_tests in E. unfold non_surrogate in H. lia. }
  rewrite L. unfold code_unit, non_surrogate in *. repeat split; try assumption; lia.
Qed.

Lemma well_formed_plain s : Forall non_surrogate s -> well_formed s.
Proof.
  induction 1 as [|c s Hc _ IH]; [exact I|]. now apply well_formed_non_surrogate.
Qed.

Lemma well_formed_app a b : well_formed a -> well_formed b -> well_formed (a ++ b).
Proof.
  intros Wa Wb. induction a as [|c|c d a IH1 IH2] using list_ind2.
  - exact Wb.
  - rewrite well_formed_cons in Wa. cbn [app]. rewrite well_formed_cons.
    destruct (is_leading_surrogate c); [contradiction|].
    destruct Wa as (T & U & _). auto.
  - rewrite well_formed_cons in Wa.
    change ((c :: d :: a) ++ b) with (c :: (d :: a) ++ b).
    rewrite well_formed_cons.
    destruct (is_leading_surrogate c).
    + cbn [app]. destruct Wa as (T & Wa). auto.
    + destruct Wa as (T & U & Wa). auto.
Qed.

(** ** The encoding of strings *)

Lemma hex_digit_range d :
  0 <= d < 16 -> 48 <= JSON.hex_digit d <= 57 \/ 97 <= JSON.hex_digit d <= 102.
Proof. intros H. unfold JSON.hex_digit. destruct (Z.ltb_spec d 10); lia. Qed.

Lemma hex_value_hex_digit d : 0 <= d < 16 -> JSON.hex_value (JSON.hex_digit d) = Some d.
Proof.
  intros H. unfold JSON.hex_digit, JSON.hex_value, JSON.is_digit.
  destruct (Z.ltb_spec d 10).
  - rewrite (leb_true 48), (leb_true _ 57) by lia. cbn [andb]. f_equal. lia.
  - rewrite (leb_false _ 57) by lia. rewrite andb_false_r.
    rewrite (leb_true 97), (leb_true _ 102) by lia. cbn [andb]. f_equal. lia.
Qed.

Lemma hex4_UnicodeEscape c :
  code_unit c ->
  JSON.hex4 (JSON.hex_digit (c / 4096 mod 16)) (JSON.hex_digit (c / 256 mod 16))
            (JSON.hex_digit (c / 16 mod 16)) (JSON.hex_digit (c mod 16)) = Some c.
Proof.
  intros U. unfold code_unit in U. unfold JSON.hex4.
  rewrite !hex_value_hex_digit by (apply Z.mod_pos_bound; lia).
  f_equal. div_lia.
Qed.

Lemma parse_string_raw c r :
  c <> 34 -> c <> 92 -> 32 <= c ->
  JSON.parse_string_chars (c :: r) = JSON.cons_chars c (JSON.parse_string_chars r).
Proof.
  intros H1 H2 H3. cbn [JSON.parse_string_chars].
  rewrite !eqb_false by assumption. rewrite ltb_false by assumption. reflexivity.
Qed.

Lemma parse_string_escape e u r :
  JSON.unescape e = Some u -> e <> 117 ->
  JSON.parse_string_chars (92 :: e :: r) = JSON.cons_chars u (JSON.parse_string_chars r).
Proof.
  intros H1 H2. cbn [JSON.parse_string_chars].
  change (92 =? 34) with false. change (92 =? 92) with true. cbv iota.
  rewrite eqb_false by assumption. rewrite H1. reflexivity.
Qed.

Lemma parse_string_unicode h3 h2 h1 h0 u r :
  JSON.hex4 h3 h2 h1 h0 = Some u ->
  JSON.parse_string_chars (92 :: 117 :: h3 :: h2 :: h1 :: h0 :: r)
  = JSON.cons_chars u (JSON.parse_string_chars r).
Proof.
  intros H. cbn [JSON.parse_string_chars].
  change (92 =? 34) with false. change (92 =? 92) with true.
  change (117 =? 117) with true. cbv iota. rewrite H. reflexivity.
Qed.

(** The parser reads back one quoted code unit. *)
Lemma parse_quote_unit c r :
  code_unit c ->
  JSON.parse_string_chars (JSON.quote_unit c ++ r)
  = JSON.cons_chars c (JSON.parse_string_chars r).
Proof.
  intros U. unfold JSON.quote_unit.
  destruct (Z.eqb_spec c 8) as [->|N1]; [now apply parse_string_escape|].
  destruct (Z.eqb_spec c 9) as [->|N2]; [now apply parse_string_escape|].
  destruct (Z.eqb_spec c 10) as [->|N3]; [now apply parse_string_escape|].
  destruct (Z.eqb_spec c 12) as [->|N4]; [now apply parse_string_escape|].
  destruct (Z.eqb_spec c 13) as [->|N5]; [now apply parse_string_escape|].
  destruct (Z.eqb_spec c 34) as [->|N6]; [now apply parse_string_escape|].
  destruct (Z.eqb_spec c 92) as [->|N7]; [now apply parse_string_escape|].
  destruct ((c <? 32) || is_leading_surrogate c || is_trailing_surrogate c) eqn:E.
  - unfold JSON.UnicodeEscape. cbn [app].
    apply parse_string_unicode. now apply hex4_UnicodeEscape.
  - apply orb_false_iff in E as [E _]. apply orb_false_iff in E as [E _].
    apply Z.ltb_ge in E. cbn [app]. now apply parse_string_raw.
Qed.

Lemma quote_chars_cons_cons c d s :
  JSON.quote_chars (c :: d :: s)
  = if is_leading_surrogate c then
      if is_trailing_surrogate d then c :: d :: JSON.quote_chars s
      else JSON.quote_unit c ++ JSON.quote_chars (d :: s)
    else JSON.quote_unit c ++ JSON.quote_chars (d :: s).
Proof. reflexivity. Qed.

Lemma quote_chars_one c : JSON.quote_chars [c] = JSON.quote_unit c.
Proof.
  cbn [JSON.quote_chars]. destruct (is_leading_surrogate c); now rewrite ?app_nil_r.
Qed.

(** [JSON.parse] reads back the characters [JSON.stringify] wrote for a
    string, up to the closing quote. *)
Lemma parse_quote_chars s rest :
  Forall code_unit s ->
  JSON.parse_string_chars (JSON.quote_chars s ++ 34 :: rest) = Some (s, rest).
Proof.
  induction s as [|c|c d s IH1 IH2] using list_ind2; intros U.
  - reflexivity.
  - rewrite quote_chars_one. inversion_clear U as [|? ? Uc _].
    rewrite parse_quote_unit by assumption. reflexivity.
  - inversion U as [|? ? Uc U']. subst. inversion U' as [|? ? Ud U'']. subst.
    rewrite quote_chars_cons_cons.
    destruct (is_leading_surrogate c) eqn:L;
      [destruct (is_trailing_surrogate d) eqn:T|].
    + apply surrogate_tests in L. apply surrogate_tests in T.
      cbn [app]. rewrite !parse_string_raw by lia. rewrite (IH1 U''). reflexivity.
    + rewrite <- app_assoc, parse_quote_unit by assumption.
      rewrite (IH2 U'). reflexivity.
    + rewrite <- app_assoc, parse_quote_unit by assumption.
      rewrite (IH2 U'). reflexivity.
Qed.

Lemma non_surrogate_ascii c : 0 <= c < 128 -> non_surrogate c.
Proof. unfold non_surrogate. lia. Qed.

Lemma well_formed_quote_unit c :
  code_unit c -> Forall non_surrogate (JSON.quote_unit c).
Proof.
  intros U. unfold JSON.quote_unit.
  assert (A : forall a b, 0 <= a < 128 -> 0 <= b < 128 -> Forall non_surrogate [a; b])
    by (intros; constructor; [now apply non_surrogate_ascii|];
        constructor; [now apply non_surrogate_ascii | constructor]).
  destruct (c =? 8); [apply A; cbn; lia|].
  destruct (c =? 9); [apply A; cbn; lia|].
  destruct (c =? 10); [apply A; cbn; lia|].
  destruct (c =? 12); [apply A; cbn; lia|].
  destruct (c =? 13); [apply A; cbn; lia|].
  destruct (c =? 34); [apply A; cbn; lia|].
  destruct (c =? 92); [apply A; cbn; lia|].
  destruct ((c <? 32) || is_leading_surrogate c || is_trailing_surrogate c) eqn:E.
  - unfold JSON.UnicodeEscape.
    assert (H : forall d, 0 <= d < 16 -> non_surrogate (JSON.hex_digit d)).
    { intros d Hd. apply non_surrogate_ascii. pose proof (hex_digit_range d Hd). lia. }
    repeat apply Forall_cons; try apply Forall_nil;
      try (apply non_surrogate_ascii; lia);
      apply H; apply Z.mod_pos_bound; lia.
  - apply orb_false_iff in E as [E T]. apply orb_false_iff in E as [_ L].
    apply not_leading in L. apply not_trailing in T.
    apply Forall_cons; [|apply Forall_nil]. unfold non_surrogate, code_unit in *. lia.
Qed.

Lemma well_formed_quote_chars s :
  Forall code_unit s -> well_formed (JSON.quote_chars s).
Proof.
  induction s as [|c|c d s IH1 IH2] using list_ind2; intros U.
  - exact I.
  - rewrite quote_chars_one. inversion_clear U.
    now apply well_formed_plain, well_formed_quote_unit.
  - inversion U as [|? ? Uc U']. subst. inversion U' as [|? ? Ud U'']. subst.
    rewrite quote_chars_cons_cons.
    destruct (is_leading_surrogate c) eqn:L;
      [destruct (is_trailing_surrogate d) eqn:T|].
    + rewrite well_formed_cons, L. split; [exact T | now apply IH1].
    + apply well_formed_app; [now apply well_formed_plain, well_formed_quote_unit|].
      now apply IH2.
    + apply well_formed_app; [now apply well_formed_plain, well_formed_quote_unit|].
      now apply IH2.
Qed.

Lemma well_formed_QuoteJSONString s :
  Forall code_unit s -> well_formed (JSON.QuoteJSONString s).
Proof.
  intros U. unfold JSON.QuoteJSONString.
  assert (Q : well_formed [34])
    by (apply well_formed_plain, Forall_cons; [apply non_surrogate_ascii; lia | apply Forall_nil]).
  apply well_formed_app; [exact Q|].
  apply well_formed_app; [now apply well_formed_quote_chars | exact Q].
Qed.

(** ** binary64: values that need no rounding *)

Lemma pow2_pos k : 0 <= k -> 0 < 2 ^ k.
Proof. intros. apply Z.pow_pos_nonneg; lia. Qed.

Lemma above_pow2_scaled K k num den :
  0 <= K -> - K <= k ->
  (above_pow2 k num den <-> den * 2 ^ (k + K) <= num * 2 ^ K).
Proof.
  intros HK Hk. unfold above_pow2.
  destruct (Z.le_gt_cases 0 k) as [P|N].
  - rewrite Z.max_l, Z.max_r by lia. rewrite Z.pow_add_r by lia.
    pose proof (pow2_pos K HK). change (2 ^ 0) with 1. nia.
  - rewrite Z.max_r, Z.max_l by lia.
    replace K with ((k + K) + - k) at 2 by lia.
    rewrite (Z.pow_add_r 2 (k + K) (- k)) by lia.
    pose proof (pow2_pos (k + K) ltac:(lia)). change (2 ^ 0) with 1. nia.
Qed.

Lemma exact_ratio_scaled K m e num den :
  0 <= K -> - K <= e ->
  exact_ratio m e num den -> num * 2 ^ K = m * den * 2 ^ (e + K).
Proof.
  intros HK He. unfold exact_ratio.
  destruct (Z.le_gt_cases 0 e) as [P|N].
  - rewrite Z.max_r, Z.max_l by lia. rewrite Z.pow_add_r by lia.
    change (2 ^ 0) with 1. nia.
  - rewrite Z.max_l, Z.max_r by lia.
    replace K with ((e + K) + - e) at 1 by lia.
    rewrite (Z.pow_add_r 2 (e + K) (- e)) by lia.
    change (2 ^ 0) with 1. nia.
Qed.

Lemma above_pow2_test l num den :
  (if 0 <=? l then den * 2 ^ l <=? num else den <=? num * 2 ^ (- l)) = true
  <-> above_pow2 l num den.
Proof.
  unfold above_pow2. destruct (Z.leb_spec 0 l) as [P|N].
  - rewrite Z.max_l, Z.max_r by lia. change (2 ^ 0) with 1. rewrite Z.leb_le. lia.
  - rewrite Z.max_r, Z.max_l by lia. change (2 ^ 0) with 1. rewrite Z.leb_le. lia.
Qed.

Lemma floor_log2_spec num den :
  0 < num -> 0 < den ->
  above_pow2 (floor_log2 num den) num den
  /\ ~ above_pow2 (floor_log2 num den + 1) num den.
Proof.
  intros Hn Hd.
  destruct (Z.log2_spec num Hn) as [A1 A2]. destruct (Z.log2_spec den Hd) as [B1 B2].
  pose proof (Z.log2_nonneg num) as A0. pose proof (Z.log2_nonneg den) as B0.
  set (a := Z.log2 num) in *. set (b := Z.log2 den) in *.
  set (K := a + b + 2).
  assert (HK : 0 <= K) by (subst K; lia).
  pose proof (pow2_pos K HK) as PK.
  unfold floor_log2. fold a b.
  destruct (if 0 <=? a - b then den * 2 ^ (a - b) <=? num else den <=? num * 2 ^ (- (a - b)))
    eqn:T.
  - apply above_pow2_test in T. split; [exact T|].
    rewrite (above_pow2_scaled K) by (subst K; lia).
    assert (F : 2 ^ b * 2 ^ (a - b + 1 + K) = 2 ^ Z.succ a * 2 ^ K).
    { rewrite <- !Z.pow_add_r by (subst K; lia). f_equal. lia. }
    pose proof (pow2_pos (a - b + 1 + K) ltac:(subst K; lia)). nia.
  - assert (T' : ~ above_pow2 (a - b) num den)
      by (rewrite <- above_pow2_test, T; discriminate).
    split; [|now replace (a - b - 1 + 1) with (a - b) by lia].
    rewrite (above_pow2_scaled K) by (subst K; lia).
    assert (F : 2 ^ Z.succ b * 2 ^ (a - b - 1 + K) = 2 ^ a * 2 ^ K).
    { rewrite <- !Z.pow_add_r by (subst K; lia). f_equal. lia. }
    pose proof (pow2_pos (a - b - 1 + K) ltac:(subst K; lia)). nia.
Qed.

Lemma above_pow2_mono k k' num den :
  0 < num -> 0 < den -> k' <= k -> above_pow2 k num den -> above_pow2 k' num den.
Proof.
  intros Hn Hd Hk.
  set (K := Z.abs k + Z.abs k').
  rewrite (above_pow2_scaled K k), (above_pow2_scaled K k') by (subst K; lia).
  intros A. replace (k + K) with (k' + K + (k - k')) in A by lia.
  rewrite Z.pow_add_r in A by (subst K; lia).
  pose proof (pow2_pos (k' + K) ltac:(subst K; lia)).
  pose proof (pow2_pos (k - k') ltac:(lia)). nia.
Qed.

(** The exponent chosen for a ratio that is m * 2^e. *)
Lemma floor_log2_exact m e num den :
  0 < num -> 0 < den -> 0 < m -> exact_ratio m e num den ->
  (2 ^ 52 <= m < 2 ^ 53 -> floor_log2 num den = e + 52)
  /\ (m < 2 ^ 52 -> floor_log2 num den < e + 52).
Proof.
  intros Hn Hd Hm X.
  destruct (floor_log2_spec num den Hn Hd) as [A B].
  set (L := floor_log2 num den) in *.
  set (K := Z.abs L + Z.abs e + 60).
  pose proof (exact_ratio_scaled K m e num den ltac:(subst K; lia) ltac:(subst K; lia) X) as XS.
  assert (HK : 0 <= e + K) by (subst K; lia).
  pose proof (pow2_pos (e + K) HK) as PK.
  split.
  - intros [M1 M2].
    assert (L1 : L < e + 53).
    { destruct (Z.lt_ge_cases L (e + 53)) as [|G]; [assumption|exfalso].
      apply (above_pow2_mono L (e + 53) num den Hn Hd G) in A.
      apply (above_pow2_scaled K) in A; [|subst K; lia|subst K; lia].
      rewrite XS in A. replace (e + 53 + K) with (53 + (e + K)) in A by lia.
      rewrite Z.pow_add_r in A by lia. nia. }
    assert (L2 : e + 52 < L + 1).
    { destruct (Z.lt_ge_cases (e + 52) (L + 1)) as [|G]; [assumption|exfalso].
      apply B. apply (above_pow2_mono (e + 52) (L + 1) num den Hn Hd G).
      apply (above_pow2_scaled K); [subst K; lia|subst K; lia|].
      rewrite XS. replace (e + 52 + K) with (52 + (e + K)) by lia.
      rewrite Z.pow_add_r by lia. nia. }
    lia.
  - intros M.
    destruct (Z.lt_ge_cases L (e + 52)) as [|G]; [assumption|exfalso].
    apply (above_pow2_mono L (e + 52) num den Hn Hd G) in A.
    apply (above_pow2_scaled K) in A; [|subst K; lia|subst K; lia].
    rewrite XS in A. replace (e + 52 + K) with (52 + (e + K)) in A by lia.
    rewrite Z.pow_add_r in A by lia. nia.
Qed.

Lemma round_half_even_exact q den : 0 < den -> round_half_even (q * den) den = q.
Proof.
  intros Hd. unfold round_half_even.
  rewrite Z.div_mul, Z.mod_mul by lia. cbn [Z.mul]. now rewrite ltb_true by lia.
Qed.

Lemma nearest_binary64_exact m e num den :
  0 < num -> 0 < den -> normalized m e -> exact_ratio m e num den ->
  nearest_binary64 num den = Some (m, e).
Proof.
  intros Hn Hd N X.
  assert (Hm : 0 < m) by (destruct N as [[M _]|[M _]]; lia).
  destruct (floor_log2_exact m e num den Hn Hd Hm X) as [F1 F2].
  unfold nearest_binary64.
  assert (E : Z.max (floor_log2 num den - 52) (-1074) = e).
  { destruct N as [[M R]|[M ->]]; [rewrite (F1 M); lia|].
    pose proof (F2 (proj2 M)). lia. }
  rewrite E.
  assert (R : (if 0 <=? e then round_half_even num (den * 2 ^ e)
               else round_half_even (num * 2 ^ (- e)) den) = m).
  { unfold exact_ratio in X. destruct (Z.leb_spec 0 e) as [P|Q].
    - rewrite Z.max_r, Z.max_l in X by lia. change (2 ^ 0) with 1 in X.
      replace num with (m * (den * 2 ^ e)) by lia.
      apply round_half_even_exact. pose proof (pow2_pos e P). nia.
    - rewrite Z.max_l, Z.max_r in X by lia. change (2 ^ 0) with 1 in X.
      replace (num * 2 ^ (- e)) with (m * den) by lia.
      now apply round_half_even_exact. }
  rewrite R.
  assert (M53 : m < 2 ^ 53) by (destruct N as [[M _]|[M _]]; lia).
  assert (E971 : e <= 971) by (destruct N as [[_ M]|[_ M]]; lia).
  rewrite eqb_false by lia. now rewrite ltb_false by lia.
Qed.

Lemma Number_of_binary64_canonical neg m e :
  canonical m e -> Number_of_binary64 neg m e = Bin (if neg then - m else m) e.
Proof.
  intros [N C]. unfold Number_of_binary64.
  assert (Hm : 0 < m) by (destruct N as [[M _]|[M _]]; lia).
  rewrite (eqb_false m 0) by lia.
  destruct C as [P|[P Q]].
  - rewrite leb_true, eqb_false by lia. reflexivity.
  - rewrite leb_false, eqb_false by lia. reflexivity.
Qed.

Lemma Number_of_decimal_exact s d m e :
  0 < s -> canonical m e ->
  exact_ratio m e (s * 10 ^ Z.max d 0) (10 ^ Z.max (- d) 0) ->
  Number_of_decimal s d = Bin m e.
Proof.
  intros Hs C X. unfold Number_of_decimal, Number_of_ratio.
  rewrite eqb_false, ltb_false, Z.abs_eq by lia.
  rewrite (nearest_binary64_exact m e _ _) ; [now apply Number_of_binary64_canonical| | |apply C|exact X].
  - apply Z.mul_pos_pos; [lia|]. apply Z.pow_pos_nonneg; lia.
  - apply Z.pow_pos_nonneg; lia.
Qed.

Lemma Number_of_decimal_opp s d m e :
  0 < s -> 0 < m ->
  Number_of_decimal s d = Bin m e -> Number_of_decimal (- s) d = Bin (- m) e.
Proof.
  intros Hs Hm. unfold Number_of_decimal, Number_of_ratio.
  rewrite !eqb_false, ltb_false, ltb_true, Z.abs_opp by lia.
  destruct (nearest_binary64 _ _) as [[m' e']|]; [|discriminate].
  unfold Number_of_binary64.
  destruct (m' =? 0); [discriminate|].
  destruct (0 <=? e').
  - destruct (e' =? 0); [discriminate|]. intros [= -> ->]. reflexivity.
  - destruct (m' mod 2 ^ (- e') =? 0); [discriminate|]. intros [= -> ->]. reflexivity.
Qed.

Lemma Number_of_decimal_safe z : safe_integer z -> Number_of_decimal z 0 = Int z.
Proof.
  intros S. unfold safe_integer, max_safe_integer in S. unfold Number_of_decimal.
  destruct (Z.eqb_spec z 0) as [->|N]; [reflexivity|].
  unfold Number_of_ratio. change (Z.max 0 0) with 0. change (Z.max (- 0) 0) with 0.
  change (10 ^ 0) with 1. rewrite Z.mul_1_r.
  assert (Ha : 0 < Z.abs z) by lia.
  destruct (Z.log2_spec _ Ha) as [L1 L2].
  pose proof (Z.log2_nonneg (Z.abs z)) as L0.
  set (L := Z.log2 (Z.abs z)) in *.
  assert (L52 : L <= 52).
  { destruct (Z.le_gt_cases L 52) as [|G]; [assumption|exfalso].
    assert (2 ^ 53 <= 2 ^ L) by (apply Z.pow_le_mono_r; lia).
    change (2 ^ 53) with 9007199254740992 in *. lia. }
  assert (P : 2 ^ 52 = 2 ^ L * 2 ^ (52 - L))
    by (rewrite <- Z.pow_add_r by lia; f_equal; lia).
  assert (P' : 2 ^ 53 = 2 ^ Z.succ L * 2 ^ (52 - L))
    by (rewrite <- Z.pow_add_r by lia; f_equal; lia).
  pose proof (pow2_pos (52 - L) ltac:(lia)) as PP.
  rewrite (nearest_binary64_exact (Z.abs z * 2 ^ (52 - L)) (L - 52)); try lia.
  - unfold Number_of_binary64.
    rewrite eqb_false by nia.
    replace (- (L - 52)) with (52 - L) by lia.
    rewrite Z.mod_mul, Z.div_mul by lia. cbn [Z.eqb].
    assert (Sg : (if z <? 0 then - Z.abs z else Z.abs z) = z)
      by (destruct (Z.ltb_spec z 0); lia).
    rewrite Sg.
    destruct (Z.leb_spec 0 (L - 52)) as [G|G]; [|reflexivity].
    destruct (Z.eqb_spec (L - 52) 0) as [E|E]; [|lia].
    replace (52 - L) with 0 by lia. cbn [Z.pow]. now rewrite Z.mul_1_r, Sg.
  - left. split; [|lia]. rewrite P, P'. nia.
  - unfold exact_ratio. rewrite (Z.max_l (- (L - 52))), (Z.max_r (L - 52)) by lia.
    replace (- (L - 52)) with (52 - L) by lia. change (2 ^ 0) with 1. lia.
Qed.

Lemma strip_trailing_zeros_spec fuel : forall m e m' e',
  0 < m -> strip_trailing_zeros fuel m e = (m', e') ->
  0 < m' /\ e <= e' /\ m = m' * 10 ^ (e' - e).
Proof.
  induction fuel as [|f IH]; intros m e m' e' Hm; cbn [strip_trailing_zeros].
  - intros [= <- <-]. rewrite Z.sub_diag. cbn. lia.
  - destruct (Z.eqb_spec (m mod 10) 0) as [Z0|_]; cbn [andb];
      [rewrite eqb_false by lia; cbn [negb]|].
    + intros H. apply IH in H; [|div_lia]. destruct H as (P & Q & R).
      split; [exact P|]. split; [lia|].
      replace (e' - e) with (Z.succ (e' - (e + 1))) by lia.
      rewrite Z.pow_succ_r by lia.
      assert (m = 10 * (m / 10)) by div_lia. nia.
    + intros [= <- <-]. rewrite Z.sub_diag. cbn. lia.
Qed.

Lemma pow10_split x : 0 <= x -> 10 ^ x = 2 ^ x * 5 ^ x.
Proof. intros. now rewrite <- Z.pow_mul_l. Qed.

(** The exact decimal of a value reads as the value. *)
Lemma exact_decimal_reads m e :
  canonical m e -> reads_as (Bin m e) (exact_decimal m e) = true.
Proof.
  intros C. pose proof C as [N I].
  assert (Hm : 0 < m) by (destruct N as [[M _]|[M _]]; lia).
  unfold exact_decimal.
  destruct (Z.leb_spec 0 e) as [P|Q].
  - pose proof (pow2_pos e P) as P2.
    destruct (strip_trailing_zeros _ (m * 2 ^ e) 0) as [s' d'] eqn:S.
    apply strip_trailing_zeros_spec in S; [|nia]. destruct S as (S1 & S2 & S3).
    rewrite Z.sub_0_r in S3.
    cbn [reads_as]. rewrite ltb_true by lia. cbn [andb].
    replace (Z.of_nat (Datatypes.length (digits s')) + d' - Z.of_nat (Datatypes.length (digits s')))
      with d' by lia.
    rewrite (Number_of_decimal_exact s' d' m e S1 C).
    + cbn [Number_same]. now rewrite !Z.eqb_refl.
    + unfold exact_ratio. rewrite (Z.max_l d'), (Z.max_r (- d')), (Z.max_r (- e)), (Z.max_l e) by lia.
      change (10 ^ 0) with 1. change (2 ^ 0) with 1. lia.
  - destruct I as [I|[_ I]]; [lia|].
    pose proof (pow2_pos (- e) ltac:(lia)) as P2.
    assert (P5 : 0 < 5 ^ (- e)) by (apply Z.pow_pos_nonneg; lia).
    destruct (strip_trailing_zeros _ (m * 5 ^ (- e)) e) as [s' d'] eqn:S.
    apply strip_trailing_zeros_spec in S; [|nia]. destruct S as (S1 & S2 & S3).
    assert (D : d' < 0).
    { destruct (Z.lt_ge_cases d' 0) as [|G]; [assumption|exfalso]. apply I.
      replace (d' - e) with (d' + - e) in S3 by lia.
      rewrite Z.pow_add_r, (pow10_split (- e)) in S3 by lia.
      assert (M : m = s' * 10 ^ d' * 2 ^ (- e)) by nia.
      rewrite M. apply Z.mod_mul. lia. }
    cbn [reads_as]. rewrite ltb_true by lia. cbn [andb].
    replace (Z.of_nat (Datatypes.length (digits s')) + d' - Z.of_nat (Datatypes.length (digits s')))
      with d' by lia.
    rewrite (Number_of_decimal_exact s' d' m e S1 C).
    + cbn [Number_same]. now rewrite !Z.eqb_refl.
    + unfold exact_ratio. rewrite (Z.max_r d'), (Z.max_l (- d')), (Z.max_l (- e)), (Z.max_r e) by lia.
      change (10 ^ 0) with 1. change (2 ^ 0) with 1. rewrite !Z.mul_1_r.
      assert (T : 10 ^ (- e) = 10 ^ (- d') * 10 ^ (d' - e))
        by (rewrite <- Z.pow_add_r by lia; f_equal; lia).
      rewrite (pow10_split (- e)) in T by lia.
      assert (P10 : 0 < 10 ^ (d' - e)) by (apply Z.pow_pos_nonneg; lia).
      assert (P10' : 0 < 10 ^ (- d')) by (apply Z.pow_pos_nonneg; lia).
      apply (Z.mul_reg_r _ _ (10 ^ (d' - e))); [lia|].
      apply (Z.mul_reg_r _ _ (5 ^ (- e))); [lia|].
      nia.
Qed.

Lemma Number_digits_reads m e :
  canonical m e -> reads_as (Bin m e) (Number_digits m e) = true.
Proof.
  intros C. unfold Number_digits.
  destruct (if 0 <=? e then _ else _) as [num den].
  destruct (shortest_cases [1; 2; 3; 4; 5; 6; 7; 8; 9; 10; 11; 12; 13; 14; 15; 16; 17]
              (Bin m e) num den (decimal_position num den) (exact_decimal m e)) as [-> | R].
  - now apply exact_decimal_reads.
  - exact R.
Qed.

(** ** The encoding of integers *)

Lemma digits_value_snoc ds d :
  JSON.digits_value (ds ++ [d]) = 10 * JSON.digits_value ds + d.
Proof. unfold JSON.digits_value. now rewrite fold_left_app. Qed.

(** What [digits_aux] puts in front of its accumulator: the decimal
    expansion of [n], without a superfluous leading zero. *)
Lemma digits_aux_spec fuel n acc :
  0 <= n -> n < 2 ^ Z.of_nat fuel -> fuel <> O ->
  exists pre,
    digits_aux fuel n acc = pre ++ acc
    /\ Forall (fun c => 48 <= c <= 57) pre
    /\ JSON.digits_value (map (fun c => c - 48) pre) = n
    /\ (exists c0 pre', pre = c0 :: pre' /\ (c0 = 48 -> n = 0 /\ pre' = [])).
Proof.
  revert n acc. induction fuel as [|f IH]; intros n acc Hn Hf Hz; [contradiction|].
  cbn [digits_aux]. destruct (Z.ltb_spec n 10) as [Hs|Hs].
  - exists [48 + n]. repeat split.
    + constructor; [lia | constructor].
    + unfold JSON.digits_value. cbn [map fold_left]. lia.
    + exists (48 + n), []. split; [reflexivity|]. intros; split; [lia | reflexivity].
  - assert (P : 2 ^ Z.of_nat (S f) = 2 * 2 ^ Z.of_nat f)
      by (rewrite Nat2Z.inj_succ, Z.pow_succ_r; lia).
    assert (Hf' : f <> O).
    { intros ->. cbn in Hf. lia. }
    assert (Hd : 0 <= n / 10 < 2 ^ Z.of_nat f) by div_lia.
    destruct (IH (n / 10) ((48 + n mod 10) :: acc) (proj1 Hd) (proj2 Hd) Hf')
      as (pre & E & D & V & c0 & pre' & Ep & Z0).
    exists (pre ++ [48 + n mod 10]). repeat split.
    + rewrite E. now rewrite <- app_assoc.
    + apply Forall_app. split; [exact D|].
      constructor; [|constructor].
      assert (0 <= n mod 10 < 10) by (apply Z.mod_pos_bound; lia). lia.
    + rewrite map_app. cbn [map]. rewrite digits_value_snoc, V. div_lia.
    + exists c0, (pre' ++ [48 + n mod 10]). split; [now rewrite Ep|].
      intros C. destruct (Z0 C) as [Zq _]. div_lia.
Qed.

Lemma digits_spec n :
  0 <= n ->
  Forall (fun c => 48 <= c <= 57) (digits n)
  /\ JSON.digits_value (map (fun c => c - 48) (digits n)) = n
  /\ (exists c0 pre', digits n = c0 :: pre' /\ (c0 = 48 -> n = 0 /\ pre' = [])).
Proof.
  intros Hn. unfold digits.
  assert (Hf : n < 2 ^ Z.of_nat (S (Z.to_nat (Z.log2 n)))).
  { rewrite Nat2Z.inj_succ, Z2Nat.id by apply Z.log2_nonneg.
    destruct (Z.eq_dec n 0) as [->|N]; [reflexivity|].
    apply Z.log2_spec. lia. }
  destruct (digits_aux_spec _ n [] Hn Hf ltac:(discriminate))
    as (pre & E & D & V & T).
  rewrite app_nil_r in E. rewrite E. auto.
Qed.

Lemma span_digits_app pre tail :
  Forall (fun c => 48 <= c <= 57) pre ->
  match tail with
  | [] => True
  | t0 :: _ => JSON.is_digit t0 = false
  end ->
  JSON.span_digits (pre ++ tail) = (map (fun c => c - 48) pre, tail).
Proof.
  intros D T. induction D as [|c pre Hc _ IH].
  - cbn [app map]. destruct tail as [|t0 tail]; [reflexivity|].
    cbn [JSON.span_digits]. now rewrite T.
  - cbn [app map JSON.span_digits]. unfold JSON.is_digit at 1.
    rewrite (leb_true 48 c), (leb_true c 57) by lia. cbn [andb].
    now rewrite IH.
Qed.

Lemma parse_fraction_none tail :
  after_field tail -> JSON.parse_fraction tail = Some ([], tail).
Proof.
  intros (t0 & r & -> & [-> | ->]); reflexivity.
Qed.

Lemma parse_exponent_none tail :
  after_field tail -> JSON.parse_exponent tail = Some (0, tail).
Proof.
  intros (t0 & r & -> & [-> | ->]); reflexivity.
Qed.

Lemma parse_int_part_digits n tail :
  0 <= n -> after_field tail ->
  JSON.parse_int_part (digits n ++ tail) = Some (map (fun c => c - 48) (digits n), tail).
Proof.
  intros Hn (t0 & r & -> & Ht).
  destruct (digits_spec n Hn) as (D & V & c0 & pre' & E & Z0).
  assert (T : JSON.is_digit t0 = false) by (destruct Ht as [-> | ->]; reflexivity).
  assert (C0 : 48 <= c0 <= 57) by (rewrite E in D; now inversion D).
  pose proof (span_digits_app (digits n) (t0 :: r) D T) as Sp.
  rewrite E in *. cbn [app] in *. unfold JSON.parse_int_part.
  destruct (Z.eqb_spec c0 48) as [C|C].
  - destruct (Z0 C) as [_ ->]. subst c0. reflexivity.
  - unfold JSON.is_digit at 1.
    rewrite (leb_true 48 c0), (leb_true c0 57) by lia. cbn [andb]. now rewrite Sp.
Qed.

Lemma digits_head n :
  0 <= n -> exists c0 r, digits n = c0 :: r /\ 48 <= c0 <= 57.
Proof.
  intros Hn. destruct (digits_spec n Hn) as (D & _ & c0 & pre' & E & _).
  exists c0, pre'. split; [exact E|]. rewrite E in D. now inversion D.
Qed.

(** [JSON.parse] reads back the digits [JSON.stringify] wrote for a safe
    integer. *)
Lemma parse_number_integer z tail :
  safe_integer z -> after_field tail ->
  JSON.parse_number (Number_toString (Int z) ++ tail) = Some (Int z, tail).
Proof.
  intros S T. cbn [Number_toString]. unfold JSON.parse_number.
  destruct (Z.ltb_spec z 0) as [Hz|Hz].
  - change (str "-") with [45]. cbn [app JSON.parse_sign].
    change (45 =? 45) with true. cbv iota.
    rewrite parse_int_part_digits by (assumption || lia).
    rewrite (parse_fraction_none tail T), (parse_exponent_none tail T).
    rewrite app_nil_r. destruct (digits_spec (- z) ltac:(lia)) as (_ & -> & _).
    cbn [List.length Z.of_nat]. change (0 - 0) with 0. rewrite Z.opp_involutive.
    now rewrite Number_of_decimal_safe.
  - destruct (digits_head z Hz) as (c0 & r & E & C0).
    assert (Sg : JSON.parse_sign (digits z ++ tail) = (false, digits z ++ tail)).
    { rewrite E. cbn [app JSON.parse_sign]. now rewrite eqb_false by lia. }
    rewrite Sg. rewrite parse_int_part_digits by assumption.
    rewrite (parse_fraction_none tail T), (parse_exponent_none tail T).
    rewrite app_nil_r. destruct (digits_spec z Hz) as (_ & -> & _).
    cbn [List.length Z.of_nat]. change (0 - 0) with 0.
    now rewrite Number_of_decimal_safe.
Qed.

(** ** The encoding of flat records *)

Lemma finite_field_defined v :
  finite_field v -> JSON.SerializeJSONProperty v = Some (field_text v).
Proof.
  destruct v as [| |b|[| | |z|m e]|s|l|o]; cbn [finite_field]; try contradiction;
    reflexivity.
Qed.

Lemma stringify_flat_record E :
  Forall (fun kv => finite_field (snd kv)) E ->
  JSON.stringify (JObject E) = Some (record_text E).
Proof.
  intros F. unfold JSON.stringify, record_text. cbn [JSON.SerializeJSONProperty].
  do 4 f_equal.
  induction F as [|[k v] E Fv _ IH]; [reflexivity|].
  cbn [map snd] in *. rewrite (finite_field_defined v Fv), IH. reflexivity.
Qed.

Lemma skip_ws_cons c r : JSON.is_ws c = false -> JSON.skip_ws (c :: r) = c :: r.
Proof. intros H. cbn [JSON.skip_ws]. now rewrite H. Qed.

Lemma after_field_skip_ws tail : after_field tail -> JSON.skip_ws tail = tail.
Proof. intros (t0 & r & -> & [-> | ->]); reflexivity. Qed.

Lemma parse_value_string f r :
  JSON.parse_value (S f) (34 :: r)
  = match JSON.parse_string_chars r with
    | Some (cs, rest) => JSON.Parsed (JString cs) rest
    | None => JSON.Invalid
    end.
Proof. reflexivity. Qed.

Lemma starts_with_other c0 lit c r :
  c <> c0 -> JSON.starts_with (c0 :: lit) (c :: r) = None.
Proof.
  intros H. unfold JSON.starts_with. cbn [List.length firstn jsstring_eqb].
  now rewrite eqb_false.
Qed.

Lemma parse_value_number f c r :
  48 <= c <= 57 \/ c = 45 ->
  JSON.parse_value (S f) (c :: r)
  = match JSON.parse_number (c :: r) with
    | Some (n, rest) => JSON.Parsed (JNumber n) rest
    | None => JSON.Invalid
    end.
Proof.
  intros H. cbn [JSON.parse_value].
  rewrite skip_ws_cons
    by (unfold JSON.is_ws; rewrite !eqb_false by lia; reflexivity).
  rewrite !eqb_false by lia.
  change (str "true") with [116; 114; 117; 101].
  change (str "false") with [102; 97; 108; 115; 101].
  change (str "null") with [110; 117; 108; 108].
  rewrite !starts_with_other by lia. reflexivity.
Qed.

(** [JSON.parse] reads back the text of a field of a record. *)
Lemma parse_field v tail f :
  finite_field v -> after_field tail ->
  JSON.parse_value (S f) (field_text v ++ tail) = JSON.Parsed v tail.
Proof.
  intros F T.
  destruct v as [| |b|[| | |z|m e]|s|l|o]; cbn [finite_field] in F; try contradiction.
  - change (field_text (JNumber (Int z))) with (Number_toString (Int z)).
    pose proof (parse_number_integer z tail F T) as P.
    assert (H : exists c r, Number_toString (Int z) ++ tail = c :: r
                            /\ (48 <= c <= 57 \/ c = 45)).
    { cbn [Number_toString]. destruct (Z.ltb_spec z 0).
      - exists 45, (digits (- z) ++ tail). split; [reflexivity | now right].
      - destruct (digits_head z ltac:(lia)) as (c0 & r & E & C0).
        exists c0, (r ++ tail). rewrite E. split; [reflexivity | now left]. }
    destruct H as (c & r & E & Hc). rewrite E in *.
    rewrite parse_value_number by assumption. now rewrite P.
  - change (field_text (JString s)) with (JSON.QuoteJSONString s).
    unfold JSON.QuoteJSONString. rewrite <- !app_assoc. cbn [app].
    rewrite parse_value_string, parse_quote_chars by assumption. reflexivity.
Qed.

(** *** Own keys *)

Lemma CreateDataProperty_last o k v :
  Forall (fun kv => jsstring_eqb k (fst kv) = false
                    /\ JSON.key_before k (fst kv) = false) o ->
  JSON.CreateDataProperty o k v = o ++ [(k, v)].
Proof.
  induction 1 as [|[k' v'] o [H1 H2] _ IH]; [reflexivity|].
  cbn [fst] in *. cbn [JSON.CreateDataProperty app]. now rewrite H1, H2, IH.
Qed.

Lemma own_keys_ordered_app_last acc k v rest :
  own_keys_ordered (acc ++ (k, v) :: rest) = true ->
  Forall (fun kv => jsstring_eqb k (fst kv) = false
                    /\ JSON.key_before k (fst kv) = false) acc.
Proof.
  induction acc as [|[k' v'] acc IH]; intros H; [constructor|].
  cbn [app own_keys_ordered] in H. apply andb_true_iff in H as [H1 H2].
  constructor; [|now apply IH].
  rewrite forallb_app in H1. apply andb_true_iff in H1 as [_ H1].
  cbn [forallb fst] in H1. apply andb_true_iff in H1 as [H1 _].
  apply andb_true_iff in H1 as [A B].
  cbn [fst]. now rewrite negb_true_iff in A, B.
Qed.

(** Creating the properties of an object in their enumeration order gives
    the object. *)
Lemma create_properties_in_order E acc :
  own_keys_ordered (acc ++ E) = true ->
  fold_left (fun o kv => JSON.CreateDataProperty o (fst kv) (snd kv)) E acc = acc ++ E.
Proof.
  revert acc. induction E as [|[k v] E IH]; intros acc H.
  - now rewrite app_nil_r.
  - cbn [fold_left fst snd].
    rewrite (CreateDataProperty_last acc k v (own_keys_ordered_app_last acc k v E H)).
    rewrite IH; rewrite <- app_assoc; [reflexivity | exact H].
Qed.

(** *** Members *)

Lemma parse_members_quote f r acc :
  JSON.parse_members (S f) (34 :: r) acc
  = match JSON.parse_string_chars r with
    | Some (k, r1) =>
        match JSON.skip_ws r1 with
        | colon :: r2 =>
            if colon =? 58 then
              match JSON.parse_value f r2 with
              | JSON.Parsed v r3 =>
                  match JSON.skip_ws r3 with
                  | d :: r4 =>
                      if d =? 44
                      then JSON.parse_members f r4 (JSON.CreateDataProperty acc k v)
                      else if d =? 125
                           then JSON.Parsed (JObject (JSON.CreateDataProperty acc k v)) r4
                           else JSON.Invalid
                  | [] => JSON.Invalid
                  end
              | JSON.Invalid => JSON.Invalid
              | JSON.OutOfFuel => JSON.OutOfFuel
              end
            else JSON.Invalid
        | [] => JSON.Invalid
        end
    | None => JSON.Invalid
    end.
Proof. reflexivity. Qed.

Lemma parse_member f k v rest acc :
  Forall code_unit k -> finite_field v -> after_field rest ->
  JSON.parse_members (S (S f)) (member_text (k, v) ++ rest) acc
  = match rest with
    | d :: r4 =>
        if d =? 44
        then JSON.parse_members (S f) r4 (JSON.CreateDataProperty acc k v)
        else if d =? 125
             then JSON.Parsed (JObject (JSON.CreateDataProperty acc k v)) r4
             else JSON.Invalid
    | [] => JSON.Invalid
    end.
Proof.
  intros K F T. unfold member_text, JSON.QuoteJSONString. cbn [fst snd].
  change (str ":") with [58]. rewrite <- !app_assoc. cbn [app].
  rewrite parse_members_quote, parse_quote_chars by assumption.
  cbn [JSON.skip_ws]. change (JSON.is_ws 58) with false. change (58 =? 58) with true.
  cbv iota. rewrite (parse_field v rest f F T), (after_field_skip_ws rest T).
  reflexivity.
Qed.

Lemma parse_members_flat E : forall acc fuel tail,
  E <> [] ->
  Forall (fun kv => Forall code_unit (fst kv) /\ finite_field (snd kv)) E ->
  (List.length E < fuel)%nat ->
  JSON.parse_members fuel (join (str ",") (map member_text E) ++ 125 :: tail) acc
  = JSON.Parsed
      (JObject (fold_left (fun o kv => JSON.CreateDataProperty o (fst kv) (snd kv)) E acc))
      tail.
Proof.
  induction E as [|[k v] E IH]; intros acc fuel tail N F L; [contradiction|].
  inversion F as [|? ? [K Fv] F']. subst. cbn [fst snd] in *.
  destruct fuel as [|[|f]]; cbn [List.length] in L; try lia.
  destruct E as [|kv' E].
  - cbn [map join fold_left fst snd].
    rewrite parse_member; try assumption;
      [reflexivity | exists 125, tail; auto].
  - set (E' := kv' :: E) in *.
    assert (J : join (str ",") (map member_text ((k, v) :: E'))
                = member_text (k, v) ++ 44 :: join (str ",") (map member_text E'))
      by reflexivity.
    rewrite J, <- app_assoc. cbn [app].
    rewrite parse_member; try assumption;
      [|eexists 44, _; split; [reflexivity | now left]].
    change (44 =? 44) with true. cbv iota.
    rewrite IH; [reflexivity | discriminate | assumption | cbn [List.length] in *; lia].
Qed.

Lemma join_length sep parts :
  Forall (fun p => p <> []) parts ->
  (List.length parts <= List.length (join sep parts))%nat.
Proof.
  induction 1 as [|p parts Hp _ IH]; [cbn; lia|].
  assert (1 <= List.length p)%nat by (destruct p; [contradiction | cbn; lia]).
  cbn [join]. destruct parts as [|q parts]; [cbn; lia|].
  rewrite !length_app. cbn [List.length] in *. lia.
Qed.

(** [JSON.parse] reads back the text [JSON.stringify] wrote for a flat
    record with finite fields. *)
Lemma parse_record_text E :
  flat_record finite_field E -> JSON.parse (record_text E) = Some (JObject E).
Proof.
  intros [O F]. unfold JSON.parse, record_text.
  change (str "{") with [123]. change (str "}") with [125]. cbn [app].
  destruct E as [|[k v] E]; [reflexivity|].
  set (E' := (k, v) :: E) in *.
  assert (Q : exists r, join (str ",") (map member_text E') = 34 :: r).
  { subst E'. cbn [map join]. destruct (map member_text E); eexists; reflexivity. }
  destruct Q as [r Q].
  pose (text := 123 :: join (str ",") (map member_text E') ++ [125]).
  assert (L : (List.length E' < 2 * List.length text)%nat).
  { subst text. cbn [List.length]. rewrite length_app.
    pose proof (join_length (str ",") (map member_text E')) as J.
    rewrite length_map in J. cbn [List.length].
    assert (Forall (fun p => p <> []) (map member_text E')).
    { apply Forall_forall. intros p Hp. apply in_map_iff in Hp as ([k' v'] & <- & _).
      discriminate. }
    specialize (J H). lia. }
  fold text. fold text in L.
  assert (T : text = 123 :: join (str ",") (map member_text E') ++ [125]) by reflexivity.
  clearbody text. rewrite T at 2. clear T.
  cbn [JSON.parse_value]. cbn [JSON.skip_ws]. change (JSON.is_ws 123) with false.
  change (123 =? 123) with true. cbv iota.
  pose proof (parse_members_flat E' [] _ [] ltac:(discriminate) F L) as P.
  rewrite Q in *. cbn [app] in *. cbn [JSON.skip_ws]. change (JSON.is_ws 34) with false.
  change (34 =? 125) with false. cbv iota.
  rewrite P. cbn [JSON.skip_ws].
  now rewrite (create_properties_in_order E' [] O).
Qed.

(** *** The text of a record is well-formed UTF-16 *)

Lemma well_formed_ascii s : Forall (fun c => 0 <= c < 128) s -> well_formed s.
Proof.
  intros H. apply well_formed_plain. eapply Forall_impl; [|exact H].
  intros c Hc. now apply non_surrogate_ascii.
Qed.

Lemma well_formed_digits n : 0 <= n -> well_formed (digits n).
Proof.
  intros H. apply well_formed_ascii.
  eapply Forall_impl; [|apply digits_range; exact H]. cbv beta. intros; lia.
Qed.

Lemma well_formed_field_text v : finite_field v -> well_formed (field_text v).
Proof.
  destruct v as [| |b|[| | |z|m e]|s|l|o]; cbn [finite_field]; try contradiction.
  - intros _. change (field_text (JNumber (Int z))) with (Number_toString (Int z)).
    cbn [Number_toString]. destruct (Z.ltb_spec z 0).
    + apply well_formed_app; [|apply well_formed_digits; lia].
      change (str "-") with [45]. apply well_formed_ascii.
      constructor; [lia | constructor].
    + apply well_formed_digits; lia.
  - intros U. now apply well_formed_QuoteJSONString.
Qed.

Lemma well_formed_join sep parts :
  well_formed sep -> Forall well_formed parts -> well_formed (join sep parts).
Proof.
  intros Ws H. induction H as [|p parts Hp _ IH]; [exact I|].
  cbn [join]. destruct parts as [|q parts]; [assumption|].
  apply well_formed_app; [assumption|]. now apply well_formed_app.
Qed.

Lemma well_formed_record_text E :
  flat_record finite_field E -> well_formed (record_text E).
Proof.
  intros [_ F]. unfold record_text.
  assert (A : forall c, 0 <= c < 128 -> well_formed [c])
    by (intros c Hc; apply well_formed_ascii; constructor; [exact Hc | constructor]).
  apply well_formed_app; [apply A; cbn; lia|].
  apply well_formed_app; [|apply A; cbn; lia].
  apply well_formed_join; [apply A; cbn; lia|].
  apply Forall_forall. intros p Hp. apply in_map_iff in Hp as ([k v] & <- & Hin).
  rewrite Forall_forall in F. destruct (F _ Hin) as [K Fv]. cbn [fst snd] in *.
  unfold member_text. cbn [fst snd].
  apply well_formed_app; [now apply well_formed_QuoteJSONString|].
  apply well_formed_app; [apply A; cbn; lia | now apply well_formed_field_text].
Qed.

(** ** The round trip of an event *)

Lemma encode_decode_flat_record E :
  flat_record finite_field E ->
  encode (JObject E) = Some (Buffer.from (record_text E))
  /\ decode (Buffer.from (record_text E)) = Some (JObject E).
Proof.
  intros F. unfold encode, decode.
  rewrite (stringify_flat_record E)
    by (eapply Forall_impl; [|exact (proj2 F)]; cbv beta; tauto).
  split; [reflexivity|].
  rewrite (utf8_round_trip _ (well_formed_record_text E F)).
  now apply parse_record_text.
Qed.

Lemma code_units_literal (s : string) :
  forallb (fun c => (0 <=? c) && (c <? 65536)) (str s) = true ->
  Forall code_unit (str s).
Proof.
  intros H. apply Forall_forall. intros c Hc.
  rewrite forallb_forall in H. specialize (H c Hc).
  apply andb_true_iff in H as [A B]. apply Z.leb_le in A. apply Z.ltb_lt in B.
  unfold code_unit. lia.
Qed.

(** ** The encoding of numbers that are no safe integers *)

Lemma after_field_stops tail : after_field tail -> stops tail.
Proof. intros (t0 & r & -> & [-> | ->]); reflexivity. Qed.

Lemma fold_digits ds : forall acc,
  fold_left (fun a d => 10 * a + d) ds acc
  = acc * 10 ^ Z.of_nat (List.length ds) + fold_left (fun a d => 10 * a + d) ds 0.
Proof.
  induction ds as [|d ds IH]; intros acc.
  - cbn. lia.
  - cbn [fold_left List.length]. rewrite (IH (10 * acc + d)), (IH (10 * 0 + d)).
    rewrite Nat2Z.inj_succ, Z.pow_succ_r by lia. lia.
Qed.

Lemma digits_value_app a b :
  JSON.digits_value (a ++ b)
  = JSON.digits_value a * 10 ^ Z.of_nat (List.length b) + JSON.digits_value b.
Proof. unfold JSON.digits_value. rewrite fold_left_app. apply fold_digits. Qed.

Lemma digits_value_zeros j : JSON.digits_value (repeat 0 j) = 0.
Proof.
  induction j as [|j IH]; [reflexivity|].
  unfold JSON.digits_value in *. cbn [repeat fold_left]. exact IH.
Qed.

Lemma map_repeat_48 j : map (fun c => c - 48) (repeat 48 j) = repeat 0 j.
Proof. induction j as [|j IH]; [reflexivity|]. cbn [repeat map]. now rewrite IH. Qed.

Lemma Forall_repeat_48 j : Forall (fun c => 48 <= c <= 57) (repeat 48 j).
Proof. induction j; cbn [repeat]; constructor; [lia | assumption]. Qed.

(** The digits of a positive integer begin with a digit that is not 0. *)
Lemma digits_positive s :
  0 < s ->
  Forall (fun c => 48 <= c <= 57) (digits s)
  /\ JSON.digits_value (map (fun c => c - 48) (digits s)) = s
  /\ exists c0 r, digits s = c0 :: r /\ 49 <= c0 <= 57.
Proof.
  intros H. destruct (digits_spec s ltac:(lia)) as (D & V & c0 & r & E & Z0).
  split; [exact D|]. split; [exact V|]. exists c0, r. split; [exact E|].
  rewrite E in D. inversion_clear D as [|? ? C0 _].
  destruct (Z.eq_dec c0 48) as [C|C]; [destruct (Z0 C); lia | lia].
Qed.

Lemma parse_int_part_span pre rest :
  Forall (fun c => 48 <= c <= 57) pre -> stops rest ->
  (exists c0 r, pre = c0 :: r /\ c0 <> 48) ->
  JSON.parse_int_part (pre ++ rest) = Some (map (fun c => c - 48) pre, rest).
Proof.
  intros D T (c0 & r & E & C0).
  pose proof (span_digits_app pre rest D T) as Sp.
  assert (C : 48 <= c0 <= 57) by (rewrite E in D; now inversion D).
  rewrite E in *. cbn [app] in *. unfold JSON.parse_int_part.
  rewrite eqb_false by lia. unfold JSON.is_digit at 1.
  rewrite (leb_true 48 c0), (leb_true c0 57) by lia. cbn [andb]. now rewrite Sp.
Qed.

Lemma parse_fraction_some fr rest :
  Forall (fun c => 48 <= c <= 57) fr -> stops rest -> fr <> [] ->
  JSON.parse_fraction (46 :: fr ++ rest) = Some (map (fun c => c - 48) fr, rest).
Proof.
  intros D T N. unfold JSON.parse_fraction. change (46 =? 46) with true. cbv iota.
  rewrite (span_digits_app fr rest D T).
  destruct fr as [|c fr]; [contradiction | reflexivity].
Qed.

Lemma parse_fraction_skip c rest :
  c <> 46 -> JSON.parse_fraction (c :: rest) = Some ([], c :: rest).
Proof. intros H. unfold JSON.parse_fraction. now rewrite eqb_false. Qed.

Lemma parse_exponent_part x tail :
  stops tail ->
  JSON.parse_exponent (exponent_part x ++ tail) = Some (x, tail).
Proof.
  intros T. unfold exponent_part. change (str "e") with [101].
  destruct (digits_spec (Z.abs x) (Z.abs_nonneg x)) as (D & V & c0 & r & E & _).
  pose proof (span_digits_app (digits (Z.abs x)) tail D T) as Sp.
  assert (N : map (fun c => c - 48) (digits (Z.abs x)) <> [])
    by (rewrite E; discriminate).
  destruct (Z.ltb_spec x 0) as [Hx|Hx].
  - change (str "-") with [45]. rewrite <- !app_assoc. cbn [app].
    unfold JSON.parse_exponent. change ((101 =? 101) || (101 =? 69)) with true.
    change (45 =? 45) with true. cbv iota. rewrite Sp.
    destruct (map _ (digits (Z.abs x))) as [|d ds] eqn:M; [contradiction|].
    rewrite V. f_equal. f_equal. lia.
  - change (str "+") with [43]. rewrite <- !app_assoc. cbn [app].
    unfold JSON.parse_exponent. change ((101 =? 101) || (101 =? 69)) with true.
    change (43 =? 45) with false. change (43 =? 43) with true. cbv iota. rewrite Sp.
    destruct (map _ (digits (Z.abs x))) as [|d ds] eqn:M; [contradiction|].
    rewrite V. f_equal. f_equal. lia.
Qed.

Lemma parse_exponent_stop tail :
  after_field tail -> JSON.parse_exponent tail = Some (0, tail).
Proof. exact (parse_exponent_none tail). Qed.

Lemma Number_of_decimal_shift neg s j :
  0 <= j ->
  Number_of_decimal (with_sign neg (s * 10 ^ j)) 0 = Number_of_decimal (with_sign neg s) j.
Proof.
  intros Hj. assert (P : 0 < 10 ^ j) by (apply Z.pow_pos_nonneg; lia).
  unfold Number_of_decimal.
  assert (Z0 : (with_sign neg (s * 10 ^ j) =? 0) = (with_sign neg s =? 0)).
  { destruct neg; cbn [with_sign];
      destruct (Z.eqb_spec s 0); [subst; reflexivity | | subst; reflexivity |];
      rewrite !eqb_false by nia; reflexivity. }
  rewrite Z0. destruct (with_sign neg s =? 0); [reflexivity|].
  assert (S0 : (with_sign neg (s * 10 ^ j) <? 0) = (with_sign neg s <? 0)).
  { destruct neg; cbn [with_sign];
      destruct (Z.ltb_spec s 0); destruct (Z.eq_dec s 0); subst;
      try (rewrite ?ltb_true, ?ltb_false by nia; reflexivity);
      try (destruct (Z.ltb_spec (- s) 0); destruct (Z.ltb_spec (- (s * 10 ^ j)) 0);
           try reflexivity; nia);
      try (destruct (Z.ltb_spec (s * 10 ^ j) 0); try reflexivity; nia). }
  rewrite S0. f_equal.
  - change (Z.max 0 0) with 0. rewrite (Z.max_l j 0) by lia.
    change (10 ^ 0) with 1. destruct neg; cbn [with_sign]; nia.
  - rewrite (Z.max_r (- j) 0) by lia. reflexivity.
Qed.


Section Layouts.

Variables (s : Z) (tail : jsstring).
Hypothesis Hs : 0 < s.
Hypothesis T : after_field tail.

Lemma layout_integer n :
  Z.of_nat (List.length (digits s)) <= n ->
  reads_parts (digits s ++ repeat 48 (Z.to_nat (n - Z.of_nat (List.length (digits s)))))
              s (n - Z.of_nat (List.length (digits s))) tail.
Proof.
  set (k := Z.of_nat (List.length (digits s))).
  intros Kn. destruct (digits_positive s Hs) as (D & V & c0 & r & E & C0).
  pose proof (after_field_stops tail T) as St.
  destruct T as (t0 & tr & Et & Ht).
  exists (map (fun c => c - 48) (digits s ++ repeat 48 (Z.to_nat (n - k)))), tail, [], tail, 0.
  split.
  { apply parse_int_part_span.
    - apply Forall_app. split; [exact D | apply Forall_repeat_48].
    - exact St.
    - exists c0, (r ++ repeat 48 (Z.to_nat (n - k))). rewrite E. split; [reflexivity | lia]. }
  split; [rewrite Et; apply parse_fraction_skip; destruct Ht; lia|].
  split; [now apply parse_exponent_none|].
  split; [exists c0, ((r ++ repeat 48 (Z.to_nat (n - k))) ++ tail); rewrite E;
          split; [reflexivity | lia]|].
  intros neg. rewrite app_nil_r, map_app, digits_value_app, V, map_repeat_48,
    digits_value_zeros, repeat_length, Z2Nat.id, Z.add_0_r by lia.
  cbn [List.length Z.of_nat]. rewrite Z.sub_0_r. apply Number_of_decimal_shift. lia.
Qed.

Lemma layout_point n :
  0 < n < Z.of_nat (List.length (digits s)) ->
  reads_parts (firstn (Z.to_nat n) (digits s) ++ str "." ++ skipn (Z.to_nat n) (digits s))
              s (n - Z.of_nat (List.length (digits s))) tail.
Proof.
  set (k := Z.of_nat (List.length (digits s))).
  intros Hn. destruct (digits_positive s Hs) as (D & V & c0 & r & E & C0).
  pose proof (after_field_stops tail T) as St.
  destruct T as (t0 & tr & Et & Ht).
  set (a := firstn (Z.to_nat n) (digits s)). set (b := skipn (Z.to_nat n) (digits s)).
  assert (AB : a ++ b = digits s) by apply firstn_skipn.
  assert (Da : Forall (fun c => 48 <= c <= 57) a /\ Forall (fun c => 48 <= c <= 57) b)
    by (apply Forall_app; now rewrite AB).
  assert (La : List.length a = Z.to_nat n)
    by (subst a; rewrite length_firstn; subst k; lia).
  assert (Lb : Z.of_nat (List.length b) = k - n).
  { assert (L : List.length (a ++ b) = List.length (digits s)) by now rewrite AB.
    rewrite length_app in L. subst k. lia. }
  assert (Ha : exists r', a = c0 :: r').
  { subst a. rewrite E. destruct (Z.to_nat n) as [|j] eqn:J; [lia|].
    cbn [firstn]. eexists; reflexivity. }
  destruct Ha as [r' Ea].
  exists (map (fun c => c - 48) a), (46 :: b ++ tail), (map (fun c => c - 48) b), tail, 0.
  change (str ".") with [46]. rewrite <- !app_assoc. cbn [app].
  split.
  { apply parse_int_part_span; [apply Da | reflexivity|].
    exists c0, r'. split; [exact Ea | lia]. }
  split.
  { apply parse_fraction_some; [apply Da | exact St|].
    intros B. rewrite B in Lb. cbn in Lb. lia. }
  split; [apply parse_exponent_none; exists t0, tr; auto|].
  split; [exists c0, (r' ++ 46 :: b ++ tail); rewrite Ea; split; [reflexivity | lia]|].
  intros neg. rewrite <- map_app, AB, V, length_map, Lb. f_equal. lia.
Qed.

Lemma layout_fraction n :
  n <= 0 ->
  reads_parts (str "0." ++ repeat 48 (Z.to_nat (- n)) ++ digits s)
              s (n - Z.of_nat (List.length (digits s))) tail.
Proof.
  set (k := Z.of_nat (List.length (digits s))).
  intros Hn. destruct (digits_positive s Hs) as (D & V & c0 & r & E & C0).
  pose proof (after_field_stops tail T) as St.
  destruct T as (t0 & tr & Et & Ht).
  set (fr := repeat 48 (Z.to_nat (- n)) ++ digits s).
  exists [0], (46 :: fr ++ tail), (map (fun c => c - 48) fr), tail, 0.
  change (str "0.") with [48; 46]. fold fr. rewrite <- !app_assoc. cbn [app].
  split; [reflexivity|].
  split.
  { apply parse_fraction_some; [|exact St|].
    - apply Forall_app. split; [apply Forall_repeat_48 | exact D].
    - subst fr. rewrite E. intros B. now apply app_eq_nil in B as [_ B]. }
  split; [apply parse_exponent_none; exists t0, tr; auto|].
  split; [exists 48, (46 :: fr ++ tail); split; [reflexivity | lia]|].
  intros neg. subst fr.
  rewrite length_map, length_app, repeat_length.
  cbn [app].
  assert (Vz : JSON.digits_value
                 (0 :: map (fun c => c - 48) (repeat 48 (Z.to_nat (- n)) ++ digits s)) = s).
  { rewrite map_app, map_repeat_48.
    change (0 :: repeat 0 (Z.to_nat (- n)) ++ map (fun c => c - 48) (digits s))
      with (repeat 0 (S (Z.to_nat (- n))) ++ map (fun c => c - 48) (digits s)).
    rewrite digits_value_app, digits_value_zeros, V. lia. }
  rewrite Vz. f_equal. subst k. lia.
Qed.

Lemma layout_exponent_one n :
  Z.of_nat (List.length (digits s)) = 1 ->
  reads_parts (digits s ++ exponent_part (n - 1))
              s (n - Z.of_nat (List.length (digits s))) tail.
Proof.
  set (k := Z.of_nat (List.length (digits s))).
  intros K1. destruct (digits_positive s Hs) as (D & V & c0 & r & E & C0).
  pose proof (after_field_stops tail T) as St.
  exists (map (fun c => c - 48) (digits s)), (exponent_part (n - 1) ++ tail), [],
    (exponent_part (n - 1) ++ tail), (n - 1).
  rewrite <- !app_assoc.
  split.
  { apply parse_int_part_span; [exact D | reflexivity|].
    exists c0, r. split; [exact E | lia]. }
  split; [apply parse_fraction_skip; discriminate|].
  split; [now apply parse_exponent_part|].
  split; [exists c0, (r ++ exponent_part (n - 1) ++ tail); rewrite E;
          split; [reflexivity | lia]|].
  intros neg. rewrite app_nil_r, V. cbn [List.length Z.of_nat]. f_equal. lia.
Qed.

Lemma layout_exponent n :
  1 < Z.of_nat (List.length (digits s)) ->
  reads_parts (firstn 1 (digits s) ++ str "." ++ skipn 1 (digits s) ++ exponent_part (n - 1))
              s (n - Z.of_nat (List.length (digits s))) tail.
Proof.
  set (k := Z.of_nat (List.length (digits s))).
  intros K1. destruct (digits_positive s Hs) as (D & V & c0 & r & E & C0).
  pose proof (after_field_stops tail T) as St.
  assert (Lr : Z.of_nat (List.length r) = k - 1)
    by (subst k; rewrite E; cbn [List.length]; lia).
  assert (Dr : Forall (fun c => 48 <= c <= 57) r) by (rewrite E in D; now inversion D).
  rewrite E in V |- *. cbn [firstn skipn].
  exists [c0 - 48], (46 :: r ++ exponent_part (n - 1) ++ tail), (map (fun c => c - 48) r),
    (exponent_part (n - 1) ++ tail), (n - 1).
  change (str ".") with [46]. rewrite <- !app_assoc. cbn [app].
  split.
  { apply (parse_int_part_span [c0] (46 :: r ++ exponent_part (n - 1) ++ tail));
      [constructor; [lia | constructor] | reflexivity|].
    exists c0, []. split; [reflexivity | lia]. }
  split.
  { apply parse_fraction_some; [exact Dr | reflexivity|].
    intros B. rewrite B in Lr. cbn in Lr. lia. }
  split; [now apply parse_exponent_part|].
  split; [exists c0, (46 :: r ++ exponent_part (n - 1) ++ tail); split; [reflexivity | lia]|].
  intros neg. cbn [map] in V. rewrite V, length_map, Lr. f_equal. lia.
Qed.

(** The parts [JSON.parse] finds in the digits [Number::toString] laid
    out, and the number they denote. *)
Lemma layout_parts n :
  reads_parts (layout_decimal (digits s) n)
              s (n - Z.of_nat (List.length (digits s))) tail.
Proof.
  set (k := Z.of_nat (List.length (digits s))).
  unfold layout_decimal. fold k.
  assert (Hk : 1 <= k).
  { destruct (digits_positive s Hs) as (_ & _ & c0 & r & E & _).
    subst k. rewrite E. cbn [List.length]. lia. }
  destruct (Z.leb_spec k n) as [A|A]; [destruct (Z.leb_spec n 21) as [B|B]|]; cbn [andb].
  - now apply layout_integer.
  - rewrite (ltb_true 0 n), (ltb_true (-6) n), (leb_false n 0) by lia. cbn [andb].
    destruct (Z.eqb_spec k 1); [apply layout_exponent_one | apply layout_exponent]; lia.
  - destruct (Z.ltb_spec 0 n) as [C|C]; [destruct (Z.leb_spec n 21) as [B|B]|]; cbn [andb].
    + apply layout_point. lia.
    + rewrite (ltb_true (-6) n), (leb_false n 0) by lia. cbn [andb].
      destruct (Z.eqb_spec k 1); [apply layout_exponent_one | apply layout_exponent]; lia.
    + rewrite (leb_true n 0) by lia. rewrite andb_true_r.
      destruct (Z.ltb_spec (-6) n) as [F|F]; [now apply layout_fraction|].
      destruct (Z.eqb_spec k 1); [apply layout_exponent_one | apply layout_exponent]; lia.
Qed.

End Layouts.

Lemma parse_number_parts (neg : bool) text tail ids s2 fds s3 ex :
  JSON.parse_int_part text = Some (ids, s2) ->
  JSON.parse_fraction s2 = Some (fds, s3) ->
  JSON.parse_exponent s3 = Some (ex, tail) ->
  (exists c0 r, text = c0 :: r /\ 48 <= c0 <= 57) ->
  JSON.parse_number ((if neg then str "-" else []) ++ text)
  = Some (Number_of_decimal (with_sign neg (JSON.digits_value (ids ++ fds)))
                            (ex - Z.of_nat (List.length fds)), tail).
Proof.
  intros I F X (c0 & r & E & C). unfold JSON.parse_number.
  assert (Sg : JSON.parse_sign ((if neg then str "-" else []) ++ text) = (neg, text)).
  { destruct neg; [reflexivity|]. rewrite E. cbn [app JSON.parse_sign].
    now rewrite eqb_false by lia. }
  rewrite Sg, I, F, X. reflexivity.
Qed.

Lemma binary64_canonical m e :
  binary64 (Bin m e) = true -> canonical (Z.abs m) e.
Proof.
  intros B. cbn [binary64] in B. apply andb_true_iff in B as [B1 B2].
  split.
  - apply orb_true_iff in B1 as [B1|B1].
    + left. repeat (apply andb_true_iff in B1 as [B1 ?]).
      rewrite ?Z.leb_le, ?Z.ltb_lt in *. lia.
    + right. repeat (apply andb_true_iff in B1 as [B1 ?]).
      rewrite ?Z.leb_le, ?Z.ltb_lt, ?Z.eqb_eq in *. lia.
  - apply orb_true_iff in B2 as [B2|B2].
    + left. now apply Z.ltb_lt.
    + right. apply andb_true_iff in B2 as [B2 B3]. apply Z.ltb_lt in B2.
      apply negb_true_iff, Z.eqb_neq in B3. auto.
Qed.

(** [JSON.parse] reads back the text [JSON.stringify] wrote for a value of
    the format that is no safe integer. *)
Lemma parse_number_binary64 m e tail :
  binary64 (Bin m e) = true -> after_field tail ->
  JSON.parse_number (Number_toString (Bin m e) ++ tail) = Some (Bin m e, tail)
  /\ exists c r, Number_toString (Bin m e) ++ tail = c :: r /\ (48 <= c <= 57 \/ c = 45).
Proof.
  intros B T. pose proof (binary64_canonical m e B) as C.
  assert (Hm : 0 < Z.abs m) by (destruct C as [[[M _]|[M _]] _]; lia).
  pose proof (Number_digits_reads (Z.abs m) e C) as R.
  cbn [Number_toString].
  destruct (Number_digits (Z.abs m) e) as [s n]. cbn [reads_as] in R.
  apply andb_true_iff in R as [Hs R]. apply Z.ltb_lt in Hs.
  destruct (Number_of_decimal s (n - Z.of_nat (List.length (digits s)))) as [| | |z|m' e'] eqn:N;
    try discriminate R.
  cbn [Number_same] in R. apply andb_true_iff in R as [R1 R2].
  apply Z.eqb_eq in R1, R2. subst m' e'.
  destruct (layout_parts s tail Hs T n) as (ids & s2 & fds & s3 & ex & I & F & X & H & V).
  rewrite <- app_assoc. split.
  - rewrite (parse_number_parts (m <? 0) _ tail ids s2 fds s3 ex I F X H), V.
    f_equal. f_equal.
    destruct (Z.ltb_spec m 0) as [Neg|Pos]; cbn [with_sign].
    + rewrite (Number_of_decimal_opp s _ (Z.abs m) e Hs Hm N). f_equal. lia.
    + rewrite N. f_equal. lia.
  - destruct (m <? 0); [eexists 45, _; split; [reflexivity | now right]|].
    destruct H as (c0 & r & E & Hc). exists c0, r. split; [exact E | now left].
Qed.

(** ** The encoding of events: strings and numbers *)

Lemma event_field_defined v :
  event_field v -> JSON.SerializeJSONProperty v = Some (field_text v).
Proof.
  destruct v as [| |b|x|s|l|o]; cbn [event_field]; try contradiction; reflexivity.
Qed.

Lemma stringify_event_record E :
  Forall (fun kv => event_field (snd kv)) E ->
  JSON.stringify (JObject E) = Some (record_text E).
Proof.
  intros F. unfold JSON.stringify, record_text. cbn [JSON.SerializeJSONProperty].
  do 4 f_equal.
  induction F as [|[k v] E Fv _ IH]; [reflexivity|].
  cbn [map snd] in *. rewrite (event_field_defined v Fv), IH. reflexivity.
Qed.

(** [JSON.parse] reads the text of a field of an event as the field, and
    as null when it is a number that is not finite. *)
Lemma parse_event_field v tail f :
  event_field v -> after_field tail ->
  JSON.parse_value (S f) (field_text v ++ tail) = JSON.Parsed (received v) tail.
Proof.
  intros F T.
  destruct v as [| |b|x|s|l|o]; cbn [event_field] in F; try contradiction.
  - destruct x as [| | |z|m e];
      try (destruct T as (t0 & r & -> & [-> | ->]); reflexivity).
    + apply (parse_field (JNumber (Int z)) tail f); [|exact T].
      cbn [finite_field binary64] in *. unfold safe_integerb in F.
      apply andb_true_iff in F as [A B]. apply Z.leb_le in A, B.
      unfold safe_integer. lia.
    + change (field_text (JNumber (Bin m e))) with (Number_toString (Bin m e)).
      destruct (parse_number_binary64 m e tail F T) as [P (c & r & E & Hc)].
      rewrite E in *. rewrite parse_value_number by assumption. now rewrite P.
  - now apply (parse_field (JString s) tail f).
Qed.

Lemma parse_event_member f k v rest acc :
  Forall code_unit k -> event_field v -> after_field rest ->
  JSON.parse_members (S (S f)) (member_text (k, v) ++ rest) acc
  = match rest with
    | d :: r4 =>
        if d =? 44
        then JSON.parse_members (S f) r4 (JSON.CreateDataProperty acc k (received v))
        else if d =? 125
             then JSON.Parsed (JObject (JSON.CreateDataProperty acc k (received v))) r4
             else JSON.Invalid
    | [] => JSON.Invalid
    end.
Proof.
  intros K F T. unfold member_text, JSON.QuoteJSONString. cbn [fst snd].
  change (str ":") with [58]. rewrite <- !app_assoc. cbn [app].
  rewrite parse_members_quote, parse_quote_chars by assumption.
  cbn [JSON.skip_ws]. change (JSON.is_ws 58) with false. change (58 =? 58) with true.
  cbv iota. rewrite (parse_event_field v rest f F T), (after_field_skip_ws rest T).
  reflexivity.
Qed.

Lemma parse_members_event E : forall acc fuel tail,
  E <> [] ->
  Forall (fun kv => Forall code_unit (fst kv) /\ event_field (snd kv)) E ->
  (List.length E < fuel)%nat ->
  JSON.parse_members fuel (join (str ",") (map member_text E) ++ 125 :: tail) acc
  = JSON.Parsed
      (JObject (fold_left (fun o kv => JSON.CreateDataProperty o (fst kv) (snd kv))
                          (received_record E) acc))
      tail.
Proof.
  induction E as [|[k v] E IH]; intros acc fuel tail N F L; [contradiction|].
  inversion F as [|? ? [K Fv] F']. subst. cbn [fst snd] in *.
  destruct fuel as [|[|f]]; cbn [List.length] in L; try lia.
  destruct E as [|kv' E].
  - cbn [map join fold_left fst snd received_record].
    rewrite parse_event_member; try assumption;
      [reflexivity | exists 125, tail; auto].
  - set (E' := kv' :: E) in *.
    assert (J : join (str ",") (map member_text ((k, v) :: E'))
                = member_text (k, v) ++ 44 :: join (str ",") (map member_text E'))
      by reflexivity.
    rewrite J, <- app_assoc. cbn [app].
    rewrite parse_event_member; try assumption;
      [|eexists 44, _; split; [reflexivity | now left]].
    change (44 =? 44) with true. cbv iota.
    rewrite IH; [reflexivity | discriminate | assumption | cbn [List.length] in *; lia].
Qed.

Lemma forallb_received (p : jsstring -> bool) E :
  forallb (fun kv => p (fst kv)) (received_record E) = forallb (fun kv => p (fst kv)) E.
Proof.
  induction E as [|[k v] E IH]; [reflexivity|].
  cbn [received_record map forallb fst]. fold (received_record E). now rewrite IH.
Qed.

Lemma own_keys_ordered_received E :
  own_keys_ordered (received_record E) = own_keys_ordered E.
Proof.
  induction E as [|[k v] E IH]; [reflexivity|].
  cbn [received_record map own_keys_ordered fst snd]. fold (received_record E).
  rewrite IH. f_equal.
  apply (forallb_received (fun x => negb (jsstring_eqb x k) && negb (JSON.key_before x k))).
Qed.

(** [JSON.parse] reads the text [JSON.stringify] wrote for an event as the
    event with null for its numbers that are not finite. *)
Lemma parse_event_record_text E :
  flat_record event_field E ->
  JSON.parse (record_text E) = Some (JObject (received_record E)).
Proof.
  intros [O F]. unfold JSON.parse, record_text.
  change (str "{") with [123]. change (str "}") with [125]. cbn [app].
  destruct E as [|[k v] E]; [reflexivity|].
  set (E' := (k, v) :: E) in *.
  assert (Q : exists r, join (str ",") (map member_text E') = 34 :: r).
  { subst E'. cbn [map join]. destruct (map member_text E); eexists; reflexivity. }
  destruct Q as [r Q].
  pose (text := 123 :: join (str ",") (map member_text E') ++ [125]).
  assert (L : (List.length E' < 2 * List.length text)%nat).
  { subst text. cbn [List.length]. rewrite length_app.
    pose proof (join_length (str ",") (map member_text E')) as J.
    rewrite length_map in J. cbn [List.length].
    assert (Forall (fun p => p <> []) (map member_text E')).
    { apply Forall_forall. intros p Hp. apply in_map_iff in Hp as ([k' v'] & <- & _).
      discriminate. }
    specialize (J H). lia. }
  fold text. fold text in L.
  assert (T : text = 123 :: join (str ",") (map member_text E') ++ [125]) by reflexivity.
  clearbody text. rewrite T at 2. clear T.
  cbn [JSON.parse_value]. cbn [JSON.skip_ws]. change (JSON.is_ws 123) with false.
  change (123 =? 123) with true. cbv iota.
  pose proof (parse_members_event E' [] _ [] ltac:(discriminate) F L) as P.
  rewrite Q in *. cbn [app] in *. cbn [JSON.skip_ws]. change (JSON.is_ws 34) with false.
  change (34 =? 125) with false. cbv iota.
  rewrite P. cbn [JSON.skip_ws].
  rewrite (create_properties_in_order (received_record E') []); [reflexivity|].
  cbn [app]. now rewrite own_keys_ordered_received.
Qed.

(** *** The text of an event is well-formed UTF-16 *)

Lemma ascii_digits n : 0 <= n -> Forall ascii_unit (digits n).
Proof.
  intros H. eapply Forall_impl; [|apply digits_range; exact H].
  unfold ascii_unit. cbv beta. intros; lia.
Qed.

Lemma ascii_firstn_skipn n (s : jsstring) :
  Forall ascii_unit s -> Forall ascii_unit (firstn n s) /\ Forall ascii_unit (skipn n s).
Proof. intros H. apply Forall_app. now rewrite firstn_skipn. Qed.

Lemma ascii_repeat_48 j : Forall ascii_unit (repeat 48 j).
Proof. induction j; cbn [repeat]; constructor; [unfold ascii_unit; lia | assumption]. Qed.

Lemma ascii_exponent_part x : Forall ascii_unit (exponent_part x).
Proof.
  unfold exponent_part. change (str "e") with [101].
  apply Forall_app. split; [constructor; [unfold ascii_unit; lia | constructor]|].
  apply Forall_app. split; [|apply ascii_digits, Z.abs_nonneg].
  destruct (x <? 0); constructor; try constructor; unfold ascii_unit; cbn; lia.
Qed.

Lemma ascii_layout_decimal s n : Forall ascii_unit s -> Forall ascii_unit (layout_decimal s n).
Proof.
  intros H. unfold layout_decimal.
  assert (P : Forall ascii_unit (str ".")) by (constructor; [unfold ascii_unit; cbn; lia | constructor]).
  assert (Q : Forall ascii_unit (str "0."))
    by (repeat constructor; unfold ascii_unit; cbn; lia).
  repeat match goal with
         | |- Forall _ (if ?b then _ else _) => destruct b
         | |- Forall _ (_ ++ _) => apply Forall_app; split
         end;
    try assumption;
    try apply ascii_repeat_48; try apply ascii_exponent_part;
    try apply (ascii_firstn_skipn _ _ H).
Qed.

Lemma well_formed_event_field_text v : event_field v -> well_formed (field_text v).
Proof.
  destruct v as [| |b|x|s|l|o]; cbn [event_field]; try contradiction.
  - intros B. apply well_formed_ascii. fold ascii_unit.
    destruct x as [| | |z|m e]; try (repeat constructor; cbn; lia).
    + change (field_text (JNumber (Int z))) with (Number_toString (Int z)).
      cbn [Number_toString]. destruct (Z.ltb_spec z 0).
      * apply Forall_app. split; [|apply ascii_digits; lia].
        constructor; [unfold ascii_unit; cbn; lia | constructor].
      * apply ascii_digits; lia.
    + change (field_text (JNumber (Bin m e))) with (Number_toString (Bin m e)).
      cbn [Number_toString].
      pose proof (Number_digits_nonneg (Z.abs m) e (Z.abs_nonneg m)) as H.
      destruct (Number_digits (Z.abs m) e) as [s n]. cbn [fst] in H.
      apply Forall_app. split.
      * destruct (m <? 0); [|apply Forall_nil].
        apply Forall_cons; [unfold ascii_unit; cbn; lia | apply Forall_nil].
      * apply ascii_layout_decimal. now apply ascii_digits.
  - intros U. now apply well_formed_QuoteJSONString.
Qed.

Lemma well_formed_event_record_text E :
  flat_record event_field E -> well_formed (record_text E).
Proof.
  intros [_ F]. unfold record_text.
  assert (A : forall c, 0 <= c < 128 -> well_formed [c])
    by (intros c Hc; apply well_formed_ascii; constructor; [exact Hc | constructor]).
  apply well_formed_app; [apply A; cbn; lia|].
  apply well_formed_app; [|apply A; cbn; lia].
  apply well_formed_join; [apply A; cbn; lia|].
  apply Forall_forall. intros p Hp. apply in_map_iff in Hp as ([k v] & <- & Hin).
  rewrite Forall_forall in F. destruct (F _ Hin) as [K Fv]. cbn [fst snd] in *.
  unfold member_text. cbn [fst snd].
  apply well_formed_app; [now apply well_formed_QuoteJSONString|].
  apply well_formed_app; [apply A; cbn; lia | now apply well_formed_event_field_text].
Qed.

(** ** The round trip of an event: strings and numbers *)

Lemma encode_decode_event E :
  flat_record event_field E ->
  encode (JObject E) = Some (Buffer.from (record_text E))
  /\ decode (Buffer.from (record_text E)) = Some (JObject (received_record E)).
Proof.
  intros F. unfold encode, decode.
  rewrite (stringify_event_record E)
    by (eapply Forall_impl; [|exact (proj2 F)]; cbv beta; tauto).
  split; [reflexivity|].
  rewrite (utf8_round_trip _ (well_formed_event_record_text E F)).
  now apply parse_event_record_text.
Qed.

(** What is received is what was sent exactly when every number is
    finite. *)
Lemma received_record_same E :
  received_record E = E <-> finite_fields E = true.
Proof.
  induction E as [|[k v] E IH]; [split; reflexivity|].
  cbn [received_record map finite_fields forallb fst snd]. fold (received_record E).
  fold (finite_fields E). rewrite andb_true_iff, <- IH. split.
  - intros H. injection H as H1 H2. split; [|exact H2].
    destruct v as [| |b|x|s|l|o]; try reflexivity.
    cbn [received] in H1. destruct (Number_isFinite x); [reflexivity | discriminate H1].
  - intros [H1 H2]. rewrite H2. do 2 f_equal.
    destruct v as [| |b|x|s|l|o]; try reflexivity. cbn [received]. now rewrite H1.
Qed.

Lemma register_overflow_body :
  JSON.parse register_overflow_text
  = Some (JObject [(str "username", JNumber Infinity);
                   (str "email", JString (str "a@x.io"));
                   (str "password", JString (str "p"))]).
Proof. vm_compute. reflexivity. Qed.

(** A registration whose [username] is the numeral 1e400 in the request
    body: [express.json()] reads it as Infinity, the handler puts it in the
    event, [JSON.stringify] writes null for it, and the subscriber decodes
    an event whose [username] is null.  The event is a flat record of
    strings and numbers, and decoding what was encoded does not give it
    back. *)
Lemma infinite_field_does_not_round_trip :
  let w := snd (start_subscriber broker_up None init) in
  let E := registration_event (JNumber (Int 7)) (body_prop register_overflow "username")
                              (body_prop register_overflow "email") in
  body_prop register_overflow "username" = JNumber Infinity
  /\ flat_record event_field E
  /\ history (snd (register broker_up register_overflow (Return (str "$2b$10$hash"))
                     (QueryResult (JNumber (Int 7))) w))
     = history w
       ++ [declare_exchange 1%nat;
           Publish 1%nat (str "events") (str "")
             (Buffer.from
                (json_text "{'eventType':'userRegistered','userId':7,'username':null,'email':'a@x.io'}"))]
  /\ decode (Buffer.from
               (json_text "{'eventType':'userRegistered','userId':7,'username':null,'email':'a@x.io'}"))
     = Some (JObject [(str "eventType", JString (str "userRegistered"));
                      (str "userId", JNumber (Int 7));
                      (str "username", JNull);
                      (str "email", JString (str "a@x.io"))])
  /\ ~ round_trips E.
Proof.
  cbv zeta.
  assert (U : body_prop register_overflow "username" = JNumber Infinity)
    by (vm_compute; reflexivity).
  assert (M : body_prop register_overflow "email" = JString (str "a@x.io"))
    by (vm_compute; reflexivity).
  split; [exact U|]. rewrite U, M.
  split.
  { split; [reflexivity|].
    repeat (apply Forall_cons;
            [split; [apply code_units_literal; reflexivity|]|]);
      try apply Forall_nil; cbn [snd event_field];
      try (apply code_units_literal; reflexivity); reflexivity. }
  split; [vm_compute; reflexivity|]. split; [vm_compute; reflexivity|].
  intros (bytes & H1 & H2). vm_compute in H1. injection H1 as <-.
  vm_compute in H2. discriminate H2.
Qed.

Section RoundTrip.

Variable amqp : Amqp.
Variable syntax_error_message : jsstring -> jsstring.

(** C2, corrected.  An event that is a flat record of strings and numbers
    - the numbers any values of the binary64 format: safe integers,
    fractions, integers beyond the safe range, NaN and the infinities - is
    encoded to bytes whose decoding is the event with null in the place of
    every number that is not finite, and with every string and every finite
    number as it was, key for key and value for value.  So decoding what
    was encoded gives the event itself exactly when all its numbers are
    finite.  These are the bytes [publishEvent] hands to [channel.publish],
    and from them the consume callback rebuilds the event it passes to
    [logEventToFile]. *)
Theorem event_round_trip now E w ch :
  flat_record event_field E ->
  channel w = Some ch ->
  exists bytes,
    encode (JObject E) = Some bytes
    /\ decode bytes = Some (JObject (received_record E))
    /\ (decode bytes = Some (JObject E) <-> finite_fields E = true)
    /\ history (snd (publishEvent amqp (JObject E) w))
       = history w ++ [declare_exchange ch; Publish ch (str "events") (str "") bytes]
    /\ forall w',
         on_message syntax_error_message now (Some {| content := ContentBuffer bytes |}) w'
         = (Return tt,
            mkWorld (channel w') (history w') (console_out w') (files w')
                    (fs_pending w' ++
                       [{| req_path := str "events.log";
                           req_data := logEntry now (JObject (received_record E)) |}])
                    (responses w')).
Proof.
  intros F C. destruct (encode_decode_event E F) as [He Hd].
  exists (Buffer.from (record_text E)).
  split; [exact He|]. split; [exact Hd|]. split; [|split].
  - rewrite Hd, <- received_record_same. split.
    + intros H. now injection H.
    + intros ->. reflexivity.
  - rewrite (publishEvent_history amqp (JObject E) w ch C).
    rewrite (stringify_event_record E)
      by (eapply Forall_impl; [|exact (proj2 F)]; cbv beta; tauto).
    reflexivity.
  - intros w'. exact (on_message_decoded syntax_error_message now _ _ w' Hd).
Qed.

End RoundTrip.

Lemma ev_demo_is_a_flat_record : flat_record finite_field ev_demo_props.
Proof.
  split; [reflexivity|].
  repeat (apply Forall_cons;
          [split; [apply code_units_literal; reflexivity|]|]);
    try apply Forall_nil;
    try (apply code_units_literal; reflexivity).
  cbn [snd finite_field]. unfold safe_integer, max_safe_integer. lia.
Qed.

Lemma ev_numbers_is_a_flat_record : flat_record event_field ev_numbers.
Proof.
  split; [reflexivity|].
  repeat (apply Forall_cons;
          [split; [apply code_units_literal; reflexivity|]|]);
    try apply Forall_nil; cbn [snd];
    try (apply code_units_literal; reflexivity);
    vm_compute; reflexivity.
Qed.

Lemma event_round_trip_witness :
  (flat_record event_field ev_numbers
   /\ channel (snd (start_subscriber broker_up None init)) = Some 1%nat)
  /\ encode (JObject ev_numbers)
     = Some (Buffer.from
               (json_text "{'eventType':'scored','userId':7,'score':2.5,'total':9007199254740992,'rate':-1e-7,'limit':null}"))
  /\ exists bytes,
       encode (JObject ev_numbers) = Some bytes
       /\ decode bytes
          = Some (JObject [(str "eventType", JString (str "scored"));
                           (str "userId", JNumber (Int 7));
                           (str "score", JNumber (Number_of_decimal 25 (-1)));
                           (str "total", JNumber (Number_of_decimal 9007199254740992 0));
                           (str "rate", JNumber (Number_of_decimal (-1) (-7)));
                           (str "limit", JNull)])
       /\ decode bytes <> Some (JObject ev_numbers).
Proof.
  split; [split; [exact ev_numbers_is_a_flat_record | reflexivity]|].
  split; [vm_compute; reflexivity|].
  destruct (event_round_trip broker_up wording_demo 0 ev_numbers
              (snd (start_subscriber broker_up None init)) 1%nat
              ev_numbers_is_a_flat_record eq_refl)
    as (bytes & A & B & C & _).
  exists bytes. split; [exact A|]. split; [exact B|].
  assert (N : finite_fields ev_numbers = false) by (vm_compute; reflexivity).
  intros D. apply C in D. rewrite N in D. discriminate D.
Defined.

(* ===================================================================== *)
(** * Further properties of the program *)
(* ===================================================================== *)

(** ** [publishEvent] and the /register handler *)

Section PublishAndRegister.

Variable amqp : Amqp.

(** [publishEvent] changes nothing but the record of the broker calls. *)
Lemma publishEvent_frame event w :
  let w' := snd (publishEvent amqp event w) in
  channel w' = channel w /\ console_out w' = console_out w
  /\ files w' = files w /\ fs_pending w' = fs_pending w /\ responses w' = responses w.
Proof.
  cbv zeta. unfold publishEvent, bind, channel_member, broker_call_dropped,
    Buffer_from, broker_call, ret, throw.
  destruct (channel w) as [ch|] eqn:C; [|cbn [snd]; auto].
  cbn [channel]. rewrite ?C.
  destruct (JSON.stringify event) as [t|]; [|cbn; auto].
  cbn [history].
  destruct (publish amqp _ ch exchange (str "") (Buffer.from t)); cbn; auto.
Qed.

(** X1. What [publishEvent] does, case by case.  Without a channel it
    throws the TypeError of [channel.assertExchange] and has done nothing.
    With a channel it first declares the exchange; an event that
    [JSON.stringify] turns into [undefined] then makes [Buffer.from] throw,
    with the exchange declared and nothing published; any other event is
    published once, as the UTF-8 bytes of its JSON text, with the empty
    routing key, and [publishEvent] throws exactly when [channel.publish]
    does.  The console, the files and the responses are never touched. *)
Theorem publishEvent_cases event w :
  let w' := snd (publishEvent amqp event w) in
  match channel w with
  | None =>
      publishEvent amqp event w = (Throw (cannot_read "undefined" "assertExchange"), w)
  | Some ch =>
      match JSON.stringify event with
      | None =>
          (exists e, fst (publishEvent amqp event w) = Throw e)
          /\ history w' = history w ++ [declare_exchange ch]
      | Some t =>
          fst (publishEvent amqp event w)
          = match publish amqp (history w ++ [declare_exchange ch]) ch
                    (str "events") (str "") (Buffer.from t) with
            | Return _ => Return tt
            | Throw e => Throw e
            end
          /\ history w' = history w ++ [declare_exchange ch;
                                        Publish ch (str "events") (str "") (Buffer.from t)]
      end
  end
  /\ channel w' = channel w /\ console_out w' = console_out w
  /\ files w' = files w /\ fs_pending w' = fs_pending w /\ responses w' = responses w.
Proof.
  cbv zeta. unfold publishEvent, bind, channel_member, broker_call_dropped,
    Buffer_from, broker_call, ret, throw, declare_exchange, exchange.
  destruct (channel w) as [ch|] eqn:C;
    [|cbn [snd]; repeat split; (reflexivity || assumption)].
  cbn [channel]. rewrite ?C.
  destruct (JSON.stringify event) as [t|].
  - cbn [history].
    destruct (publish amqp _ ch (str "events") (str "") (Buffer.from t)) as [ok|e];
      cbn [fst snd history channel console_out files fs_pending responses];
      rewrite <- ?app_assoc; repeat split; try assumption; reflexivity.
  - cbn [fst snd history channel console_out files fs_pending responses].
    repeat split; try assumption; eauto.
Qed.

(** X2. The /register handler calls the broker client only after a
    successful insert: when the hashing is rejected or the insert fails, no
    exchange is declared and no event is published. *)
Theorem register_publishes_only_after_insert req_body hashed reply w :
  history (snd (register amqp req_body hashed reply w)) <> history w ->
  exists hashedPassword insertId,
    hashed = Return hashedPassword /\ reply = QueryResult insertId.
Proof.
  intros H. destruct hashed as [h|e]; [|now contradiction H].
  destruct reply as [err|id]; [|eauto].
  now contradiction H.
Qed.

Lemma snoc_not_same {A} (l : list A) x : l ++ [x] <> l.
Proof.
  intros H. apply (f_equal (@List.length A)) in H.
  rewrite length_app in H. cbn in H. lia.
Qed.

(** X3. A registration whose insert succeeded is answered, with status 200
    and once, exactly when the event was handed to the broker client: there
    is a channel and [channel.publish] returned.  In every other case no
    response at all has been sent. *)
Theorem register_answers_iff_published req_body hashedPassword insertId w :
  let event := JObject (registration_event insertId (body_prop req_body "username")
                                           (body_prop req_body "email")) in
  let w' := snd (register amqp req_body (Return hashedPassword) (QueryResult insertId) w) in
  let published :=
    exists ch t ok,
      channel w = Some ch /\ JSON.stringify event = Some t
      /\ publish amqp (history w ++ [declare_exchange ch]) ch (str "events") (str "")
           (Buffer.from t) = Return ok in
  (published <-> responses w' = responses w ++ [registered_response])
  /\ (responses w' = responses w ++ [registered_response] \/ responses w' = responses w).
Proof.
  cbv zeta. unfold register, register_inserted.
  set (event := JObject _).
  unfold bind. unfold publishEvent, bind, channel_member, broker_call_dropped,
    Buffer_from, broker_call, ret, throw, send_response, exchange in *.
  destruct (channel w) as [ch|] eqn:C.
  - cbn [channel]. rewrite ?C. fold (declare_exchange ch).
    assert (S : exists t, JSON.stringify event = Some t) by (eexists; reflexivity).
    destruct S as [t S]. rewrite S. cbn [history].
    destruct (publish amqp (history w ++ [declare_exchange ch]) ch (str "events") (str "")
                (Buffer.from t)) as [ok|e] eqn:P.
    + split; [|now left]. split; [reflexivity|]. intros _. exists ch, t, ok. auto.
    + split; [|now right]. split.
      * intros (ch' & t' & ok & C' & S' & P'). congruence.
      * cbn [snd responses]. intros H. symmetry in H. now apply snoc_not_same in H.
  - rewrite ?C. split; [|now right]. split.
    + intros (ch' & t' & ok & C' & _). discriminate C'.
    + cbn [snd]. intros H. symmetry in H. now apply snoc_not_same in H.
Qed.

End PublishAndRegister.

Lemma register_publishes_only_after_insert_witness :
  let w := snd (start_subscriber broker_up None init) in
  history (snd (register broker_up ev_demo (Return (str "$2b$10$hash"))
                  (QueryResult (JNumber (Int 7))) w))
  <> history w
  /\ exists hashedPassword insertId,
       Return (str "$2b$10$hash") = Return hashedPassword
       /\ QueryResult (JNumber (Int 7)) = QueryResult insertId.
Proof.
  cbv zeta.
  assert (H : history (snd (register broker_up ev_demo (Return (str "$2b$10$hash"))
                              (QueryResult (JNumber (Int 7)))
                              (snd (start_subscriber broker_up None init))))
              <> history (snd (start_subscriber broker_up None init)))
    by (vm_compute; discriminate).
  split; [exact H|].
  exact (register_publishes_only_after_insert broker_up ev_demo _ _ _ H).
Defined.

(** ** Startup *)

Section Startup.

Variable amqp : Amqp.
Variable url : option jsstring.

Lemma createChannel_channel_creation_fails w c e :
  connect amqp (history w) url = Return c ->
  createChannel_reply amqp (history w ++ [Connect url]) c = Throw e ->
  createChannel amqp url w =
    (Return tt,
     mkWorld (channel w) (history w ++ [Connect url; CreateChannel c])
             (console_out w ++ [connecting_error e])
             (files w) (fs_pending w) (responses w)).
Proof.
  intros H1 H2. unfold createChannel, try_catch, bind, broker_call.
  rewrite H1. cbn [history]. rewrite H2. cbn. now rewrite <- app_assoc.
Qed.

(** X4. [createChannel] never throws, whatever the broker client does, and
    it logs exactly when it failed: either both [amqp.connect] and
    [connection.createChannel] succeeded, [channel] is the new channel and
    nothing was logged; or one of them failed, [channel] is what it was
    before the call, and the failure is on the console once, under the
    message "Error connecting to RabbitMQ" also when it was the channel
    creation that failed.  Files, pending appends and responses are not
    touched. *)
Theorem createChannel_outcomes w :
  let w' := snd (createChannel amqp url w) in
  fst (createChannel amqp url w) = Return tt
  /\ ((exists c ch,
          connect amqp (history w) url = Return c
          /\ createChannel_reply amqp (history w ++ [Connect url]) c = Return ch
          /\ channel w' = Some ch
          /\ history w' = history w ++ [Connect url; CreateChannel c]
          /\ console_out w' = console_out w)
      \/ (exists e,
            (connect amqp (history w) url = Throw e
             /\ history w' = history w ++ [Connect url]
             \/ exists c,
                  connect amqp (history w) url = Return c
                  /\ createChannel_reply amqp (history w ++ [Connect url]) c = Throw e
                  /\ history w' = history w ++ [Connect url; CreateChannel c])
            /\ channel w' = channel w
            /\ console_out w' = console_out w ++ [connecting_error e]))
  /\ files w' = files w /\ fs_pending w' = fs_pending w /\ responses w' = responses w.
Proof.
  cbv zeta.
  destruct (connect amqp (history w) url) as [c|e] eqn:H1.
  2:{ rewrite (createChannel_connect_fails amqp url w e H1). cbn [fst snd].
      cbn [channel history console_out files fs_pending responses].
      split; [reflexivity|]. split; [|auto]. right. exists e. auto. }
  destruct (createChannel_reply amqp (history w ++ [Connect url]) c) as [ch|e] eqn:H2.
  - rewrite (createChannel_succeeds amqp url w c ch H1 H2). cbn [fst snd].
    cbn [channel history console_out files fs_pending responses].
    split; [reflexivity|]. split; [|auto]. left. exists c, ch.
    rewrite <- app_assoc. auto.
  - rewrite (createChannel_channel_creation_fails w c e H1 H2). cbn [fst snd].
    cbn [channel history console_out files fs_pending responses].
    split; [reflexivity|]. split; [|auto]. right. exists e.
    split; [|auto]. right. exists c. auto.
Qed.

Ltac run_startup H1 H2 :=
  unfold start_subscriber, try_catch, subscribeToEvents;
  unfold bind at 1;
  first [rewrite (createChannel_succeeds _ _ _ _ _ H1 H2)
        |rewrite (createChannel_channel_creation_fails _ _ _ H1 H2)];
  unfold bind, channel_member, broker_call, broker_call_dropped, console.log,
    console.error, console.write, exchange, setup_error, declare_exchange in *;
  cbn [channel history console_out files fs_pending responses];
  rewrite <- ?app_assoc; cbn [app].

Lemma start_subscriber_channel_creation_fails w c e :
  channel w = None ->
  connect amqp (history w) url = Return c ->
  createChannel_reply amqp (history w ++ [Connect url]) c = Throw e ->
  start_subscriber amqp url w =
    (Return tt,
     mkWorld None (history w ++ [Connect url; CreateChannel c])
             (console_out w ++ [connecting_error e;
                                setup_error (cannot_read "undefined" "assertExchange")])
             (files w) (fs_pending w) (responses w)).
Proof.
  intros C H1 H2. run_startup H1 H2. rewrite C. cbn. now rewrite <- ?app_assoc.
Qed.

Lemma start_subscriber_exchange_refused w c ch e :
  connect amqp (history w) url = Return c ->
  createChannel_reply amqp (history w ++ [Connect url]) c = Return ch ->
  assertExchange amqp (history w ++ [Connect url; CreateChannel c]) ch
    (str "events") (str "fanout") {| durable := false |} = Throw e ->
  start_subscriber amqp url w =
    (Return tt,
     mkWorld (Some ch) (history w ++ [Connect url; CreateChannel c; declare_exchange ch])
             (console_out w ++ [setup_error e])
             (files w) (fs_pending w) (responses w)).
Proof.
  intros H1 H2 H3. run_startup H1 H2. rewrite H3.
  cbn. now rewrite <- ?app_assoc.
Qed.

Lemma start_subscriber_queue_refused w c ch e :
  connect amqp (history w) url = Return c ->
  createChannel_reply amqp (history w ++ [Connect url]) c = Return ch ->
  assertExchange amqp (history w ++ [Connect url; CreateChannel c]) ch
    (str "events") (str "fanout") {| durable := false |} = Return tt ->
  assertQueue amqp (history w ++ [Connect url; CreateChannel c; declare_exchange ch])
    ch (str "") {| exclusive := true |} = Throw e ->
  start_subscriber amqp url w =
    (Return tt,
     mkWorld (Some ch)
             (history w ++ [Connect url; CreateChannel c; declare_exchange ch;
                            AssertQueue ch (str "") {| exclusive := true |}])
             (console_out w ++ [setup_error e])
             (files w) (fs_pending w) (responses w)).
Proof.
  intros H1 H2 H3 H4. run_startup H1 H2. rewrite H3, H4.
  cbn. now rewrite <- ?app_assoc.
Qed.

Lemma start_subscriber_binding_refused w c ch q e :
  connect amqp (history w) url = Return c ->
  createChannel_reply amqp (history w ++ [Connect url]) c = Return ch ->
  assertExchange amqp (history w ++ [Connect url; CreateChannel c]) ch
    (str "events") (str "fanout") {| durable := false |} = Return tt ->
  assertQueue amqp (history w ++ [Connect url; CreateChannel c; declare_exchange ch])
    ch (str "") {| exclusive := true |} = Return q ->
  bindQueue amqp (history w ++ [Connect url; CreateChannel c; declare_exchange ch;
                                AssertQueue ch (str "") {| exclusive := true |}])
    ch q (str "events") (str "") = Throw e ->
  start_subscriber amqp url w =
    (Return tt,
     mkWorld (Some ch)
             (history w ++ [Connect url; CreateChannel c; declare_exchange ch;
                            AssertQueue ch (str "") {| exclusive := true |};
                            BindQueue ch q (str "events") (str "")])
             (console_out w ++ [setup_error e])
             (files w) (fs_pending w) (responses w)).
Proof.
  intros H1 H2 H3 H4 H5. run_startup H1 H2. rewrite H3, H4, H5.
  cbn. now rewrite <- ?app_assoc.
Qed.

(** X5. The subscriber startup of a process that has no channel yet never
    throws, and it starts consuming only from a queue it has declared and
    bound: either the broker accepted every call and exactly the calls of a
    full startup were made, or the startup stopped at the first failure,
    logged it as "Error setting up event subscriber" and made no [consume]
    call. *)
Theorem start_subscriber_isolates_failures w :
  channel w = None ->
  let w' := snd (start_subscriber amqp url w) in
  fst (start_subscriber amqp url w) = Return tt
  /\ ((exists c ch q,
          broker_accepts amqp url (history w) c ch q
          /\ history w' = history w ++ startup_calls url c ch q
          /\ console_out w' = console_out w ++ [waiting_line]
          /\ channel w' = Some ch)
      \/ (exists e ops logged,
            history w' = history w ++ ops
            /\ existsb is_consume ops = false
            /\ console_out w' = console_out w ++ logged ++ [setup_error e])).
Proof.
  intros C. cbv zeta. split; [apply start_subscriber_returns|].
  destruct (connect amqp (history w) url) as [c|e0] eqn:H1.
  2:{ right. rewrite (start_subscriber_connect_fails amqp url w e0 C H1).
      exists (cannot_read "undefined" "assertExchange"), [Connect url], [connecting_error e0].
      repeat split. }
  destruct (createChannel_reply amqp (history w ++ [Connect url]) c) as [ch|e0] eqn:H2.
  2:{ right. rewrite (start_subscriber_channel_creation_fails w c e0 C H1 H2).
      exists (cannot_read "undefined" "assertExchange"), [Connect url; CreateChannel c],
        [connecting_error e0].
      repeat split. }
  destruct (assertExchange amqp (history w ++ [Connect url; CreateChannel c]) ch
              (str "events") (str "fanout") {| durable := false |}) as [[]|e1] eqn:H3.
  2:{ right. rewrite (start_subscriber_exchange_refused w c ch e1 H1 H2 H3).
      exists e1, [Connect url; CreateChannel c; declare_exchange ch], [].
      repeat split. }
  destruct (assertQueue amqp (history w ++ [Connect url; CreateChannel c; declare_exchange ch])
              ch (str "") {| exclusive := true |}) as [q|e2] eqn:H4.
  2:{ right. rewrite (start_subscriber_queue_refused w c ch e2 H1 H2 H3 H4).
      exists e2, [Connect url; CreateChannel c; declare_exchange ch;
                  AssertQueue ch (str "") {| exclusive := true |}], [].
      repeat split. }
  destruct (bindQueue amqp (history w ++ [Connect url; CreateChannel c; declare_exchange ch;
                                          AssertQueue ch (str "") {| exclusive := true |}])
              ch q (str "events") (str "")) as [[]|e3] eqn:H5.
  2:{ right. rewrite (start_subscriber_binding_refused w c ch q e3 H1 H2 H3 H4 H5).
      exists e3, [Connect url; CreateChannel c; declare_exchange ch;
                  AssertQueue ch (str "") {| exclusive := true |};
                  BindQueue ch q (str "events") (str "")], [].
      repeat split. }
  left. exists c, ch, q.
  assert (A : broker_accepts amqp url (history w) c ch q) by (repeat split; assumption).
  split; [exact A|].
  unfold start_subscriber, try_catch.
  rewrite (subscribeToEvents_accepted amqp url w c ch q A). repeat split.
Qed.

End Startup.

Lemma start_subscriber_isolates_failures_witness :
  channel init = None
  /\ fst (start_subscriber broker_down None init) = Return tt
  /\ ((exists c ch q,
         broker_accepts broker_down None (history init) c ch q
         /\ history (snd (start_subscriber broker_down None init))
            = history init ++ startup_calls None c ch q
         /\ console_out (snd (start_subscriber broker_down None init))
            = console_out init ++ [waiting_line]
         /\ channel (snd (start_subscriber broker_down None init)) = Some ch)
      \/ (exists e ops logged,
            history (snd (start_subscriber broker_down None init)) = history init ++ ops
            /\ existsb is_consume ops = false
            /\ console_out (snd (start_subscriber broker_down None init))
               = console_out init ++ logged ++ [setup_error e])).
Proof.
  split; [reflexivity|].
  apply (start_subscriber_isolates_failures broker_down None init). reflexivity.
Defined.

(** ** The consume callback *)

(** X6. The consume callback, case by case.  Passed [null] (the broker
    cancelled the consumer) it throws the TypeError of [msg.content] and
    changes nothing.  Passed a message whose content is a Buffer, it decodes
    the bytes: if [JSON.parse] rejects their text it throws that SyntaxError
    and changes nothing; otherwise it returns normally having asked for
    exactly one append, of the log entry of the decoded value to events.log,
    behind the appends already pending, and nothing else has changed.
    Passed a message with any other content it returns normally and changes
    nothing.  So it throws in exactly the first two cases, and it never
    writes, logs or calls the broker itself. *)
Theorem on_message_behaviour syntax_error_message now msg w :
  let r := on_message syntax_error_message now msg w in
  ((exists e, fst r = Throw e)
   <-> msg = None
       \/ exists bytes, msg = Some {| content := ContentBuffer bytes |}
                        /\ decode bytes = None)
  /\ match msg with
     | None => r = (Throw (cannot_read "null" "content"), w)
     | Some m =>
         match content m with
         | ContentBuffer bytes =>
             match decode bytes with
             | Some event =>
                 r = (Return tt,
                      mkWorld (channel w) (history w) (console_out w) (files w)
                              (fs_pending w ++ [log_request_for now event])
                              (responses w))
             | None =>
                 r = (Throw (SyntaxError (syntax_error_message (Buffer.toString bytes))), w)
             end
         | _ => r = (Return tt, w)
         end
     end
  /\ files (snd r) = files w /\ console_out (snd r) = console_out w
  /\ history (snd r) = history w /\ channel (snd r) = channel w
  /\ responses (snd r) = responses w.
Proof.
  cbv zeta. unfold decode.
  destruct msg as [[c]|].
  2:{ change (on_message syntax_error_message now None w)
        with (@throw unit (cannot_read "null" "content") w).
      unfold throw. cbn [fst snd]. repeat split; eauto. }
  cbn [content].
  destruct c as [bytes| | | | | |].
  2-7: (match goal with
        | |- context [on_message ?s ?n (Some ?m) ?w0] =>
            change (on_message s n (Some m) w0) with (@ret unit tt w0)
        end;
        unfold ret; cbn [fst snd]; repeat split; auto;
        try (intros [e H]; discriminate H);
        try (intros [H | (bytes & H & _)]; discriminate H)).
  destruct (JSON.parse (Buffer.toString bytes)) as [event|] eqn:E.
  - rewrite (on_message_decoded syntax_error_message now bytes event w E). cbn [fst snd].
    cbn [files console_out history channel responses fs_pending].
    repeat split; auto;
      try (intros [e H]; discriminate H);
      try (intros [H | (bytes' & H & P)]; [discriminate H|];
           injection H as <-; rewrite E in P; discriminate P).
  - rewrite (on_message_rejected syntax_error_message now bytes w E).
    cbn [fst snd]. repeat split; eauto.
Qed.

(** ** The /login handler *)

Lemma snoc_inj {A} (l : list A) x y : l ++ [x] = l ++ [y] -> x = y.
Proof. intros H. apply app_inv_head in H. now injection H. Qed.

Section LoginProperties.

Variable auth : Auth.

(** X7. The /login handler sends a token in exactly one case: the select
    returned at least one row, [bcrypt.compare] of the password in the
    request with the [password] column of the first row resolved to true,
    and [jwt.sign] returned.  The token is then the one [jwt.sign] made from
    the [id] and [username] of that first row, with the secret of the source
    and [expiresIn: "1h"]; rows after the first are never looked at. *)
Theorem login_token_iff req_body reply w token :
  responses (snd (login auth req_body reply w)) = responses w ++ [token_response token]
  <-> exists user rest,
        reply = SelectRows (user :: rest)
        /\ bcrypt_compare auth (body_prop req_body "password")
             (get_prop user (str "password")) = Return true
        /\ jwt_sign auth
             (JObject [(str "userId", get_prop user (str "id"));
                       (str "username", get_prop user (str "username"))])
             (str "your-secret-key")
             (JObject [(str "expiresIn", JString (str "1h"))]) = Return token.
Proof.
  unfold login, login_selected, bind, external, send_response, console.error,
    console.write, token_payload, token_secret, token_options, token_response.
  split.
  - destruct reply as [err|[|user rest]]; cbn [snd responses].
    + intros H. apply snoc_inj in H. discriminate H.
    + intros H. apply snoc_inj in H. discriminate H.
    + destruct (bcrypt_compare auth _ _) as [[|]|e] eqn:C; cbn [snd responses].
      * destruct (jwt_sign auth _ _ _) as [t|e] eqn:S; cbn [snd responses].
        -- intros H. apply snoc_inj in H. injection H as <-.
           exists user, rest. auto.
        -- intros H. symmetry in H. now apply snoc_not_same in H.
      * intros H. apply snoc_inj in H. discriminate H.
      * intros H. symmetry in H. now apply snoc_not_same in H.
  - intros (user & rest & -> & C & S). rewrite C, S. reflexivity.
Qed.

(** X8. The handler answers a wrong password exactly as it answers an
    unknown email: the same status 401 with the same body, nothing logged,
    the same state afterwards.  The response does not tell whether the
    email is registered. *)
Theorem login_wrong_password_like_unknown_email req_body user rest w :
  bcrypt_compare auth (body_prop req_body "password") (get_prop user (str "password"))
  = Return false ->
  login auth req_body (SelectRows (user :: rest)) w = login auth req_body (SelectRows []) w
  /\ responses (snd (login auth req_body (SelectRows []) w))
     = responses w ++ [invalid_credentials]
  /\ console_out (snd (login auth req_body (SelectRows []) w)) = console_out w.
Proof.
  intros C. unfold login, login_selected, bind, external. rewrite C.
  repeat split.
Qed.

(** X9. The /login handler answers every request with exactly one response,
    except when a library call fails: a rejected [bcrypt.compare], or a
    [jwt.sign] that throws after a successful comparison.  Then the
    exception leaves the callback of the select, which is not caught
    anywhere: no response is sent and nothing is logged.  In no case does
    the handler call the broker client or touch the files. *)
Theorem login_answers_unless_a_library_call_fails req_body reply w :
  let w' := snd (login auth req_body reply w) in
  let failed e :=
    exists user rest,
      reply = SelectRows (user :: rest)
      /\ (bcrypt_compare auth (body_prop req_body "password")
            (get_prop user (str "password")) = Throw e
          \/ bcrypt_compare auth (body_prop req_body "password")
               (get_prop user (str "password")) = Return true
             /\ jwt_sign auth (token_payload user) token_secret token_options = Throw e) in
  (forall e, failed e <-> login auth req_body reply w = (Throw e, w))
  /\ ((exists e, failed e)
      \/ fst (login auth req_body reply w) = Return tt
         /\ exists r, responses w' = responses w ++ [r])
  /\ history w' = history w /\ channel w' = channel w
  /\ files w' = files w /\ fs_pending w' = fs_pending w.
Proof.
  cbv zeta. unfold login, login_selected, bind, external, send_response,
    console.error, console.write.
  destruct reply as [err|[|user rest]].
  - cbn [fst snd history channel files fs_pending responses].
    split; [|split; [right; eauto | auto]].
    intros e. split; [intros (user & rest & H & _); discriminate H | intros H; discriminate H].
  - cbn [fst snd history channel files fs_pending responses].
    split; [|split; [right; eauto | auto]].
    intros e. split; [intros (user & rest & H & _); discriminate H | intros H; discriminate H].
  - destruct (bcrypt_compare auth _ _) as [[|]|e0] eqn:C.
    + destruct (jwt_sign auth _ _ _) as [t|e0] eqn:S;
        cbn [fst snd history channel files fs_pending responses].
      * split; [|split; [right; eauto | auto]].
        intros e. split; [|intros H; discriminate H].
        intros (user' & rest' & H & [C' | [_ S']]); injection H as <- <-; congruence.
      * split; [|split; [left; exists e0, user, rest; auto | auto]].
        intros e. split.
        -- intros (user' & rest' & H & [C' | [_ S']]); injection H as <- <-; congruence.
        -- intros H. injection H as <-. exists user, rest. auto.
    + cbn [fst snd history channel files fs_pending responses].
      split; [|split; [right; eauto | auto]].
      intros e. split; [|intros H; discriminate H].
      intros (user' & rest' & H & [C' | [C' _]]); injection H as <- <-; congruence.
    + cbn [fst snd history channel files fs_pending responses].
      split; [|split; [left; exists e0, user, rest; auto | auto]].
      intros e. split.
      * intros (user' & rest' & H & [C' | [C' _]]); injection H as <- <-; congruence.
      * intros H. injection H as <-. exists user, rest. auto.
Qed.

End LoginProperties.

Lemma login_wrong_password_like_unknown_email_witness :
  bcrypt_compare auth_demo (body_prop login_guess "password")
    (get_prop user_ana (str "password")) = Return false
  /\ login auth_demo login_guess (SelectRows [user_ana]) init
     = login auth_demo login_guess (SelectRows []) init
  /\ responses (snd (login auth_demo login_guess (SelectRows []) init))
     = responses init ++ [invalid_credentials]
  /\ console_out (snd (login auth_demo login_guess (SelectRows []) init)) = console_out init.
Proof.
  split; [reflexivity|].
  apply (login_wrong_password_like_unknown_email auth_demo login_guess user_ana [] init).
  reflexivity.
Defined.

(** ** The /register handler: failures *)

Section RegisterFailures.

Variable amqp : Amqp.

(** X10. The /register handler answers 500 exactly when the insert failed.
    It then has logged the stack of the database error and has not called
    the broker client.  A rejected [bcrypt.hash] is not an insert failure:
    the handler throws the rejection, sends nothing and logs nothing. *)
Theorem register_insert_failure req_body hashed reply w e :
  let w' := snd (register amqp req_body hashed reply w) in
  (responses w' = responses w ++ [internal_server_error]
   <-> exists hashedPassword err,
         hashed = Return hashedPassword /\ reply = QueryError err
         /\ console_out w' = console_out w
              ++ [{| stream := Stderr;
                     args := [Text (str "Error registering user: " ++ stack err)] |}]
         /\ history w' = history w)
  /\ register amqp req_body (Throw e) reply w = (Throw e, w).
Proof.
  cbv zeta. split; [|reflexivity]. split.
  - destruct hashed as [h|e0].
    + destruct reply as [err|id].
      * intros _. exists h, err. repeat split.
      * unfold register, register_inserted, bind.
        match goal with
        | |- context [publishEvent amqp ?ev w] =>
            pose proof (publishEvent_frame amqp ev w) as (_ & _ & _ & _ & R);
            destruct (publishEvent amqp ev w) as [[[]|e1] w1]
        end; cbn [snd] in R; unfold send_response; cbn [snd responses]; rewrite ?R.
        -- intros H. apply snoc_inj in H. discriminate H.
        -- intros H. symmetry in H. now apply snoc_not_same in H.
    + cbn [register snd]. intros H. symmetry in H. now apply snoc_not_same in H.
  - intros (h & err & -> & -> & _). reflexivity.
Qed.

End RegisterFailures.

(** ** The event loop and the console *)

Section Console.

Variable syntax_error_message : jsstring -> jsstring.

Lemma on_message_quiet now msg w :
  let w' := snd (on_message syntax_error_message now msg w) in
  console_out w' = console_out w /\ history w' = history w
  /\ channel w' = channel w /\ responses w' = responses w.
Proof.
  cbv zeta. destruct msg as [[c]|]; [|cbn; auto].
  destruct c as [bytes| | | | | |]; try (cbn; auto; fail).
  unfold on_message, bind, JSON_parse. cbn [content ToBoolean content_toString].
  destruct (JSON.parse (Buffer.toString bytes)); cbn; auto.
Qed.

Lemma step_console s w :
  let w' := snd (step syntax_error_message s w) in
  console_out w' = console_out w ++ step_lines s w
  /\ filter is_stdout (step_lines s w) = repeat logged_line (completes s w)
  /\ filter (fun l => negb (is_stdout l)) (step_lines s w)
     = map write_error_line (fails s w)
  /\ Forall (fun l => l = logged_line \/ exists e, l = write_error_line e) (step_lines s w)
  /\ history w' = history w /\ channel w' = channel w /\ responses w' = responses w.
Proof.
  cbv zeta. destruct s as [now msg|i c]; cbn [step step_lines completes fails].
  - destruct (on_message_quiet now msg w) as (A & B & C & D).
    rewrite A, app_nil_r. repeat split; auto.
  - unfold fs_complete.
    destruct (nth_error (fs_pending w) i) as [req|];
      [|destruct c; cbn; rewrite app_nil_r; repeat split; auto].
    destruct c as [|e o]; cbn; repeat split; auto; constructor; eauto.
Qed.

(** X11. What the event loop prints, under any schedule of deliveries and
    completions and wherever the run ends: one line for each completion of a
    pending append and nothing else - "Event logged successfully" on the
    standard output for a write that succeeded, "Error writing to log
    file: " and the message on the standard error for one that failed.  The
    lines of the standard output are as many as the appends that completed
    without error; the lines of the standard error are those of the appends
    that failed, one for each, with their messages and in their order.  The
    loop never calls the broker client, never replaces the channel and never
    sends a response. *)
Theorem run_reports_each_completion steps w :
  let w' := snd (run syntax_error_message steps w) in
  (exists lines,
      console_out w' = console_out w ++ lines
      /\ Forall (fun l => l = logged_line \/ exists e, l = write_error_line e) lines
      /\ List.length (filter is_stdout lines) = completions syntax_error_message steps w
      /\ filter is_stdout lines
         = repeat logged_line (completions syntax_error_message steps w)
      /\ filter (fun l => negb (is_stdout l)) lines
         = map write_error_line (failures syntax_error_message steps w))
  /\ history w' = history w /\ channel w' = channel w /\ responses w' = responses w.
Proof.
  cbv zeta. revert w. induction steps as [|s steps IH]; intros w.
  - cbn. split; [|auto]. exists []. rewrite app_nil_r. auto.
  - destruct (step_console s w) as (A & B & B' & C & D & E & F).
    cbn [run completions failures]. unfold bind.
    destruct (step syntax_error_message s w) as [[[]|e] w1]; cbn [snd] in *.
    + destruct (IH w1) as ((lines & L1 & L2 & L3 & L4 & L5) & H1 & H2 & H3).
      split; [|repeat split; congruence].
      exists (step_lines s w ++ lines).
      rewrite L1, A, <- app_assoc, !filter_app, length_app, B, B', L3, L4, L5.
      rewrite map_app, repeat_app, repeat_length.
      repeat split. now apply Forall_app.
    + split; [|auto]. exists (step_lines s w).
      rewrite B, B', repeat_length. auto.
Qed.

End Console.

(** ** Events with missing fields *)

Lemma own_keys_ordered_filter (f : jsstring * JSValue -> bool) E :
  own_keys_ordered E = true -> own_keys_ordered (filter f E) = true.
Proof.
  induction E as [|[k v] E IH]; [reflexivity|].
  cbn [own_keys_ordered filter]. intros H. apply andb_true_iff in H as [H1 H2].
  destruct (f (k, v)); [|now apply IH].
  cbn [own_keys_ordered]. apply andb_true_iff. split; [|now apply IH].
  apply forallb_forall. intros kv Hin. apply filter_In in Hin as [Hin _].
  rewrite forallb_forall in H1. now apply H1.
Qed.

Lemma stringify_optional_record E :
  Forall (fun kv => optional_field (snd kv)) E ->
  JSON.stringify (JObject E) = Some (record_text (defined_props E)).
Proof.
  intros F. unfold JSON.stringify, record_text. cbn [JSON.SerializeJSONProperty].
  do 4 f_equal.
  induction F as [|[k v] E Fv _ IH]; [reflexivity|].
  cbn [snd] in Fv. unfold defined_props in *. cbn [filter snd].
  destruct Fv as [-> | Fv].
  - cbn [JSON.SerializeJSONProperty is_defined]. exact IH.
  - rewrite (finite_field_defined v Fv), IH.
    destruct v; cbn [finite_field] in Fv; try contradiction; reflexivity.
Qed.

Lemma defined_props_flat E :
  own_keys_ordered E = true ->
  Forall (fun kv => Forall code_unit (fst kv) /\ optional_field (snd kv)) E ->
  flat_record finite_field (defined_props E).
Proof.
  intros O F. split; [now apply own_keys_ordered_filter|].
  apply Forall_forall. intros [k v] Hin. apply filter_In in Hin as [Hin D].
  rewrite Forall_forall in F. destruct (F _ Hin) as [K [U | Fv]]; cbn [fst snd] in *.
  - rewrite U in D. discriminate D.
  - auto.
Qed.

Lemma encode_decode_optional_record E :
  own_keys_ordered E = true ->
  Forall (fun kv => Forall code_unit (fst kv) /\ optional_field (snd kv)) E ->
  JSON.stringify (JObject E) = Some (record_text (defined_props E))
  /\ JSON.stringify (JObject (defined_props E)) = Some (record_text (defined_props E))
  /\ decode (Buffer.from (record_text (defined_props E))) = Some (JObject (defined_props E)).
Proof.
  intros O F. pose proof (defined_props_flat E O F) as D.
  split; [|split].
  - apply stringify_optional_record.
    eapply Forall_impl; [|exact F]. cbv beta. tauto.
  - apply stringify_flat_record.
    eapply Forall_impl; [|exact (proj2 D)]. cbv beta. tauto.
  - now apply encode_decode_flat_record.
Qed.

(** X12. An event with fields that are [undefined] is published without
    them: when every field of the event is a string, a safe integer or
    [undefined], the bytes sent are those of the event stripped of its
    undefined fields, and the subscriber decodes exactly that stripped
    event.  The round trip loses the undefined fields and nothing else. *)
Theorem undefined_fields_are_not_published E :
  own_keys_ordered E = true ->
  Forall (fun kv => Forall code_unit (fst kv) /\ optional_field (snd kv)) E ->
  exists bytes,
    encode (JObject E) = Some bytes
    /\ encode (JObject (defined_props E)) = Some bytes
    /\ decode bytes = Some (JObject (defined_props E)).
Proof.
  intros O F. destruct (encode_decode_optional_record E O F) as (A & B & C).
  exists (Buffer.from (record_text (defined_props E))).
  unfold encode. rewrite A, B. auto.
Qed.

(** ** From the registration to the log *)

Lemma registration_event_fields insertId username email :
  optional_field insertId -> optional_field username -> optional_field email ->
  own_keys_ordered (registration_event insertId username email) = true
  /\ Forall (fun kv => Forall code_unit (fst kv) /\ optional_field (snd kv))
       (registration_event insertId username email).
Proof.
  intros Hi Hu He. split; [reflexivity|].
  unfold registration_event.
  repeat (apply Forall_cons;
          [split; [apply code_units_literal; reflexivity|]|]);
    try apply Forall_nil; cbn [snd]; try assumption.
  right. cbn [finite_field]. apply code_units_literal. reflexivity.
Qed.

Section EndToEnd.

Variable amqp : Amqp.
Variable syntax_error_message : jsstring -> jsstring.

Lemma register_history req_body hashedPassword insertId w :
  history (snd (register amqp req_body (Return hashedPassword) (QueryResult insertId) w))
  = history (snd (publishEvent amqp
                    (JObject (registration_event insertId (body_prop req_body "username")
                                                 (body_prop req_body "email"))) w)).
Proof.
  unfold register, register_inserted, bind, registration_event.
  destruct (publishEvent amqp _ w) as [[[]|e] w1]; reflexivity.
Qed.

(** X13. From the /register handler to the log.  For a registration whose
    [insertId], [username] and [email] are each a string, a safe integer or
    missing, the handler publishes the JSON text of the event; a subscriber
    that receives these bytes decodes the event without its missing fields,
    and once the append has completed the log has gained one record: the
    timestamp of the delivery, " - Event: ", and the very text that was
    published, character for character, then a line feed. *)
Theorem registration_is_logged_as_published req_body hashedPassword insertId w ch now w0 :
  channel w = Some ch ->
  fs_pending w0 = [] ->
  optional_field insertId ->
  optional_field (body_prop req_body "username") ->
  optional_field (body_prop req_body "email") ->
  let event := registration_event insertId (body_prop req_body "username")
                                  (body_prop req_body "email") in
  exists text,
    JSON.stringify (JObject event) = Some text
    /\ history (snd (register amqp req_body (Return hashedPassword) (QueryResult insertId) w))
       = history w ++ [declare_exchange ch;
                       Publish ch (str "events") (str "") (Buffer.from text)]
    /\ decode (Buffer.from text) = Some (JObject (defined_props event))
    /\ log_content
         (snd (run syntax_error_message
                   [Deliver now (Some {| content := ContentBuffer (Buffer.from text) |});
                    FsComplete 0 Written] w0))
       = log_content w0
         ++ Buffer.from (Date.toISOString now ++ str " - Event: " ++ text ++ [10]).
Proof.
  intros C P Hi Hu He. cbv zeta.
  set (event := registration_event _ _ _).
  destruct (registration_event_fields _ _ _ Hi Hu He) as [O F]. fold event in O, F.
  destruct (encode_decode_optional_record event O F) as (A & B & D).
  exists (record_text (defined_props event)).
  split; [exact A|]. split; [|split; [exact D|]].
  - rewrite register_history. fold event.
    rewrite (publishEvent_history amqp (JObject event) w ch C), A. reflexivity.
  - rewrite (deliver_then_complete syntax_error_message now _
               (JObject (defined_props event)) [] w0 P D).
    cbn [run ret snd]. unfold log_content at 1. cbn [files].
    rewrite read_append_same. fold (log_content w0).
    unfold record, logEntry. rewrite B. reflexivity.
Qed.

End EndToEnd.

Lemma seven_is_a_field : optional_field (JNumber (Int 7)).
Proof. right. cbn [finite_field]. unfold safe_integer, max_safe_integer. lia. Qed.

Lemma ana_is_a_field : optional_field (JString (str "ana")).
Proof. right. cbn [finite_field]. apply code_units_literal. reflexivity. Qed.

Lemma undefined_fields_are_not_published_witness :
  let E := registration_event (JNumber (Int 7)) (JString (str "ana")) JUndefined in
  (own_keys_ordered E = true
   /\ Forall (fun kv => Forall code_unit (fst kv) /\ optional_field (snd kv)) E)
  /\ exists bytes,
       encode (JObject E) = Some bytes
       /\ encode (JObject (defined_props E)) = Some bytes
       /\ decode bytes = Some (JObject (defined_props E)).
Proof.
  cbv zeta.
  pose proof (registration_event_fields (JNumber (Int 7)) (JString (str "ana")) JUndefined
                seven_is_a_field ana_is_a_field (or_introl eq_refl)) as H.
  split; [exact H|].
  exact (undefined_fields_are_not_published _ (proj1 H) (proj2 H)).
Defined.

Lemma registration_is_logged_as_published_witness :
  let w := snd (start_subscriber broker_up None init) in
  let event := registration_event (JNumber (Int 7)) (body_prop register_no_email "username")
                                  (body_prop register_no_email "email") in
  (channel w = Some 1%nat /\ fs_pending init = []
   /\ optional_field (JNumber (Int 7))
   /\ optional_field (body_prop register_no_email "username")
   /\ optional_field (body_prop register_no_email "email"))
  /\ exists text,
       JSON.stringify (JObject event) = Some text
       /\ history (snd (register broker_up register_no_email (Return (str "$2b$10$hash"))
                          (QueryResult (JNumber (Int 7))) w))
          = history w ++ [declare_exchange 1%nat;
                          Publish 1%nat (str "events") (str "") (Buffer.from text)]
       /\ decode (Buffer.from text) = Some (JObject (defined_props event))
       /\ log_content
            (snd (run wording_demo
                      [Deliver 1700000000000
                         (Some {| content := ContentBuffer (Buffer.from text) |});
                       FsComplete 0 Written] init))
          = log_content init
            ++ Buffer.from (Date.toISOString 1700000000000 ++ str " - Event: "
                            ++ text ++ [10]).
Proof.
  cbv zeta.
  assert (U : optional_field (body_prop register_no_email "email")) by (left; reflexivity).
  split; [repeat split; try reflexivity;
          [exact seven_is_a_field | exact ana_is_a_field | exact U]|].
  exact (registration_is_logged_as_published broker_up wording_demo register_no_email
           (str "$2b$10$hash") (JNumber (Int 7))
           (snd (start_subscriber broker_up None init)) 1%nat 1700000000000 init
           eq_refl eq_refl seven_is_a_field ana_is_a_field U).
Defined.

(** ** The layout of a log record *)

Lemma year_of_time t :
  0 <= t <= 253402300799999 ->
  0 <= fst (fst (Date.civil_from_days (t / Date.msPerDay))) <= 9999.
Proof.
  intros H. unfold Date.civil_from_days, Date.msPerDay.
  set (day := t / 86400000).
  assert (Hd : 0 <= day <= 2932896) by (subst day; div_lia).
  clearbody day. clear H t.
  set (z := day + 719468).
  assert (Hz : 719468 <= z <= 3652364) by (subst z; lia).
  clearbody z. clear Hd day.
  set (era := z / 146097).
  set (doe := z - era * 146097).
  assert (He : 4 <= era <= 24 /\ 0 <= doe <= 146096 /\ (era = 24 -> doe <= 146036))
    by (subst doe era; div_lia).
  clearbody doe. clearbody era. clear Hz z.
  set (yoe := (doe - doe / 1460 + doe / 36524 - doe / 146096) / 365).
  assert (Hy : 0 <= yoe <= 399) by (subst yoe; div_lia).
  assert (Hy' : yoe = 399 -> doe <= 146036 -> 145731 <= doe) by (subst yoe; div_lia).
  set (doy := doe - (365 * yoe + yoe / 4 - yoe / 100)).
  assert (Hdoy : yoe = 399 -> doy = doe - 145731).
  { intros E. subst doy. rewrite E. reflexivity. }
  clearbody doy. clearbody yoe.
  set (mp := (5 * doy + 2) / 153).
  assert (Hm : 0 <= doy <= 305 -> 0 <= mp <= 9) by (subst mp; div_lia).
  clearbody mp. cbn [fst].
  destruct (Z.ltb_spec mp 10) as [M|M].
  - destruct (Z.leb_spec (mp + 3) 2); lia.
  - destruct (Z.leb_spec (mp - 9) 2); lia.
Qed.

Lemma digits_fixed_length w n : List.length (digits_fixed w n) = w.
Proof.
  revert n. induction w as [|w IH]; intros n; [reflexivity|].
  cbn [digits_fixed]. rewrite length_app, IH. cbn [List.length]. lia.
Qed.

Lemma digits_fixed_ascii w n : Forall (fun c => 0 <= c < 128) (digits_fixed w n).
Proof.
  revert n. induction w as [|w IH]; intros n; cbn [digits_fixed]; [constructor|].
  apply Forall_app. split; [apply IH|].
  constructor; [|constructor].
  assert (0 <= n mod 10 < 10) by (apply Z.mod_pos_bound; lia). lia.
Qed.

Lemma ascii_literal (s : string) :
  forallb (fun c => (0 <=? c) && (c <? 128)) (str s) = true ->
  Forall (fun c => 0 <= c < 128) (str s).
Proof.
  intros H. apply Forall_forall. intros c Hc.
  rewrite forallb_forall in H. specialize (H c Hc).
  apply andb_true_iff in H as [A B]. apply Z.leb_le in A. apply Z.ltb_lt in B. lia.
Qed.

(** ASCII text is its own UTF-8 encoding. *)
Lemma from_ascii_app s t :
  Forall (fun c => 0 <= c < 128) s -> Buffer.from (s ++ t) = s ++ Buffer.from t.
Proof.
  induction 1 as [|c s Hc _ IH]; [reflexivity|].
  cbn [app Buffer.from].
  assert (L : is_leading_surrogate c = false)
    by (unfold is_leading_surrogate; rewrite leb_false by lia; reflexivity).
  assert (T : is_trailing_surrogate c = false)
    by (unfold is_trailing_surrogate; rewrite leb_false by lia; reflexivity).
  rewrite L, T. unfold Buffer.utf8_of_code_point. rewrite ltb_true by lia.
  cbn [app]. now rewrite IH.
Qed.

Lemma toISOString_shape t :
  0 <= t <= 253402300799999 ->
  List.length (Date.toISOString t) = 24%nat
  /\ Forall (fun c => 0 <= c < 128) (Date.toISOString t).
Proof.
  intros H. pose proof (year_of_time t H) as Y.
  unfold Date.toISOString.
  destruct (Date.civil_from_days (t / Date.msPerDay)) as [[y m] d]. cbn [fst] in Y.
  rewrite leb_true by lia. rewrite leb_true by lia. cbn [andb].
  split.
  - rewrite !length_app, !digits_fixed_length. reflexivity.
  - repeat (match goal with |- Forall _ (_ ++ _) => apply Forall_app; split end);
      solve [apply digits_fixed_ascii | apply ascii_literal; reflexivity].
Qed.

(** X14. The layout of a log record.  For a clock reading from 1970 to the
    end of the year 9999 the timestamp is 24 ASCII characters, so every
    record of the log is the 24 bytes of the timestamp, the 10 bytes of
    " - Event: ", and from offset 34 on the UTF-8 form of the event text and
    the line feed: events can be cut out of the log at a fixed column. *)
Theorem log_record_layout now event :
  0 <= now <= 253402300799999 ->
  List.length (Date.toISOString now) = 24%nat
  /\ firstn 34 (record now event) = Date.toISOString now ++ str " - Event: "
  /\ skipn 34 (record now event)
     = Buffer.from (match JSON.stringify event with
                    | Some t => t
                    | None => str "undefined"
                    end ++ [10]).
Proof.
  intros H. destruct (toISOString_shape now H) as [L A].
  split; [exact L|].
  unfold record, logEntry.
  match goal with
  | |- context [str " - Event: " ++ ?p ++ [10]] => set (payload := p)
  end.
  rewrite (from_ascii_app _ _ A).
  rewrite (from_ascii_app (str " - Event: ") (payload ++ [10]))
    by (apply ascii_literal; reflexivity).
  set (rest := Buffer.from (payload ++ [10])).
  rewrite app_assoc.
  assert (N : List.length (Date.toISOString now ++ str " - Event: ") = 34%nat)
    by (rewrite length_app, L; reflexivity).
  rewrite <- N. split.
  - now rewrite firstn_app, firstn_all, Nat.sub_diag, firstn_O, app_nil_r.
  - now rewrite skipn_app, skipn_all, Nat.sub_diag.
Qed.

Lemma log_record_layout_witness :
  0 <= 1700000000000 <= 253402300799999
  /\ List.length (Date.toISOString 1700000000000) = 24%nat
  /\ firstn 34 (record 1700000000000 ev_demo)
     = Date.toISOString 1700000000000 ++ str " - Event: "
  /\ skipn 34 (record 1700000000000 ev_demo)
     = Buffer.from (match JSON.stringify ev_demo with
                    | Some t => t
                    | None => str "undefined"
                    end ++ [10]).
Proof.
  split; [lia|]. apply (log_record_layout 1700000000000 ev_demo). lia.
Defined.

(** ** The round trip of nested events *)

Lemma code_unitb_spec s : forallb code_unitb s = true -> Forall code_unit s.
Proof.
  intros H. apply Forall_forall. intros c Hc.
  rewrite forallb_forall in H. specialize (H c Hc).
  apply andb_true_iff in H as [A B]. apply Z.leb_le in A. apply Z.ltb_lt in B.
  unfold code_unit. lia.
Qed.

Lemma representable_array elems :
  representable (JArray elems) = true -> Forall (fun x => representable x = true) elems.
Proof.
  cbn [representable]. intros H. apply Forall_forall. intros x Hx.
  rewrite forallb_forall in H. now apply H.
Qed.

Lemma representable_object props :
  representable (JObject props) = true ->
  own_keys_ordered props = true
  /\ Forall (fun kv => Forall code_unit (fst kv) /\ representable (snd kv) = true) props.
Proof.
  cbn [representable]. intros H. apply andb_true_iff in H as [O H].
  split; [exact O|]. clear O.
  induction props as [|[k x] props IH]; [constructor|].
  apply andb_true_iff in H as [H H3]. apply andb_true_iff in H as [H1 H2].
  constructor; [split; [now apply code_unitb_spec | exact H2] | now apply IH].
Qed.

Lemma representable_defined v :
  representable v = true -> JSON.SerializeJSONProperty v = Some (field_text v).
Proof.
  destruct v as [| |[|]|n|s|elems|props]; try reflexivity. discriminate.
Qed.

Lemma field_text_array elems :
  Forall (fun x => representable x = true) elems ->
  field_text (JArray elems) = array_text elems.
Proof.
  intros R. unfold field_text at 1, array_text. cbn [JSON.SerializeJSONProperty].
  do 3 f_equal. apply map_ext_in. intros x Hx.
  rewrite Forall_forall in R. now rewrite (representable_defined x (R x Hx)).
Qed.

Lemma field_text_object props :
  Forall (fun kv => representable (snd kv) = true) props ->
  field_text (JObject props) = record_text props.
Proof.
  intros R. unfold field_text at 1, record_text. cbn [JSON.SerializeJSONProperty].
  do 3 f_equal.
  induction R as [|[k x] props Rx _ IH]; [reflexivity|].
  cbn [map snd] in *. rewrite (representable_defined x Rx), IH. reflexivity.
Qed.

(** *** Integers before any end of value *)

Lemma value_end_not_digit tail :
  value_end tail ->
  match tail with
  | [] => True
  | t0 :: _ => JSON.is_digit t0 = false
  end.
Proof.
  destruct tail as [|t0 r]; [auto|]. intros [-> | [-> | ->]]; reflexivity.
Qed.

Lemma value_end_skip_ws tail : value_end tail -> JSON.skip_ws tail = tail.
Proof.
  destruct tail as [|t0 r]; [reflexivity|]. intros [-> | [-> | ->]]; reflexivity.
Qed.

Lemma parse_fraction_end tail :
  value_end tail -> JSON.parse_fraction tail = Some ([], tail).
Proof.
  destruct tail as [|t0 r]; [reflexivity|]. intros [-> | [-> | ->]]; reflexivity.
Qed.

Lemma parse_exponent_end tail :
  value_end tail -> JSON.parse_exponent tail = Some (0, tail).
Proof.
  destruct tail as [|t0 r]; [reflexivity|]. intros [-> | [-> | ->]]; reflexivity.
Qed.

Lemma parse_int_part_end n tail :
  0 <= n -> value_end tail ->
  JSON.parse_int_part (digits n ++ tail) = Some (map (fun c => c - 48) (digits n), tail).
Proof.
  intros Hn T.
  destruct (digits_spec n Hn) as (D & V & c0 & pre' & E & Z0).
  assert (C0 : 48 <= c0 <= 57) by (rewrite E in D; now inversion D).
  pose proof (span_digits_app (digits n) tail D (value_end_not_digit tail T)) as Sp.
  rewrite E in *. cbn [app] in *. unfold JSON.parse_int_part.
  destruct (Z.eqb_spec c0 48) as [C|C].
  - destruct (Z0 C) as [_ ->]. subst c0. reflexivity.
  - unfold JSON.is_digit at 1.
    rewrite (leb_true 48 c0), (leb_true c0 57) by lia. cbn [andb]. now rewrite Sp.
Qed.

Lemma parse_number_end z tail :
  safe_integer z -> value_end tail ->
  JSON.parse_number (Number_toString (Int z) ++ tail) = Some (Int z, tail).
Proof.
  intros S T. cbn [Number_toString]. unfold JSON.parse_number.
  destruct (Z.ltb_spec z 0) as [Hz|Hz].
  - change (str "-") with [45]. cbn [app JSON.parse_sign].
    change (45 =? 45) with true. cbv iota.
    rewrite parse_int_part_end by (assumption || lia).
    rewrite (parse_fraction_end tail T), (parse_exponent_end tail T).
    rewrite app_nil_r. destruct (digits_spec (- z) ltac:(lia)) as (_ & -> & _).
    cbn [List.length Z.of_nat]. change (0 - 0) with 0. rewrite Z.opp_involutive.
    now rewrite Number_of_decimal_safe.
  - destruct (digits_head z Hz) as (c0 & r & E & C0).
    assert (Sg : JSON.parse_sign (digits z ++ tail) = (false, digits z ++ tail)).
    { rewrite E. cbn [app JSON.parse_sign]. now rewrite eqb_false by lia. }
    rewrite Sg. rewrite parse_int_part_end by assumption.
    rewrite (parse_fraction_end tail T), (parse_exponent_end tail T).
    rewrite app_nil_r. destruct (digits_spec z Hz) as (_ & -> & _).
    cbn [List.length Z.of_nat]. change (0 - 0) with 0.
    now rewrite Number_of_decimal_safe.
Qed.

Lemma integer_text_head z :
  exists c r, Number_toString (Int z) = c :: r /\ (48 <= c <= 57 \/ c = 45).
Proof.
  cbn [Number_toString]. destruct (Z.ltb_spec z 0).
  - exists 45, (digits (- z)). split; [reflexivity | now right].
  - destruct (digits_head z ltac:(lia)) as (c0 & r & E & C0).
    exists c0, r. split; [exact E | now left].
Qed.

(** *** The first character of a value *)

Lemma field_text_head v :
  representable v = true -> exists c r, field_text v = c :: r /\ value_start c.
Proof.
  intros R. destruct v as [| |[|]|[| | |z|m e]|s|elems|props]; try discriminate R.
  - exists 110, (str "ull"). repeat split; discriminate.
  - exists 116, (str "rue"). repeat split; discriminate.
  - exists 102, (str "alse"). repeat split; discriminate.
  - destruct (integer_text_head z) as (c & r & E & C).
    exists c, r. split; [exact E|].
    unfold value_start, JSON.is_ws. rewrite !eqb_false by lia. repeat split; lia.
  - exists 34, (JSON.quote_chars s ++ [34]). repeat split; discriminate.
  - eexists 91, _. unfold field_text. cbn [JSON.SerializeJSONProperty].
    split; [reflexivity|]. repeat split; discriminate.
  - eexists 123, _. unfold field_text. cbn [JSON.SerializeJSONProperty].
    split; [reflexivity|]. repeat split; discriminate.
Qed.

(** *** Unfolding the parser *)

Lemma parse_value_array f r d r' :
  JSON.skip_ws r = d :: r' -> d <> 93 ->
  JSON.parse_value (S f) (91 :: r) = JSON.parse_elements f (d :: r') [].
Proof.
  intros E N. cbn [JSON.parse_value JSON.skip_ws]. change (JSON.is_ws 91) with false.
  cbv iota. change (91 =? 123) with false. change (91 =? 91) with true. cbv iota.
  rewrite E. now rewrite eqb_false by exact N.
Qed.

Lemma parse_value_object f r d r' :
  JSON.skip_ws r = d :: r' -> d <> 125 ->
  JSON.parse_value (S f) (123 :: r) = JSON.parse_members f (d :: r') [].
Proof.
  intros E N. cbn [JSON.parse_value JSON.skip_ws]. change (JSON.is_ws 123) with false.
  cbv iota. change (123 =? 123) with true. cbv iota.
  rewrite E. now rewrite eqb_false by exact N.
Qed.

Lemma parse_elements_step f s acc :
  JSON.parse_elements (S f) s acc
  = match JSON.parse_value f s with
    | JSON.Parsed v r1 =>
        match JSON.skip_ws r1 with
        | d :: r2 =>
            if d =? 44 then JSON.parse_elements f r2 (acc ++ [v])
            else if d =? 93 then JSON.Parsed (JArray (acc ++ [v])) r2
                 else JSON.Invalid
        | [] => JSON.Invalid
        end
    | JSON.Invalid => JSON.Invalid
    | JSON.OutOfFuel => JSON.OutOfFuel
    end.
Proof. reflexivity. Qed.

(** *** Elements and members *)

Lemma parse_elements_back elems :
  Forall reads_back elems ->
  elems <> [] ->
  forall acc fuel tail,
    (2 * List.length (join (str ",") (map field_text elems)) + 2 <= fuel)%nat ->
    JSON.parse_elements fuel (join (str ",") (map field_text elems) ++ 93 :: tail) acc
    = JSON.Parsed (JArray (acc ++ elems)) tail.
Proof.
  induction 1 as [|x elems Hx _ IH]; intros N acc fuel tail L; [contradiction|].
  destruct fuel as [|f]; [lia|]. rewrite parse_elements_step.
  destruct elems as [|y elems].
  - cbn [map join] in *.
    rewrite (Hx (93 :: tail) f) by (cbn [value_end]; auto || lia).
    reflexivity.
  - set (rest := y :: elems) in *.
    assert (J : join (str ",") (map field_text (x :: rest))
                = field_text x ++ 44 :: join (str ",") (map field_text rest))
      by reflexivity.
    rewrite J in *. rewrite length_app in L. cbn [List.length] in L.
    rewrite <- app_assoc. cbn [app].
    rewrite (Hx (44 :: _) f) by (cbn [value_end]; auto || lia).
    cbn [JSON.skip_ws]. change (JSON.is_ws 44) with false. change (44 =? 44) with true.
    cbv iota. rewrite IH by (discriminate || lia).
    now rewrite <- app_assoc.
Qed.

Lemma parse_member_back f k v rest acc :
  Forall code_unit k ->
  JSON.parse_value f (field_text v ++ rest) = JSON.Parsed v rest ->
  JSON.skip_ws rest = rest ->
  JSON.parse_members (S f) (member_text (k, v) ++ rest) acc
  = match rest with
    | d :: r4 =>
        if d =? 44
        then JSON.parse_members f r4 (JSON.CreateDataProperty acc k v)
        else if d =? 125
             then JSON.Parsed (JObject (JSON.CreateDataProperty acc k v)) r4
             else JSON.Invalid
    | [] => JSON.Invalid
    end.
Proof.
  intros K P W. unfold member_text, JSON.QuoteJSONString. cbn [fst snd].
  change (str ":") with [58]. rewrite <- !app_assoc. cbn [app].
  rewrite parse_members_quote, parse_quote_chars by assumption.
  cbn [JSON.skip_ws]. change (JSON.is_ws 58) with false. change (58 =? 58) with true.
  cbv iota. rewrite P, W. reflexivity.
Qed.

Lemma member_text_length kv :
  (List.length (field_text (snd kv)) + 3 <= List.length (member_text kv))%nat.
Proof.
  unfold member_text, JSON.QuoteJSONString.
  rewrite !length_app. cbn [List.length]. change (List.length (str ":")) with 1%nat. lia.
Qed.

Lemma parse_members_back props :
  Forall (fun kv => Forall code_unit (fst kv) /\ reads_back (snd kv)) props ->
  props <> [] ->
  forall acc fuel tail,
    (2 * List.length (join (str ",") (map member_text props)) + 2 <= fuel)%nat ->
    JSON.parse_members fuel (join (str ",") (map member_text props) ++ 125 :: tail) acc
    = JSON.Parsed
        (JObject (fold_left (fun o kv => JSON.CreateDataProperty o (fst kv) (snd kv))
                            props acc))
        tail.
Proof.
  induction 1 as [|[k x] props [K Hx] _ IH]; intros N acc fuel tail L; [contradiction|].
  cbn [fst snd] in *.
  destruct fuel as [|f]; [lia|].
  match type of L with
  | context [map member_text (?kv :: _)] => pose proof (member_text_length kv) as M
  end.
  cbn [snd] in M.
  destruct props as [|kv props].
  - cbn [map join fold_left fst snd] in *.
    rewrite (parse_member_back f k x (125 :: tail) acc K);
      [reflexivity | apply Hx; [cbn [value_end]; auto | lia] | reflexivity].
  - set (rest := kv :: props) in *.
    assert (J : join (str ",") (map member_text ((k, x) :: rest))
                = member_text (k, x) ++ 44 :: join (str ",") (map member_text rest))
      by reflexivity.
    rewrite J in *. rewrite length_app in L. cbn [List.length] in L.
    rewrite <- app_assoc. cbn [app].
    rewrite (parse_member_back f k x (44 :: _) acc K);
      [|apply Hx; [cbn [value_end]; auto | lia] | reflexivity].
    change (44 =? 44) with true. cbv iota.
    rewrite IH by (discriminate || lia). reflexivity.
Qed.

Lemma parse_value_array_text f x elems rest :
  (exists c r, field_text x = c :: r /\ value_start c) ->
  JSON.parse_value (S f) (91 :: join (str ",") (map field_text (x :: elems)) ++ rest)
  = JSON.parse_elements f (join (str ",") (map field_text (x :: elems)) ++ rest) [].
Proof.
  intros (c & r & E & W & N & _).
  assert (H : exists r', join (str ",") (map field_text (x :: elems)) = c :: r').
  { cbn [map join]. rewrite E. destruct (map field_text elems); eexists; reflexivity. }
  destruct H as [r' ->]. cbn [app].
  apply parse_value_array; [now apply skip_ws_cons | exact N].
Qed.

Lemma parse_value_object_text f k x props rest :
  JSON.parse_value (S f) (123 :: join (str ",") (map member_text ((k, x) :: props)) ++ rest)
  = JSON.parse_members f (join (str ",") (map member_text ((k, x) :: props)) ++ rest) [].
Proof.
  assert (H : exists r', join (str ",") (map member_text ((k, x) :: props)) = 34 :: r').
  { cbn [map join]. destruct (map member_text props); eexists; reflexivity. }
  destruct H as [r' ->]. cbn [app].
  apply parse_value_object; [reflexivity | discriminate].
Qed.

(** *** Values *)

Lemma parse_value_back v : representable v = true -> reads_back v.
Proof.
  induction v as [| |b|n|s|elems IH|props IH] using JSValue_induction;
    intros R tail fuel T L; try discriminate R;
    (destruct fuel as [|f]; [lia|]).
  - reflexivity.
  - destruct b; reflexivity.
  - destruct n as [| | |z|m e]; try discriminate R.
    cbn [representable] in R. unfold safe_integerb in R.
    apply andb_true_iff in R as [R1 R2]. apply Z.leb_le in R1, R2.
    assert (S : safe_integer z) by (unfold safe_integer; lia).
    change (field_text (JNumber (Int z))) with (Number_toString (Int z)).
    pose proof (parse_number_end z tail S T) as P.
    destruct (integer_text_head z) as (c & r & E & C). rewrite E in *.
    cbn [app] in *. rewrite parse_value_number by assumption. now rewrite P.
  - cbn [representable] in R. apply code_unitb_spec in R.
    change (field_text (JString s)) with (JSON.QuoteJSONString s).
    unfold JSON.QuoteJSONString. rewrite <- !app_assoc. cbn [app].
    rewrite parse_value_string, parse_quote_chars by assumption. reflexivity.
  - apply representable_array in R.
    rewrite (field_text_array elems R) in *. unfold array_text in *.
    change (str "[") with [91] in *. change (str "]") with [93] in *.
    rewrite <- !app_assoc. cbn [app] in *. cbn [List.length] in L.
    rewrite length_app in L. cbn [List.length] in L.
    destruct elems as [|x elems]; [reflexivity|].
    assert (B : Forall reads_back (x :: elems)).
    { apply Forall_forall. intros y Hy. rewrite Forall_forall in IH, R. auto. }
    inversion R as [|? ? Rx _]. subst.
    rewrite (parse_value_array_text f x elems (93 :: tail) (field_text_head x Rx)).
    rewrite (parse_elements_back (x :: elems) B ltac:(discriminate) [] f tail) by lia.
    reflexivity.
  - apply representable_object in R as [O R].
    assert (R' : Forall (fun kv => representable (snd kv) = true) props)
      by (eapply Forall_impl; [|exact R]; cbv beta; tauto).
    rewrite (field_text_object props R') in *. unfold record_text in *.
    change (str "{") with [123] in *. change (str "}") with [125] in *.
    rewrite <- !app_assoc. cbn [app] in *. cbn [List.length] in L.
    rewrite length_app in L. cbn [List.length] in L.
    destruct props as [|[k x] props]; [reflexivity|].
    assert (B : Forall (fun kv => Forall code_unit (fst kv) /\ reads_back (snd kv))
                  ((k, x) :: props)).
    { apply Forall_forall. intros kv Hkv. rewrite Forall_forall in IH, R.
      destruct (R kv Hkv). auto. }
    rewrite (parse_value_object_text f k x props (125 :: tail)).
    rewrite (parse_members_back ((k, x) :: props) B ltac:(discriminate) [] f tail) by lia.
    now rewrite (create_properties_in_order ((k, x) :: props) [] O).
Qed.

Lemma parse_stringify v :
  representable v = true -> JSON.parse (field_text v) = Some v.
Proof.
  intros R. unfold JSON.parse.
  pose proof (parse_value_back v R [] (S (2 * List.length (field_text v))) I
                ltac:(lia)) as P.
  rewrite app_nil_r in P. rewrite P. reflexivity.
Qed.

(** *** The text of a value is well-formed UTF-16 *)

Lemma well_formed_unit c : 0 <= c < 128 -> well_formed [c].
Proof. intros H. apply well_formed_ascii. constructor; [exact H | constructor]. Qed.

Lemma well_formed_text v : representable v = true -> well_formed (field_text v).
Proof.
  induction v as [| |b|n|s|elems IH|props IH] using JSValue_induction;
    intros R; try discriminate R.
  - apply well_formed_ascii, ascii_literal. reflexivity.
  - destruct b; apply well_formed_ascii, ascii_literal; reflexivity.
  - destruct n as [| | |z|m e]; try discriminate R.
    change (field_text (JNumber (Int z))) with (Number_toString (Int z)).
    cbn [Number_toString]. destruct (Z.ltb_spec z 0).
    + apply well_formed_app; [|apply well_formed_digits; lia].
      change (str "-") with [45]. apply well_formed_unit. lia.
    + apply well_formed_digits; lia.
  - cbn [representable] in R. apply code_unitb_spec in R.
    now apply well_formed_QuoteJSONString.
  - apply representable_array in R. rewrite (field_text_array elems R).
    unfold array_text. change (str "[") with [91]. change (str "]") with [93].
    apply well_formed_app; [apply well_formed_unit; lia|].
    apply well_formed_app; [|apply well_formed_unit; lia].
    apply well_formed_join; [apply well_formed_unit; cbn; lia|].
    apply Forall_forall. intros p Hp. apply in_map_iff in Hp as (x & <- & Hin).
    rewrite Forall_forall in IH, R. auto.
  - apply representable_object in R as [O R].
    assert (R' : Forall (fun kv => representable (snd kv) = true) props)
      by (eapply Forall_impl; [|exact R]; cbv beta; tauto).
    rewrite (field_text_object props R'). unfold record_text.
    change (str "{") with [123]. change (str "}") with [125].
    apply well_formed_app; [apply well_formed_unit; lia|].
    apply well_formed_app; [|apply well_formed_unit; lia].
    apply well_formed_join; [apply well_formed_unit; cbn; lia|].
    apply Forall_forall. intros p Hp. apply in_map_iff in Hp as ([k x] & <- & Hin).
    rewrite Forall_forall in IH, R. destruct (R _ Hin) as [K Rx]. cbn [fst snd] in *.
    unfold member_text. cbn [fst snd].
    apply well_formed_app; [now apply well_formed_QuoteJSONString|].
    apply well_formed_app; [apply well_formed_unit; cbn; lia|].
    exact (IH _ Hin Rx).
Qed.

(** X15. The round trip of any event the wire format can carry: null,
    booleans, safe integers, strings (lone surrogates included), and arrays
    and objects of these to any depth, the objects with their keys in
    enumeration order.  The bytes [publishEvent] sends for such an event
    decode to the event itself, and the consume callback asks for the append
    of the record of that event. *)
Theorem nested_event_round_trip syntax_error_message now v w :
  representable v = true ->
  exists bytes,
    encode v = Some bytes
    /\ decode bytes = Some v
    /\ on_message syntax_error_message now (Some {| content := ContentBuffer bytes |}) w
       = (Return tt,
          mkWorld (channel w) (history w) (console_out w) (files w)
                  (fs_pending w ++ [log_request_for now v]) (responses w)).
Proof.
  intros R. exists (Buffer.from (field_text v)).
  assert (D : decode (Buffer.from (field_text v)) = Some v).
  { unfold decode. rewrite (utf8_round_trip _ (well_formed_text v R)).
    now apply parse_stringify. }
  split; [|split; [exact D|]].
  - unfold encode, JSON.stringify. now rewrite (representable_defined v R).
  - exact (on_message_decoded syntax_error_message now _ v w D).
Qed.

Lemma nested_event_round_trip_witness :
  representable ev_nested = true
  /\ exists bytes,
       encode ev_nested = Some bytes
       /\ decode bytes = Some ev_nested
       /\ on_message wording_demo 0 (Some {| content := ContentBuffer bytes |}) init
          = (Return tt,
             mkWorld (channel init) (history init) (console_out init) (files init)
                     (fs_pending init ++ [log_request_for 0 ev_nested]) (responses init)).
Proof.
  split; [reflexivity|].
  apply (nested_event_round_trip wording_demo 0 ev_nested init). reflexivity.
Defined.
